(** * Layered terrain raster engine (scripts/TerrainLayer.js, TerrainLevel)

    A shallow embedding of the [TerrainLayer] class and of [TerrainLevel]:
    the channel-packed layer buffers and their dirty bits, the merged pixel
    cache, the per-layer shape queues, the scene map of pixel values, and the
    point queries built on them.

    JavaScript numbers that hold integers are [Z]; [undefined] is [None];
    typed arrays and fixed arrays are lists read with [!!]; the scene map and
    the temporary-graphics map are [gmap]s.  Objects that are mutated after
    being stored (terrains) live in a store and are named by reference.
    Methods that mutate [this] are computations in a state monad that also
    records a thrown exception together with the state reached when it was
    thrown.

    Three parts of the code that stand apart from the raster are embedded
    in modules of their own: the wall tracker of the layer ([Walls]), the
    stairs region behaviour ([Stairs],
    scripts/regions/StairsRegionBehaviorType.js) and the hooks of the
    region controls ([Controls]). *)

From Stdlib Require Import ZArith QArith Qround.
From stdpp Require Import gmap strings list fin_maps.

Local Open Scope Z_scope.

(* ===================================================================== *)
(** ** JavaScript values used by the layer *)
(* ===================================================================== *)

(** Exceptions the modelled paths can raise. *)
Inductive JsError : Type :=
  | TypeError          (* a method or property of [undefined] *)
  | ReferenceError     (* an identifier that is not declared *)
  | CapacityExceeded.  (* the registry has no free pixel value *)

(** Truthiness of an integer-valued number: only [0] is falsy. *)
Definition truthy (z : Z) : bool := negb (z =? 0).

(** Truthiness of a number that may be [undefined]. *)
Definition truthy_opt (z : option Z) : bool :=
  match z with Some v => truthy v | None => false end.

(** [ToInt32(x)] for an integer [x]: the integer of [-2^31, 2^31) equal
    to [x] modulo [2^32]. *)
Definition ToInt32 (x : Z) : Z := (x + 2 ^ 31) mod 2 ^ 32 - 2 ^ 31.

(** [~x] as the layer uses it, in the tests [if ( ~layer )].  JavaScript
    complements [ToInt32(x)]; here the integer itself is complemented,
    which gives the same number for [x] in [-2^31, 2^31) and a number of
    the same truthiness for [x] in [-2^31, 2^32 - 1)
    ([bitnot_ToInt32]).  At and beyond [2^32 - 1] the two differ, and
    what is stated about [~layer] for an arbitrary layer number carries
    that bound. *)
Definition bitnot (x : Z) : Z := Z.lnot x.

(** [Math.floor(a / 3)] for an integer [a]. *)
Definition floor_div3 (a : Z) : Z := a / 3.

(** [a % 3]: the remainder takes the sign of the dividend. *)
Definition js_rem3 (a : Z) : Z := Z.rem a 3.

(** [arr.fill(v)] on a typed array. *)
Definition Uint8Array_fill (arr : list Z) (v : Z) : list Z :=
  (fun _ => v) <$> arr.

(** [arr[idx] = v] on a typed array: an index outside [0, length) is
    ignored, the array never grows. *)
Definition Uint8Array_set (arr : list Z) (idx : Z) (v : Z) : list Z :=
  if (0 <=? idx) && (idx <? Z.of_nat (length arr))
  then <[Z.to_nat idx := v]> arr
  else arr.

(** [arr[idx]] on an array, for an integer-valued index. *)
Definition Array_get {A} (arr : list A) (idx : Z) : option A :=
  if 0 <=? idx then arr !! Z.to_nat idx else None.

(** A number that may be [NaN]; finite values are exact rationals. *)
Inductive JsNumber : Type :=
  | NaN
  | Num (q : Q).

(** [v / 255] for a pixel value that may be [undefined]. *)
Definition div255 (v : option Z) : JsNumber :=
  match v with
  | Some z => Num (inject_Z z / 255)%Q
  | None => NaN
  end.

(** The 8-bit value a colour component in [0,1] is stored as: the nearest
    integer to 255 times the component.  (What PIXI, which is not among
    the sources, stores for a component outside [0,1] is not modelled;
    pixel values from 0 to 255 give components of [0,1].) *)
Definition channelByte (c : JsNumber) : option Z :=
  match c with
  | Num q => Some (Qfloor (q * 255 + (1 # 2))%Q)
  | NaN => None
  end.

(** A JS [Set] built from an array: first occurrences, in insertion order. *)
Definition Set_add `{EqDecision A} (s : list A) (x : A) : list A :=
  if decide (x ∈ s) then s else s ++ [x].

Definition new_Set `{EqDecision A} (l : list A) : list A :=
  foldl Set_add [] l.

(* ===================================================================== *)
(** ** Constants of [TerrainLayer] *)
(* ===================================================================== *)

Definition MAX_LAYERS : Z := 6.
Definition MAX_CHANNELS : Z := 3.
(** [Math.ceil(MAX_LAYERS / 3)] *)
Definition NUM_TEXTURES : Z := (MAX_LAYERS + 2) / 3.
Definition NUM_UNDO : nat := 20.
(** [Math.pow(2, 5) - 1] *)
Definition MAX_TERRAIN_ID : Z := 2 ^ 5 - 1.

(** [LAYER_COLORS = ["RED", "GREEN", "BLUE"]] *)
Inductive ColorName : Type := RED | GREEN | BLUE.
Definition LAYER_COLORS : list ColorName := [RED; GREEN; BLUE].

(** [PIXI.COLOR_MASK_BITS] *)
Definition COLOR_MASK_BITS (c : ColorName) : Z :=
  match c with RED => 1 | GREEN => 2 | BLUE => 4 end.
Definition COLOR_MASK_BITS_ALPHA : Z := 8.

(* ===================================================================== *)
(** ** Shapes, graphics, terrains *)
(* ===================================================================== *)

Record Point : Type := mkPoint { pt_x : Z; pt_y : Z }.

(** [point.key]: identifies the point. *)
Definition Point_key (p : Point) : Z * Z := (pt_x p, pt_y p).

Definition Polygon : Type := list Point.

(** The keys of [TERRAIN_SHAPES]. *)
Inductive ShapeType : Type :=
  | TerrainGridSquare
  | TerrainGridHexagon
  | TerrainPolygon
  | TerrainShapeHoled.

Record Shape : Type := mkShape {
  shapeType : ShapeType;
  origin : Point;
  layer : Z;
  pixelValue : option Z;
  outline : list Polygon;
}.

Definition Shape_setPixelValue (sh : Shape) (v : option Z) : Shape :=
  {| shapeType := shapeType sh; origin := origin sh; layer := layer sh;
     pixelValue := v; outline := outline sh |}.

Definition Shape_setLayer (sh : Shape) (l : Z) : Shape :=
  {| shapeType := shapeType sh; origin := origin sh; layer := l;
     pixelValue := pixelValue sh; outline := outline sh |}.

(** How a [PIXI.Graphics] got its colour: as the tint of the shared white
    grid geometry, or as the fill of a shape drawn into it. *)
Inductive Paint : Type := Tint | Fill.

(** A [PIXI.Graphics] made by [_drawTerrainShape].  [gid] is the identity of
    the object: [removeChild] compares objects, not contents. *)
Record Graphics : Type := mkGraphics {
  gid : nat;
  paint : Paint;
  color : list JsNumber;      (* red, green, blue *)
  drawn : Shape;
}.

(** A layer's [PIXI.Container]: its children and the colour mask of its
    [MaskData]. *)
Record Container : Type := mkContainer {
  children : list Graphics;
  colorMask : Z;
}.

(** [container.addChild(g)]: a child already present moves to the end. *)
Definition addChild (c : Container) (g : Graphics) : Container :=
  {| children := filter (fun h => gid h ≠ gid g) (children c) ++ [g];
     colorMask := colorMask c |}.

(** [container.removeChild(g)] *)
Definition removeChild (c : Container) (g : Graphics) : Container :=
  {| children := filter (fun h => gid h ≠ gid g) (children c);
     colorMask := colorMask c |}.

(** [container.removeChildren()] *)
Definition removeChildren (c : Container) : Container :=
  {| children := []; colorMask := colorMask c |}.

(** The text label of a queue entry. *)
Record Label : Type := mkLabel { label_at : Point; label_text : string }.

(** An entry of a shape queue: [{ shape, graphics, text }]. *)
Record QueueObj : Type := mkQueueObj {
  qshape : Shape;
  qgraphics : Graphics;
  qtext : option Label;
}.

(** An entry of the temporary-graphics map: [{ shape, graphics }]. *)
Record TempObj : Type := mkTempObj {
  tshape : Shape;
  tgraphics : Graphics;
}.

(** The anchor choices of a terrain's elevation range
    ([FLAGS.CHOICES] of const.js, which is not among the sources: they
    are taken to be three distinct, defined tags). *)
Inductive AnchorChoice : Type :=
  | ABSOLUTE
  | RELATIVE_TO_TERRAIN
  | RELATIVE_TO_LAYER.

Global Instance AnchorChoice_eq_dec : EqDecision AnchorChoice.
Proof. solve_decision. Defined.

(** A terrain is named by reference; its fields are in the store. *)
Definition Terrain : Type := nat.

(** Modelled from the spec: the fields of a [Terrain] (Terrain.js is not
    among the sources): a stable identifier, a name, the scene-local pixel
    value ([None] while unassigned), the anchor mode and the two offsets of
    the elevation range ([None] for an unbounded side). *)
Record TerrainObj : Type := mkTerrainObj {
  terrain_id : string;
  terrain_name : string;
  terrain_pixelValue : option Z;
  terrain_anchor : AnchorChoice;
  terrain_minOffset : option Z;
  terrain_maxOffset : option Z;
}.

(** Modelled from the spec: [new Terrain()], the built-in "no terrain". *)
Definition nullTerrainObj : TerrainObj :=
  {| terrain_id := ""; terrain_name := ""; terrain_pixelValue := None;
     terrain_anchor := ABSOLUTE; terrain_minOffset := None;
     terrain_maxOffset := None |}.

Definition TerrainObj_setPixelValue (o : TerrainObj) (v : option Z) : TerrainObj :=
  {| terrain_id := terrain_id o; terrain_name := terrain_name o;
     terrain_pixelValue := v; terrain_anchor := terrain_anchor o;
     terrain_minOffset := terrain_minOffset o;
     terrain_maxOffset := terrain_maxOffset o |}.

Definition TerrainObj_setName (o : TerrainObj) (n : string) : TerrainObj :=
  {| terrain_id := terrain_id o; terrain_name := n;
     terrain_pixelValue := terrain_pixelValue o;
     terrain_anchor := terrain_anchor o;
     terrain_minOffset := terrain_minOffset o;
     terrain_maxOffset := terrain_maxOffset o |}.

(** The "no terrain" sentinel is a terrain built by [new Terrain()] and
    not initialised from an effect: everything but its pixel value is as
    constructed. *)
Definition isNullTerrainObj (o : TerrainObj) : Prop :=
  TerrainObj_setPixelValue o None = nullTerrainObj.

(** A [TerrainLevel]: a terrain (possibly [undefined]) at a layer.  Its
    third field, [scene], is the one scene of the canvas and is left out. *)
Record TerrainLevel : Type := mkTerrainLevel {
  terrain : option Terrain;
  level : Z;
}.

(** The persisted snapshot: [{ sceneMap: [[pixelValue, terrainId], ...],
    shapeQueueArray: [[shape, ...] per layer] }]. *)
Record SceneData : Type := mkSceneData {
  data_sceneMap : list (Z * string);
  data_shapeQueueArray : list (list Shape);
}.

(* ===================================================================== *)
(** ** Collaborators outside the layer *)
(* ===================================================================== *)

(** What the layer consumes from code that is not part of it: the renderer,
    the pixel-cache classes (TerrainPixelCache.js), the shape classes, the
    wall graph (WallTracer.js) and the effect model behind [Terrain].  The
    layer is verified for every implementation of this interface. *)
Class Host : Type := {
  (** [PIXI.RenderTexture] *)
  Texture : Type;
  (** [TerrainLayerPixelCache]: the cache of one texture (three layers) *)
  LayerCache : Type;
  (** [TerrainPixelCache]: the merged cache of all six layers *)
  PixelCache : Type;
  (** [canvas.app.renderer.render(container, { renderTexture, clear })] *)
  render : Container -> Texture -> bool -> Texture;
  (** [TerrainLayerPixelCache.fromTexture(tex)] *)
  fromTexture : option Texture -> LayerCache;
  (** [cache.updateFromTexture(tex)] *)
  updateFromTexture : LayerCache -> option Texture -> LayerCache;
  (** [TerrainPixelCache.fromTerrainLayerCaches(cache0, cache1)] *)
  fromTerrainLayerCaches : option LayerCache -> option LayerCache -> PixelCache;
  (** [cache.updateFromTerrainLayerCaches(cache0, cache1)] *)
  updateFromTerrainLayerCaches :
    PixelCache -> option LayerCache -> option LayerCache -> PixelCache;
  (** [cache.terrainLayersAt(x, y)]: the pixel value of every layer *)
  cache_terrainLayersAt : PixelCache -> Z -> Z -> list Z;
  (** [top.envelops(bottom)]: the first shape covers the second entirely *)
  envelops : Shape -> Shape -> bool;
  (** [SCENE_GRAPH.encompassingPolygonWithHoles(origin)] *)
  encompassingPolygonWithHoles : Point -> list Polygon;
  (** [new TerrainShapeHoled(polys, { pixelValue })] *)
  new_TerrainShapeHoled : list Polygon -> option Z -> Shape;
  (** [shape.simplify()] *)
  simplify : Shape -> list Shape;
  (** [Terrain.fromEffectId(id)]: the fields of the terrain built *)
  fromEffectId : string -> TerrainObj;
  (** [terrain.initialize()]: the fields after initialisation *)
  Terrain_initialize : TerrainObj -> TerrainObj;
  (** whether [TerrainMap.set] without its override flag keeps an existing
      binding (TerrainMap.js is not among the sources; both readings are
      covered) *)
  set_keeps_existing : bool;
}.

Section Model.
Context `{Host}.

(* ===================================================================== *)
(** ** The state of a [TerrainLayer] *)
(* ===================================================================== *)

(** The fields of the layer that the modelled methods read or write.
    Private fields [#x] are [priv_x].  [terrains] is the store of the
    [Terrain] objects and [nextObject] the next fresh object identity. *)
Record TerrainLayer : Type := mkTerrainLayer {
  priv_initialized : bool;
  _requiresSave : bool;
  sceneMap : gmap Z Terrain;
  terrains : gmap Terrain TerrainObj;
  nextObject : nat;
  priv_pixelCacheArray : list LayerCache;
  priv_pixelCache : option PixelCache;
  priv_pixelCacheDirty : list Z;
  priv_temporaryGraphics : gmap (Z * Z) TempObj;
  _graphicsLayers : list Container;
  _terrainTextures : list Texture;
  _shapeQueueArray : list (list QueueObj);
  (** [this.toolbar.currentLayer] *)
  currentLayer : Z;
  (** [canvas.terrain.controls.currentTerrain] *)
  controls_currentTerrain : option Terrain;
}.

Definition set_requiresSave (v : bool) (s : TerrainLayer) : TerrainLayer :=
  mkTerrainLayer (priv_initialized s) v (sceneMap s) (terrains s)
    (nextObject s) (priv_pixelCacheArray s) (priv_pixelCache s)
    (priv_pixelCacheDirty s) (priv_temporaryGraphics s) (_graphicsLayers s)
    (_terrainTextures s) (_shapeQueueArray s) (currentLayer s)
    (controls_currentTerrain s).

Definition set_sceneMap (v : gmap Z Terrain) (s : TerrainLayer) : TerrainLayer :=
  mkTerrainLayer (priv_initialized s) (_requiresSave s) v (terrains s)
    (nextObject s) (priv_pixelCacheArray s) (priv_pixelCache s)
    (priv_pixelCacheDirty s) (priv_temporaryGraphics s) (_graphicsLayers s)
    (_terrainTextures s) (_shapeQueueArray s) (currentLayer s)
    (controls_currentTerrain s).

Definition set_terrains (v : gmap Terrain TerrainObj) (s : TerrainLayer) : TerrainLayer :=
  mkTerrainLayer (priv_initialized s) (_requiresSave s) (sceneMap s) v
    (nextObject s) (priv_pixelCacheArray s) (priv_pixelCache s)
    (priv_pixelCacheDirty s) (priv_temporaryGraphics s) (_graphicsLayers s)
    (_terrainTextures s) (_shapeQueueArray s) (currentLayer s)
    (controls_currentTerrain s).

Definition set_nextObject (v : nat) (s : TerrainLayer) : TerrainLayer :=
  mkTerrainLayer (priv_initialized s) (_requiresSave s) (sceneMap s)
    (terrains s) v (priv_pixelCacheArray s) (priv_pixelCache s)
    (priv_pixelCacheDirty s) (priv_temporaryGraphics s) (_graphicsLayers s)
    (_terrainTextures s) (_shapeQueueArray s) (currentLayer s)
    (controls_currentTerrain s).

Definition set_pixelCacheArray (v : list LayerCache) (s : TerrainLayer) : TerrainLayer :=
  mkTerrainLayer (priv_initialized s) (_requiresSave s) (sceneMap s)
    (terrains s) (nextObject s) v (priv_pixelCache s)
    (priv_pixelCacheDirty s) (priv_temporaryGraphics s) (_graphicsLayers s)
    (_terrainTextures s) (_shapeQueueArray s) (currentLayer s)
    (controls_currentTerrain s).

Definition set_pixelCache (v : option PixelCache) (s : TerrainLayer) : TerrainLayer :=
  mkTerrainLayer (priv_initialized s) (_requiresSave s) (sceneMap s)
    (terrains s) (nextObject s) (priv_pixelCacheArray s) v
    (priv_pixelCacheDirty s) (priv_temporaryGraphics s) (_graphicsLayers s)
    (_terrainTextures s) (_shapeQueueArray s) (currentLayer s)
    (controls_currentTerrain s).

Definition set_pixelCacheDirty (v : list Z) (s : TerrainLayer) : TerrainLayer :=
  mkTerrainLayer (priv_initialized s) (_requiresSave s) (sceneMap s)
    (terrains s) (nextObject s) (priv_pixelCacheArray s) (priv_pixelCache s)
    v (priv_temporaryGraphics s) (_graphicsLayers s)
    (_terrainTextures s) (_shapeQueueArray s) (currentLayer s)
    (controls_currentTerrain s).

Definition set_temporaryGraphics (v : gmap (Z * Z) TempObj) (s : TerrainLayer) : TerrainLayer :=
  mkTerrainLayer (priv_initialized s) (_requiresSave s) (sceneMap s)
    (terrains s) (nextObject s) (priv_pixelCacheArray s) (priv_pixelCache s)
    (priv_pixelCacheDirty s) v (_graphicsLayers s)
    (_terrainTextures s) (_shapeQueueArray s) (currentLayer s)
    (controls_currentTerrain s).

Definition set_graphicsLayers (v : list Container) (s : TerrainLayer) : TerrainLayer :=
  mkTerrainLayer (priv_initialized s) (_requiresSave s) (sceneMap s)
    (terrains s) (nextObject s) (priv_pixelCacheArray s) (priv_pixelCache s)
    (priv_pixelCacheDirty s) (priv_temporaryGraphics s) v
    (_terrainTextures s) (_shapeQueueArray s) (currentLayer s)
    (controls_currentTerrain s).

Definition set_terrainTextures (v : list Texture) (s : TerrainLayer) : TerrainLayer :=
  mkTerrainLayer (priv_initialized s) (_requiresSave s) (sceneMap s)
    (terrains s) (nextObject s) (priv_pixelCacheArray s) (priv_pixelCache s)
    (priv_pixelCacheDirty s) (priv_temporaryGraphics s) (_graphicsLayers s)
    v (_shapeQueueArray s) (currentLayer s)
    (controls_currentTerrain s).

Definition set_shapeQueueArray (v : list (list QueueObj)) (s : TerrainLayer) : TerrainLayer :=
  mkTerrainLayer (priv_initialized s) (_requiresSave s) (sceneMap s)
    (terrains s) (nextObject s) (priv_pixelCacheArray s) (priv_pixelCache s)
    (priv_pixelCacheDirty s) (priv_temporaryGraphics s) (_graphicsLayers s)
    (_terrainTextures s) v (currentLayer s)
    (controls_currentTerrain s).


(* ===================================================================== *)
(** ** Methods as computations: state plus exceptions *)
(* ===================================================================== *)

(** The outcome of running a method: it returned a value, or it threw; in
    both cases with the state the layer was left in (an exception undoes
    nothing). *)
Inductive Result (A : Type) : Type :=
  | Returned (a : A) (s : TerrainLayer)
  | Thrown (e : JsError) (s : TerrainLayer).
Arguments Returned {A} a s.
Arguments Thrown {A} e s.

Definition M (A : Type) : Type := TerrainLayer -> Result A.

Definition stateOf {A} (r : Result A) : TerrainLayer :=
  match r with Returned _ s => s | Thrown _ s => s end.

Definition valueOf {A} (r : Result A) : option A :=
  match r with Returned a _ => Some a | Thrown _ _ => None end.

Definition returns {A} (r : Result A) : bool :=
  match r with Returned _ _ => true | Thrown _ _ => false end.

Global Instance M_ret : MRet M := fun A a s => Returned a s.

Global Instance M_bind : MBind M := fun A B f m s =>
  match m s with
  | Returned a s' => f a s'
  | Thrown e s' => Thrown e s'
  end.

Definition get : M TerrainLayer := fun s => Returned s s.
Definition gets {A} (f : TerrainLayer -> A) : M A := fun s => Returned (f s) s.
Definition modify (f : TerrainLayer -> TerrainLayer) : M unit :=
  fun s => Returned tt (f s).
Definition throw {A} (e : JsError) : M A := fun s => Thrown e s.

(** [for (const x of xs) body(x)] *)
Fixpoint forOf {A} (xs : list A) (body : A -> M unit) : M unit :=
  match xs with
  | [] => mret tt
  | x :: rest => body x ;; forOf rest body
  end.

(** [if (c) stmt] *)
Definition when (c : bool) (stmt : M unit) : M unit :=
  if c then stmt else mret tt.

(* ===================================================================== *)
(** ** The scene map and the terrain store *)
(* ===================================================================== *)

(** Modelled from the spec: [TerrainMap] (TerrainMap.js is not among the
    sources), the registry from pixel values to terrains.  [set] binds one
    key and leaves every other key alone; [add] is the spec's [register]:
    the lowest unused key in [1,31], or [CapacityExceeded]. *)
Definition TerrainMap_has (m : gmap Z Terrain) (key : Z) : bool :=
  bool_decide (is_Some (m !! key)).

Definition TerrainMap_set (m : gmap Z Terrain) (key : Z) (t : Terrain)
    (override : bool) : gmap Z Terrain :=
  if override || negb (set_keeps_existing && TerrainMap_has m key)
  then <[key := t]> m
  else m.

Definition TerrainMap_freeKey (m : gmap Z Terrain) : option Z :=
  List.find (fun k => negb (TerrainMap_has m k)) (seqZ 1 MAX_TERRAIN_ID).

(** The key a terrain object is bound to ([keyForValue]); pixel values are
    in [0,31]. *)
Definition TerrainMap_keyForValue (m : gmap Z Terrain) (t : Terrain) : option Z :=
  List.find (fun k => bool_decide (m !! k = Some t)) (seqZ 0 (MAX_TERRAIN_ID + 1)).

(** The fields of a terrain object. *)
Definition terrainObj (s : TerrainLayer) (t : Terrain) : TerrainObj :=
  default nullTerrainObj (terrains s !! t).

(** [sceneMap.hasTerrainId(id)]: some bound terrain has this identifier. *)
Definition hasTerrainId (s : TerrainLayer) (id : string) : bool :=
  existsb (fun kt => bool_decide (terrain_id (terrainObj s kt.2) = id))
          (map_to_list (sceneMap s)).

(** Allocate a terrain object with the given fields. *)
Definition new_TerrainObj (o : TerrainObj) : M Terrain :=
  fun s =>
    let t := nextObject s in
    Returned t (set_nextObject (S t) (set_terrains (<[t := o]> (terrains s)) s)).

(** [new Terrain()] *)
Definition new_Terrain : M Terrain := new_TerrainObj nullTerrainObj.

(** Assignment to a field of a terrain object. *)
Definition updateTerrain (t : Terrain) (f : TerrainObj -> TerrainObj) : M unit :=
  modify (fun s => set_terrains (<[t := f (terrainObj s t)]> (terrains s)) s).

(** [terrainForPixel(pixelValue)] *)
Definition terrainForPixel (s : TerrainLayer) (pixelValue : option Z) : option Terrain :=
  match pixelValue with
  | Some v => sceneMap s !! v
  | None => None
  end.

(** [_inSceneMap(terrain)] *)
Definition _inSceneMap (s : TerrainLayer) (t : Terrain) : bool :=
  hasTerrainId s (terrain_id (terrainObj s t)).

(** [_addTerrainToScene(terrain)]; the refresh of the controls and of the
    shader colours is outside the model. *)
Definition _addTerrainToScene (t : Terrain) : M (option Z) :=
  s ← get;
  if _inSceneMap s t then mret (TerrainMap_keyForValue (sceneMap s) t)
  else
    match TerrainMap_freeKey (sceneMap s) with
    | None => throw CapacityExceeded
    | Some pixelValue =>
        modify (fun s => set_sceneMap (<[pixelValue := t]> (sceneMap s)) s) ;;
        modify (set_requiresSave true) ;;
        mret (Some pixelValue)
    end.

(** Modelled from the spec: [terrain.addToScene()] (Terrain.js is not among
    the sources) registers the terrain with the layer and records the pixel
    value it got. *)
Definition Terrain_addToScene (t : Terrain) : M unit :=
  pixelValue ← _addTerrainToScene t;
  updateTerrain t (fun o => TerrainObj_setPixelValue o pixelValue).

(** Modelled from the spec: [terrain._unassignPixel()] releases the pixel
    value of the terrain back to unassigned. *)
Definition Terrain_unassignPixel (t : Terrain) : M unit :=
  updateTerrain t (fun o => TerrainObj_setPixelValue o None).

(* ===================================================================== *)
(** ** Pixel cache *)
(* ===================================================================== *)

(** [a || b] on numbers that may be [undefined]. *)
Definition js_or (a b : option Z) : option Z :=
  if truthy_opt a then a else b.

(** [#initializePixelCache()] *)
Definition initializePixelCache : M unit :=
  modify (fun s =>
    let nTex := Z.to_nat NUM_TEXTURES in
    let arr := (fun i => fromTexture (_terrainTextures s !! i)) <$> seq 0 nTex in
    let cache0 := arr !! 0%nat in
    let cache1 := arr !! 1%nat in
    set_pixelCache (Some (fromTerrainLayerCaches cache0 cache1))
      (set_pixelCacheArray arr s)).

(** [get pixelCacheDirty()] *)
Definition pixelCacheDirty (s : TerrainLayer) : option Z :=
  js_or (priv_pixelCacheDirty s !! 0%nat) (priv_pixelCacheDirty s !! 1%nat).

(** [_clearPixelCacheArray(layer = -1)] *)
Definition _clearPixelCacheArray (layer : Z) : M unit :=
  modify (fun s =>
    if truthy (bitnot layer)
    then set_pixelCacheDirty (Uint8Array_fill (priv_pixelCacheDirty s) 1) s
    else
      let idx := floor_div3 layer in
      set_pixelCacheDirty (Uint8Array_set (priv_pixelCacheDirty s) idx 1) s).

(** [#refreshPixelCacheArray(i)] *)
Definition refreshPixelCacheArray (i : nat) : M unit :=
  s ← get;
  let tex := _terrainTextures s !! i in
  match priv_pixelCacheArray s !! i with
  | None => throw TypeError
  | Some c =>
      modify (fun s =>
        set_pixelCacheArray
          (<[i := updateFromTexture c tex]> (priv_pixelCacheArray s)) s) ;;
      modify (fun s =>
        set_pixelCacheDirty
          (Uint8Array_set (priv_pixelCacheDirty s) (Z.of_nat i) 0) s)
  end.

(** [#refreshPixelCache()] *)
Definition refreshPixelCache : M unit :=
  d0 ← gets (fun s => priv_pixelCacheDirty s !! 0%nat);
  when (truthy_opt d0) (refreshPixelCacheArray 0) ;;
  d1 ← gets (fun s => priv_pixelCacheDirty s !! 1%nat);
  when (truthy_opt d1) (refreshPixelCacheArray 1) ;;
  s ← get;
  let cache0 := priv_pixelCacheArray s !! 0%nat in
  let cache1 := priv_pixelCacheArray s !! 1%nat in
  match priv_pixelCache s with
  | None => throw TypeError
  | Some pc =>
      modify (set_pixelCache (Some (updateFromTerrainLayerCaches pc cache0 cache1)))
  end.

(** [get pixelCache()] *)
Definition pixelCache : M (option PixelCache) :=
  dirty ← gets pixelCacheDirty;
  when (truthy_opt dirty) refreshPixelCache ;;
  gets priv_pixelCache.

(** [get pixelCacheArray()] *)
Definition pixelCacheArray : M (list LayerCache) :=
  dirty ← gets pixelCacheDirty;
  when (truthy_opt dirty) refreshPixelCache ;;
  gets priv_pixelCacheArray.

(** [_terrainLayersAt({x, y})] *)
Definition _terrainLayersAt (pt : Point) : M (option (list Z)) :=
  init ← gets priv_initialized;
  if negb init then mret None
  else
    cache ← pixelCache;
    match cache with
    | None => throw TypeError
    | Some pc => mret (Some (cache_terrainLayersAt pc (pt_x pt) (pt_y pt)))
    end.

(* ===================================================================== *)
(** ** Shape queues *)
(* ===================================================================== *)

(** Modelled from the spec: [ShapeQueue] (ShapeQueue.js is not among the
    sources).  [enqueue] appends; [dequeue] removes and returns the most
    recently appended entry; [clean(retain)] scans the prefix older than
    the [retain] most recent entries and removes the entries whose shape is
    entirely covered by a later entry of the same layer, returning the
    removed entries. *)
Definition ShapeQueue_enqueue (q : list QueueObj) (e : QueueObj) : list QueueObj :=
  q ++ [e].

Definition ShapeQueue_dequeue (q : list QueueObj) : option QueueObj * list QueueObj :=
  (last q, removelast q).

Definition superseded (e : QueueObj) (later : list QueueObj) : bool :=
  existsb (fun l => (layer (qshape l) =? layer (qshape e))
                    && envelops (qshape l) (qshape e)) later.

(** The scan of the [n] oldest entries: (entries kept, entries removed). *)
Fixpoint ShapeQueue_cleanPrefix (n : nat) (q : list QueueObj)
    : list QueueObj * list QueueObj :=
  match n, q with
  | S n', e :: rest =>
      let '(kept, removed) := ShapeQueue_cleanPrefix n' rest in
      if superseded e rest then (kept, e :: removed) else (e :: kept, removed)
  | _, _ => (q, [])
  end.

Definition ShapeQueue_clean (retain : nat) (q : list QueueObj)
    : list QueueObj * list QueueObj :=
  ShapeQueue_cleanPrefix (length q - retain) q.

(** [isPixelValueInScene(pixelValue)] *)
Definition isPixelValueInScene (s : TerrainLayer) (value : Z) : bool :=
  if negb (truthy value) || (value <? 0) || (31 <? value)
  then false
  else
    existsb
      (fun queue =>
         existsb (fun e => bool_decide (pixelValue (qshape e) = Some value))
                 queue)
      (_shapeQueueArray s).

(* ===================================================================== *)
(** ** Drawing and rendering *)
(* ===================================================================== *)

(** [arr[idx] = v] on a plain array, for the indices written here: a
    negative index sets a property and leaves the elements alone; the
    non-negative indices used are below the length. *)
Definition Array_set {A} (arr : list A) (idx : Z) (v : A) : list A :=
  if 0 <=? idx then <[Z.to_nat idx := v]> arr else arr.

(** The containers built by [#firstInitialize()]: one per layer, masked to
    the layer's colour and alpha. *)
Definition firstInitialize_graphicsLayers : list Container :=
  (fun i =>
     let colorName := default RED (LAYER_COLORS !! (i mod 3)%nat) in
     {| children := [];
        colorMask := Z.lor (COLOR_MASK_BITS colorName) COLOR_MASK_BITS_ALPHA |})
  <$> seq 0 (Z.to_nat MAX_LAYERS).

Definition new_Graphics (p : Paint) (c : list JsNumber) (sh : Shape) : M Graphics :=
  fun s =>
    let g := {| gid := nextObject s; paint := p; color := c; drawn := sh |} in
    Returned g (set_nextObject (S (nextObject s)) s).

(** [this._graphicsLayers[layer].addChild(g)] *)
Definition layer_addChild (l : Z) (g : Graphics) : M unit :=
  s ← get;
  match Array_get (_graphicsLayers s) l with
  | None => throw TypeError
  | Some c =>
      modify (set_graphicsLayers (<[Z.to_nat l := addChild c g]> (_graphicsLayers s)))
  end.

(** [this._graphicsLayers[layer].removeChild(g)] *)
Definition layer_removeChild (l : Z) (g : Graphics) : M unit :=
  s ← get;
  match Array_get (_graphicsLayers s) l with
  | None => throw TypeError
  | Some c =>
      modify (set_graphicsLayers (<[Z.to_nat l := removeChild c g]> (_graphicsLayers s)))
  end.

Definition isGridShape (sh : Shape) : bool :=
  match shapeType sh with
  | TerrainGridSquare | TerrainGridHexagon => true
  | _ => false
  end.

(** The colour [_drawTerrainShape] computes: [colorArr] with
    [colorArr[layer % 3] = terrain.pixelValue / 255]. *)
Definition terrainShapeColor (l : Z) (value : option Z) : list JsNumber :=
  let channel := js_rem3 l in
  let colorArr := replicate 3 (Num 0) in
  Array_set colorArr channel (div255 value).

(** [_drawTerrainShape(shape, terrain)].  A grid shape reuses the shared
    white grid geometry and is tinted; any other shape is drawn with the
    colour as its fill (the graphics is added to the container before it is
    drawn into, and again after). *)
Definition _drawTerrainShape (shape : Shape) (terrain : option Terrain) : M Graphics :=
  s ← get;
  let l := layer shape in
  match terrain with
  | None => throw TypeError
  | Some t =>
      let color := terrainShapeColor l (terrain_pixelValue (terrainObj s t)) in
      if isGridShape shape then
        graphics ← new_Graphics Tint color shape;
        layer_addChild l graphics ;;
        mret graphics
      else
        match Array_get (_graphicsLayers s) l with
        | None => throw TypeError
        | Some _ =>
            graphics ← new_Graphics Fill color shape;
            layer_addChild l graphics ;;
            layer_addChild l graphics ;;
            mret graphics
        end
  end.

(** [_removeTerrainShape(shape, graphics)] *)
Definition _removeTerrainShape (shape : Shape) (graphics : Graphics) : M unit :=
  layer_removeChild (layer shape) graphics.

(** The render calls of [renderTerrain(layer)], in order: (layer container
    index, texture index, clear flag). *)
Fixpoint renderPlan (l texToRender : Z) (indices : list Z) (clear : bool)
    : list (Z * Z * bool) :=
  match indices with
  | [] => []
  | i :: rest =>
      let texIdx := floor_div3 i in
      if truthy (bitnot l) && negb (texIdx =? texToRender)
      then renderPlan l texToRender rest clear
      else (i, texIdx, clear) :: renderPlan l texToRender rest false
  end.

(** One [canvas.app.renderer.render(layerContainer, { renderTexture, clear })]. *)
Definition renderCall (call : Z * Z * bool) : M unit :=
  let '(i, texIdx, clear) := call in
  s ← get;
  match Array_get (_graphicsLayers s) i, Array_get (_terrainTextures s) texIdx with
  | Some layerContainer, Some renderTexture =>
      modify (set_terrainTextures
                (<[Z.to_nat texIdx := render layerContainer renderTexture clear]>
                   (_terrainTextures s)))
  | _, _ => mret tt
  end.

(** [renderTerrain(layer = -1)] *)
Definition renderTerrain (l : Z) : M unit :=
  nLayers ← gets (fun s => Z.of_nat (length (_graphicsLayers s)));
  let texToRender := floor_div3 l in
  forOf (renderPlan l texToRender (seqZ 0 nLayers) true) renderCall ;;
  _clearPixelCacheArray l.

(** [_drawTerrainName(shape)]; the label containers are outside the
    model, the text object is what the queue entry keeps. *)
Definition _drawTerrainName (shape : Shape) : M (option Label) :=
  s ← get;
  let terrain := terrainForPixel s (pixelValue shape) in
  if negb (truthy_opt (pixelValue shape)) then mret None
  else
    match terrain with
    | None => throw TypeError
    | Some t =>
        mret (Some {| label_at := origin shape;
                      label_text := terrain_name (terrainObj s t) |})
    end.

(** [this._shapeQueueArray[layer].enqueue(obj)] *)
Definition queue_enqueue (l : Z) (obj : QueueObj) : M unit :=
  s ← get;
  match Array_get (_shapeQueueArray s) l with
  | None => throw TypeError
  | Some q =>
      modify (set_shapeQueueArray
                (<[Z.to_nat l := ShapeQueue_enqueue q obj]> (_shapeQueueArray s)))
  end.

(** [addTerrainShapeToCanvas(shape, terrain, { temporary = false })] *)
Definition addTerrainShapeToCanvas (shape : Shape) (terrain : Terrain)
    (temporary : bool) : M Graphics :=
  s ← get;
  when (negb (hasTerrainId s (terrain_id (terrainObj s terrain))))
       (Terrain_addToScene terrain) ;;
  s ← get;
  let shape := Shape_setPixelValue shape (terrain_pixelValue (terrainObj s terrain)) in
  let shape := Shape_setLayer shape (currentLayer s) in
  let key := Point_key (origin shape) in
  when temporary
    (match priv_temporaryGraphics s !! key with
     | Some oldValues => _removeTerrainShape (tshape oldValues) (tgraphics oldValues)
     | None => mret tt
     end) ;;
  graphics ← _drawTerrainShape shape (Some terrain);
  renderTerrain (layer shape) ;;
  (if temporary
   then modify (fun s =>
          set_temporaryGraphics
            (<[key := {| tshape := shape; tgraphics := graphics |}]>
               (priv_temporaryGraphics s)) s)
   else
     text ← _drawTerrainName shape;
     queue_enqueue (layer shape)
       {| qshape := shape; qgraphics := graphics; qtext := text |}) ;;
  modify (set_requiresSave (negb temporary)) ;;
  mret graphics.

(** What [fill] tells the user. *)
Inductive Notification : Type :=
  | CannotLocateClosedBoundary (origin : Point).

(** [fill(origin, terrain)]; the value is the warning shown, if any (the
    method itself returns [undefined] on every path). *)
Definition fill (origin : Point) (terrain : Terrain) : M (option Notification) :=
  let polys := encompassingPolygonWithHoles origin in
  if (length polys =? 0)%nat then
    mret (Some (CannotLocateClosedBoundary origin))
  else
    s ← get;
    let shape := new_TerrainShapeHoled polys (terrain_pixelValue (terrainObj s terrain)) in
    let shapes := simplify shape in
    forOf shapes (fun shape => addTerrainShapeToCanvas shape terrain false ;; mret tt) ;;
    mret None.

(** [#removeShape(queueObj)]; the label containers are outside the model. *)
Definition removeShape (queueObj : QueueObj) : M unit :=
  let layerIdx := layer (qshape queueObj) in
  layer_removeChild layerIdx (qgraphics queueObj).

(** [#cleanShapeQueue(layerNum)] *)
Definition cleanShapeQueue (layerNum : Z) : M unit :=
  let skip := NUM_UNDO in
  s ← get;
  match Array_get (_shapeQueueArray s) layerNum with
  | None => throw TypeError
  | Some queue =>
      if (length queue <? skip)%nat then mret tt
      else
        let '(kept, removedElements) := ShapeQueue_clean skip queue in
        modify (set_shapeQueueArray
                  (<[Z.to_nat layerNum := kept]> (_shapeQueueArray s))) ;;
        if (length removedElements =? 0)%nat then mret tt
        else
          forOf removedElements removeShape ;;
          renderTerrain layerNum
  end.

(** [cleanAllShapeQueues()] *)
Definition cleanAllShapeQueues : M unit :=
  forOf (seqZ 0 MAX_LAYERS) cleanShapeQueue.

(** [undo()] *)
Definition undo : M unit :=
  s ← get;
  let currLayer := currentLayer s in
  match Array_get (_shapeQueueArray s) currLayer with
  | None => throw TypeError
  | Some queue =>
      let '(queueObj, rest) := ShapeQueue_dequeue queue in
      modify (set_shapeQueueArray
                (<[Z.to_nat currLayer := rest]> (_shapeQueueArray s))) ;;
      match queueObj with
      | None => mret tt
      | Some queueObj =>
          removeShape queueObj ;;
          modify (set_requiresSave true) ;;
          renderTerrain (layer (qshape queueObj))
      end
  end.

(* ===================================================================== *)
(** ** Save and load; the scene map *)
(* ===================================================================== *)

(** [shapeQueue.clear()] on the queue of one layer. *)
Definition queue_clear (l : Z) : M unit :=
  s ← get;
  match Array_get (_shapeQueueArray s) l with
  | None => throw TypeError
  | Some _ =>
      modify (set_shapeQueueArray (<[Z.to_nat l := []]> (_shapeQueueArray s)))
  end.

(** [this.sceneMap.set(key, terrain, override)] *)
Definition sceneMap_set (key : Z) (t : Terrain) (override : bool) : M unit :=
  modify (fun s => set_sceneMap (TerrainMap_set (sceneMap s) key t override) s).

(** [importFromJSON(json)]; the shapes of the snapshot are taken as
    already rebuilt by their classes' [fromJSON]. *)
Definition importFromJSON (data : SceneData) : M unit :=
  (* Clear the scene map. *)
  modify (set_sceneMap ∅) ;;
  (* Set the 0 pixel value. *)
  nullTerrain ← new_Terrain;
  sceneMap_set 0 nullTerrain true ;;
  Terrain_addToScene nullTerrain ;;
  (* Add all other terrains to the scene map. *)
  forOf (data_sceneMap data) (fun entry =>
    let '(key, id) := entry in
    if negb (truthy key) then mret tt
    else
      terrain ← new_TerrainObj (fromEffectId id);
      sceneMap_set key terrain false ;;
      Terrain_addToScene terrain) ;;
  (* Clear the graphics layers. *)
  modify (fun s => set_graphicsLayers (removeChildren <$> _graphicsLayers s) s) ;;
  (* Construct the shape queues. *)
  ln ← gets (fun s => Z.of_nat (length (_shapeQueueArray s)));
  forOf (seqZ 0 ln) (fun i =>
    queue_clear i ;;
    match Array_get (data_shapeQueueArray data) i with
    | None => throw TypeError
    | Some dataQueue =>
        forOf dataQueue (fun shape =>
          s ← get;
          let terrain := terrainForPixel s (pixelValue shape) in
          graphics ← _drawTerrainShape shape terrain;
          text ← _drawTerrainName shape;
          queue_enqueue i {| qshape := shape; qgraphics := graphics; qtext := text |})
    end) ;;
  (* Finally, render the terrain. *)
  _clearPixelCacheArray (-1) ;;
  renderTerrain (-1).

(** [loadSceneData()]; [data] is what [this._fileManager.loadData()]
    resolved to. *)
Definition loadSceneData (data : option SceneData) : M unit :=
  match data with
  | Some d => importFromJSON d
  | None =>
      s ← get;
      when (negb (TerrainMap_has (sceneMap s) 0))
        (nullTerrain ← new_Terrain;
         sceneMap_set 0 nullTerrain true ;;
         Terrain_addToScene nullTerrain)
  end.

(** [_removeTerrainFromScene(terrain)]; the refresh of the controls is
    outside the model. *)
Definition _removeTerrainFromScene (t : Terrain) : M (option Terrain) :=
  s ← get;
  match terrain_pixelValue (terrainObj s t) with
  | Some value =>
      if negb (_inSceneMap s t) || negb (truthy value) then mret None
      else
        (* Replace this terrain with a new one in the scene map. *)
        newTerrain ← new_Terrain;
        updateTerrain newTerrain Terrain_initialize ;;
        updateTerrain newTerrain (fun o => TerrainObj_setName o "new-terrain") ;;
        sceneMap_set value newTerrain false ;;
        Terrain_addToScene newTerrain ;;
        modify (set_requiresSave true) ;;
        mret (Some newTerrain)
  | None => mret None
  end.

(** [#removeTerrainFromSceneMap(terrain)] *)
Definition removeTerrainFromSceneMap (t : Terrain) : M unit :=
  s ← get;
  match terrain_pixelValue (terrainObj s t) with
  | Some value =>
      if negb (_inSceneMap s t) || negb (truthy value) then mret tt
      else
        modify (fun s => set_sceneMap (delete value (sceneMap s)) s) ;;
        modify (set_requiresSave true) ;;
        Terrain_unassignPixel t
  | None => mret tt
  end.

(** [_replaceTerrainInScene(newTerrain, pixelValue)] *)
Definition _replaceTerrainInScene (newTerrain : Terrain) (value : Z) : M unit :=
  s ← get;
  match sceneMap s !! value with
  | None => throw TypeError
  | Some oldTerrain =>
      if bool_decide (oldTerrain = newTerrain)
         || bool_decide (terrain_id (terrainObj s oldTerrain)
                         = terrain_id (terrainObj s newTerrain))
      then mret tt
      else
        sceneMap_set value newTerrain true ;;
        Terrain_unassignPixel oldTerrain ;;
        Terrain_addToScene newTerrain
  end.

(* ===================================================================== *)
(** ** Access to terrain data *)
(* ===================================================================== *)

(** [new TerrainLevel(terrain, level)]: an [undefined] terrain falls back
    to the terrain of the controls. *)
Definition new_TerrainLevel (s : TerrainLayer) (t : option Terrain) (l : Z)
    : TerrainLevel :=
  {| terrain := match t with Some _ => t | None => controls_currentTerrain s end;
     level := l |}.

(** The loop of [_layersToTerrainLevels], from index [i] on. *)
Fixpoint layersToTerrainLevels_from (s : TerrainLayer) (i : Z)
    (terrainLayers : list Z) : list TerrainLevel :=
  match terrainLayers with
  | [] => []
  | px :: rest =>
      if negb (truthy px) then layersToTerrainLevels_from s (i + 1) rest
      else
        new_TerrainLevel s (terrainForPixel s (Some px)) i
        :: layersToTerrainLevels_from s (i + 1) rest
  end.

(** [_layersToTerrainLevels(terrainLayers)] *)
Definition _layersToTerrainLevels (s : TerrainLayer) (terrainLayers : list Z)
    : list TerrainLevel :=
  layersToTerrainLevels_from s 0 terrainLayers.

(** [terrainLevelsAt(pt)] *)
Definition terrainLevelsAt (pt : Point) : M (list TerrainLevel) :=
  init ← gets priv_initialized;
  if negb init then mret []
  else
    terrainLayers ← _terrainLayersAt pt;
    match terrainLayers with
    | None => throw TypeError
    | Some ls => gets (fun s => _layersToTerrainLevels s ls)
    end.


(* ===================================================================== *)
(** ** [TerrainLevel] *)
(* ===================================================================== *)

(** What [getAnchorElevation] can evaluate to. *)
Inductive JsValue : Type :=
  | JsUndefined
  | JsNum (z : Z)
  | JsFunction (name : string).

(** Numbers with [NaN] and the infinities, for the range arithmetic. *)
Inductive ExtNum : Type :=
  | ENaN
  | ENegInf
  | EFin (z : Z)
  | EPosInf.

(** Conversion to a number: [undefined] is [NaN], and so is a function
    (adding a number to a function concatenates their texts, which no
    comparison reads as a number). *)
Definition toNumber (v : JsValue) : ExtNum :=
  match v with
  | JsNum z => EFin z
  | JsUndefined | JsFunction _ => ENaN
  end.

Definition ext_add (a b : ExtNum) : ExtNum :=
  match a, b with
  | ENaN, _ | _, ENaN => ENaN
  | EPosInf, ENegInf | ENegInf, EPosInf => ENaN
  | EPosInf, _ | _, EPosInf => EPosInf
  | ENegInf, _ | _, ENegInf => ENegInf
  | EFin x, EFin y => EFin (x + y)
  end.

(** [a <= b]; false when either side is [NaN]. *)
Definition ext_le (a b : ExtNum) : bool :=
  match a, b with
  | ENaN, _ | _, ENaN => false
  | ENegInf, _ => true
  | _, EPosInf => true
  | EFin x, EFin y => x <=? y
  | _, _ => false
  end.

(** [Math.min(a, b)] and [Math.max(a, b)] *)
Definition ext_min (a b : ExtNum) : ExtNum :=
  match a, b with
  | ENaN, _ | _, ENaN => ENaN
  | _, _ => if ext_le a b then a else b
  end.

Definition ext_max (a b : ExtNum) : ExtNum :=
  match a, b with
  | ENaN, _ | _, ENaN => ENaN
  | _, _ => if ext_le a b then b else a
  end.

(** [x.between(a, b)], inclusive. *)
Definition between (x a b : ExtNum) : bool :=
  ext_le (ext_min a b) x && ext_le x (ext_max a b).

(** [_layerElevation()]; [flag] is the scene's layer-elevations flag. *)
Definition _layerElevation (flag : option (list Z)) (tl : TerrainLevel) : option Z :=
  let layerElevations := default (replicate 8 0) flag in
  Array_get layerElevations (level tl).

(** [this.anchor] on a [TerrainLevel]: the class has the fields [terrain],
    [level] and [scene], and neither a field nor an accessor [anchor]. *)
Definition TerrainLevel_anchor (tl : TerrainLevel) : option AnchorChoice := None.

(** The [switch] of [getAnchorElevation] on a given scrutinee, compared
    with the three tags of [FLAGS.CHOICES]: [terrainElevation] is not
    declared anywhere, and the last case returns the method
    [this._layerElevation] itself.  With no matching case the method runs
    off its end and returns [undefined]. *)
Definition getAnchorElevation_switch (scrutinee : option AnchorChoice)
    (location : option Point) : M JsValue :=
  match scrutinee with
  | Some ABSOLUTE => mret (JsNum 0)
  | Some RELATIVE_TO_TERRAIN =>
      match location with
      | Some _ => throw ReferenceError
      | None => mret (JsNum 0)
      end
  | Some RELATIVE_TO_LAYER => mret (JsFunction "_layerElevation")
  | None => mret JsUndefined
  end.

(** [getAnchorElevation(location)] *)
Definition getAnchorElevation (tl : TerrainLevel) (location : option Point)
    : M JsValue :=
  getAnchorElevation_switch (TerrainLevel_anchor tl) location.

(** Modelled from the spec: [terrain._elevationMinMaxForAnchorElevation]
    (Terrain.js is not among the sources): the elevation range is the
    anchor elevation plus the minimum and the maximum offset, an absent
    offset leaving that side unbounded. *)
Definition _elevationMinMaxForAnchorElevation (o : TerrainObj) (anchorE : JsValue)
    : ExtNum * ExtNum :=
  (match terrain_minOffset o with
   | Some off => ext_add (toNumber anchorE) (EFin off)
   | None => ext_add (toNumber anchorE) ENegInf
   end,
   match terrain_maxOffset o with
   | Some off => ext_add (toNumber anchorE) (EFin off)
   | None => ext_add (toNumber anchorE) EPosInf
   end).

(** [elevationRange(location)] *)
Definition elevationRange (tl : TerrainLevel) (location : option Point)
    : M (ExtNum * ExtNum) :=
  anchorE ← getAnchorElevation tl location;
  match terrain tl with
  | None => throw TypeError
  | Some t =>
      gets (fun s => _elevationMinMaxForAnchorElevation (terrainObj s t) anchorE)
  end.

(** [activeAt(elevation, location)] *)
Definition activeAt (tl : TerrainLevel) (elevation : Z) (location : option Point)
    : M bool :=
  minMaxE ← elevationRange tl location;
  mret (between (EFin elevation) minMaxE.1 minMaxE.2).

(** [arr.filter(t => pred(t))] for a predicate that may throw. *)
Fixpoint filterM {A} (pred : A -> M bool) (xs : list A) : M (list A) :=
  match xs with
  | [] => mret []
  | x :: rest =>
      keep ← pred x;
      kept ← filterM pred rest;
      mret (if (keep : bool) then x :: kept else kept)
  end.

(** [activeTerrainLevelsAt(pt, elevation)]; an absent elevation defaults to
    that of the point, [0] for a 2-D point. *)
Definition activeTerrainLevelsAt (pt : Point) (elevation : option Z)
    : M (list TerrainLevel) :=
  let elevation := default 0 elevation in
  terrainLevels ← terrainLevelsAt pt;
  filterM (fun t => activeAt t elevation (Some pt)) terrainLevels.

(* ===================================================================== *)
(** ** Specifications of computations *)
(* ===================================================================== *)

(** [m] run from [s] returns, and its value and final state satisfy [Q]. *)
Definition wp {A} (m : M A) (Q : A -> TerrainLayer -> Prop) (s : TerrainLayer) : Prop :=
  match m s with
  | Returned a s' => Q a s'
  | Thrown _ _ => False
  end.

(** If [m] run from [s] returns, its value and final state satisfy [Q]. *)
Definition wlp {A} (m : M A) (Q : A -> TerrainLayer -> Prop) (s : TerrainLayer) : Prop :=
  match m s with
  | Returned a s' => Q a s'
  | Thrown _ _ => True
  end.

(** The observation [f] of the state has the value [v]. *)
Definition observes {X} (f : TerrainLayer -> X) (v : X) (s : TerrainLayer) : Prop :=
  f s = v.

(** [P] holds of the state [m] leaves behind whenever it holds before,
    whether [m] returns or throws. *)
Definition preserves {A} (P : TerrainLayer -> Prop) (m : M A) : Prop :=
  forall s, P s -> P (stateOf (m s)).

(** The fields of the layer other than the pixel cache and its dirty
    bits are the same in both states. *)
Definition sameOutsideCache (s s' : TerrainLayer) : Prop :=
  priv_initialized s' = priv_initialized s
  /\ _requiresSave s' = _requiresSave s
  /\ sceneMap s' = sceneMap s
  /\ terrains s' = terrains s
  /\ nextObject s' = nextObject s
  /\ priv_temporaryGraphics s' = priv_temporaryGraphics s
  /\ _graphicsLayers s' = _graphicsLayers s
  /\ _terrainTextures s' = _terrainTextures s
  /\ _shapeQueueArray s' = _shapeQueueArray s
  /\ currentLayer s' = currentLayer s
  /\ controls_currentTerrain s' = controls_currentTerrain s.

(** What compaction may do to a queue [q], giving [q']: nothing to a
    queue shorter than [NUM_UNDO]; the [NUM_UNDO] most recent entries stay
    at the end, after a subsequence of the older ones; and an entry that
    is gone was older than those and covered by a later entry. *)
Definition compacted (q q' : list QueueObj) : Prop :=
  ((length q < NUM_UNDO)%nat -> q' = q)
  /\ (exists older,
        q' = older ++ drop (length q - NUM_UNDO) q
        /\ sublist older (take (length q - NUM_UNDO) q))
  /\ (forall e, e ∈ q -> e ∉ q' ->
        exists q1 q2,
          q = q1 ++ e :: q2
          /\ (NUM_UNDO <= length q2)%nat
          /\ superseded e q2 = true).

(** Key 0 of the scene map is bound to the terrain object [t0], whose
    fields are [o0], allocated before the next fresh object. *)
Definition key0_is (t0 : Terrain) (o0 : TerrainObj) (s : TerrainLayer) : Prop :=
  sceneMap s !! 0 = Some t0
  /\ terrains s !! t0 = Some o0
  /\ (t0 < nextObject s)%nat.

(** Key 0 of the scene map has the binding [v] (possibly none). *)
Definition key0_bound (v : option Terrain) (s : TerrainLayer) : Prop :=
  sceneMap s !! 0 = v.

(** What is enough for an operation to keep key 0 and its object: it
    leaves the scene map and the terrain store alone and does not reuse
    object identities. *)
Definition registryKept (s0 s : TerrainLayer) : Prop :=
  sceneMap s = sceneMap s0 /\ terrains s = terrains s0
  /\ (nextObject s0 <= nextObject s)%nat.


(** What [addTerrainShapeToCanvas] keeps until it stores the shape: the
    queues, the temporary graphics and the layer of the toolbar. *)
Definition untilStored (s : TerrainLayer)
    : list (list QueueObj) * gmap (Z * Z) TempObj * Z :=
  (_shapeQueueArray s, priv_temporaryGraphics s, currentLayer s).


(* ===================================================================== *)
(** ** The rest of the layer: labels, clearing, saving, temporary shapes *)
(* ===================================================================== *)

(** [#terrainAt(pt)]: the terrain on the layer selected in the toolbar.
    Before initialisation [_terrainLayersAt] answers [undefined], and
    indexing it throws. *)
Definition terrainAt (pt : Point) : M (option TerrainLevel) :=
  layers ← _terrainLayersAt pt;
  s ← get;
  let currLayer := currentLayer s in
  match layers with
  | None => throw TypeError
  | Some layers =>
      let pixelValue := Array_get layers currLayer in
      if negb (truthy_opt pixelValue) then mret None
      else
        let terrain := terrainForPixel s pixelValue in
        mret (Some (new_TerrainLevel s terrain currLayer))
  end.

(** [activeTerrainsAt(pt, elevation)] *)
Definition activeTerrainsAt (pt : Point) (elevation : option Z)
    : M (list (option Terrain)) :=
  levels ← activeTerrainLevelsAt pt elevation;
  mret (new_Set (terrain <$> levels)).

(** [Math.round(x)]: the nearest integer, a half going up. *)
Definition Math_round (x : JsNumber) : JsNumber :=
  match x with
  | NaN => NaN
  | Num q => Num (inject_Z (Qfloor (q + (1 # 2))%Q))
  end.

(** [Math.max(a, b)] and [Math.min(a, b)] *)
Definition Math_max (a b : JsNumber) : JsNumber :=
  match a, b with
  | Num x, Num y => Num (if Qle_bool x y then y else x)
  | _, _ => NaN
  end.

Definition Math_min (a b : JsNumber) : JsNumber :=
  match a, b with
  | Num x, Num y => Num (if Qle_bool x y then x else y)
  | _, _ => NaN
  end.

(** [Math.clamped(num, min, max)], which Foundry adds to [Math]:
    [Math.min(Math.max(num, min), max)]. *)
Definition Math_clamped (num min max : JsNumber) : JsNumber :=
  Math_min (Math_max num min) max.

(** [clampTerrainId(id)]; [None] is an [undefined] or [null] id. *)
Definition clampTerrainId (id : option JsNumber) : JsNumber :=
  let id := default (Num 0) id in
  Math_clamped (Math_round id) (Num 0) (Num (inject_Z MAX_TERRAIN_ID)).

(** [_clearData()]; the name labels and the preview container are
    outside the model, and so is the destruction of the removed graphics. *)
Definition _clearData : M unit :=
  modify (fun s => set_shapeQueueArray ((fun _ => []) <$> _shapeQueueArray s) s) ;;
  _clearPixelCacheArray (-1) ;;
  modify (fun s => set_graphicsLayers (removeChildren <$> _graphicsLayers s) s).

(** [clearData()] *)
Definition clearData : M unit :=
  _clearData ;;
  modify (set_requiresSave false) ;;
  renderTerrain (-1).

(** [#saveData()]: the snapshot handed to the file manager.  The entries
    of the scene map are listed in the order of the finite map, by key,
    where the code lists them in the order of insertion: the snapshot is
    the code's up to the order of these entries.  A queue is saved as the
    list of its shapes. *)
Definition saveData (s : TerrainLayer) : SceneData :=
  {| data_sceneMap :=
       (fun entry : Z * Terrain => (entry.1, terrain_id (terrainObj s entry.2)))
       <$> map_to_list (sceneMap s);
     data_shapeQueueArray :=
       (fun queue : list QueueObj => qshape <$> queue) <$> _shapeQueueArray s |}.

(** [save()]; the value is the snapshot given to
    [this._fileManager.saveData], the lock is outside the model. *)
Definition save : M SceneData :=
  cleanAllShapeQueues ;;
  gets saveData.

(** [_makeTemporaryGraphicsPermanent()].  The entry enqueued is the
    stored object [{ shape, graphics }] itself, which has no [text].  The
    entries are visited in the order of the finite map, by key, where
    [Map.forEach] visits them in the order of insertion: the shapes of
    one layer reach its queue in an order that may differ from the
    code's. *)
Definition _makeTemporaryGraphicsPermanent : M unit :=
  s ← get;
  forOf (map_to_list (priv_temporaryGraphics s)).*2 (fun obj =>
    let shape := tshape obj in
    queue_enqueue (layer shape)
      {| qshape := shape; qgraphics := tgraphics obj; qtext := None |} ;;
    _drawTerrainName shape ;;
    mret tt) ;;
  modify (set_temporaryGraphics ∅).

(* ===================================================================== *)
(** ** More observations of the state *)
(* ===================================================================== *)

(** The fields a cache read depends on. *)
Definition cacheFields (s : TerrainLayer)
    : bool * list LayerCache * option PixelCache * list Z :=
  (priv_initialized s, priv_pixelCacheArray s, priv_pixelCache s,
   priv_pixelCacheDirty s).

(** The queue entry [_makeTemporaryGraphicsPermanent] makes of a stored
    temporary object: the object itself, which has no [text]. *)
Definition tempEntry (o : TempObj) : QueueObj :=
  {| qshape := tshape o; qgraphics := tgraphics o; qtext := None |}.

(** The name of the shape of a temporary object can be drawn: its pixel
    value is 0 or [undefined], or bound in the scene map. *)
Definition nameable (s : TerrainLayer) (o : TempObj) : Prop :=
  forall v, pixelValue (tshape o) = Some v -> v <> 0 -> is_Some (sceneMap s !! v).


End Model.

Arguments Returned {_ A} a s.
Arguments Thrown {_ A} e s.

(* ===================================================================== *)
(** ** A host with a scene of one pixel *)
(* ===================================================================== *)

(** The colour of one graphics written through a colour mask into the
    pixel: channel [ch] is replaced when bit [ch] of the mask is set. *)
Definition onePixel_paint (mask : Z) (px : list Z) (col : list JsNumber) : list Z :=
  imap (fun ch old =>
          if Z.testbit mask (Z.of_nat ch)
          then default old (col !! ch ≫= channelByte)
          else old) px.

Definition onePixel_render (c : Container) (tex : list Z) (clear : bool) : list Z :=
  foldl (fun px g => onePixel_paint (colorMask c) px (color g))
        (if clear then [0; 0; 0] else tex) (children c).

Global Instance Point_eq_dec : EqDecision Point.
Proof. solve_decision. Defined.

(** A host whose scene is a single pixel covered by every shape, with no
    walls: a texture is the pixel's three channel bytes, a layer cache is a
    copy of them, and the merged cache lists the six layers. *)
Definition onePixelHost : Host := {|
  Texture := list Z;
  LayerCache := list Z;
  PixelCache := list Z;
  render := onePixel_render;
  fromTexture := fun tex => default [0; 0; 0] tex;
  updateFromTexture := fun _ tex => default [0; 0; 0] tex;
  fromTerrainLayerCaches := fun c0 c1 => default [0; 0; 0] c0 ++ default [0; 0; 0] c1;
  updateFromTerrainLayerCaches :=
    fun _ c0 c1 => default [0; 0; 0] c0 ++ default [0; 0; 0] c1;
  cache_terrainLayersAt := fun pc _ _ => pc;
  envelops := fun top bottom => bool_decide (origin top = origin bottom);
  encompassingPolygonWithHoles := fun _ => [];
  new_TerrainShapeHoled := fun polys value =>
    {| shapeType := TerrainShapeHoled; origin := mkPoint 0 0; layer := 0;
       pixelValue := value; outline := polys |};
  simplify := fun sh => [sh];
  fromEffectId := fun id =>
    {| terrain_id := id; terrain_name := id; terrain_pixelValue := None;
       terrain_anchor := ABSOLUTE; terrain_minOffset := None;
       terrain_maxOffset := None |};
  Terrain_initialize := fun o =>
    {| terrain_id := "new"; terrain_name := terrain_name o;
       terrain_pixelValue := terrain_pixelValue o;
       terrain_anchor := terrain_anchor o;
       terrain_minOffset := terrain_minOffset o;
       terrain_maxOffset := terrain_maxOffset o |};
  set_keeps_existing := true;
|}.

(** A terrain "swamp" registered under pixel value 17, active from 0 to 10
    above its anchor. *)
Definition swamp : TerrainObj :=
  {| terrain_id := "swamp"; terrain_name := "Swamp";
     terrain_pixelValue := Some 17; terrain_anchor := ABSOLUTE;
     terrain_minOffset := Some 0; terrain_maxOffset := Some 10 |}.

(** A grid square at the origin. *)
Definition square : Shape :=
  {| shapeType := TerrainGridSquare; origin := mkPoint 0 0; layer := 0;
     pixelValue := None; outline := [] |}.

(** An initialised layer of the one-pixel host: the null terrain under key
    0 and the swamp under key 17, empty queues, clean caches, layer 4
    selected in the toolbar. *)
Definition demoLayer : @TerrainLayer onePixelHost :=
  @mkTerrainLayer onePixelHost
    (* #initialized *) true
    (* _requiresSave *) true
    (* sceneMap *) {[ 0 := 0%nat; 17 := 1%nat ]}
    (* terrains *) {[ 0%nat := TerrainObj_setPixelValue nullTerrainObj (Some 0);
                      1%nat := swamp ]}
    (* nextObject *) 2
    (* #pixelCacheArray *) [[0; 0; 0]; [0; 0; 0]]
    (* #pixelCache *) (Some [0; 0; 0; 0; 0; 0])
    (* #pixelCacheDirty *) [0; 0]
    (* #temporaryGraphics *) ∅
    (* _graphicsLayers *) firstInitialize_graphicsLayers
    (* _terrainTextures *) [[0; 0; 0]; [0; 0; 0]]
    (* _shapeQueueArray *) (replicate 6 [])
    (* toolbar.currentLayer *) 4
    (* controls.currentTerrain *) None.

(** The demo layer after the swamp is painted on the current layer 4. *)
Definition paintedLayer : @TerrainLayer onePixelHost :=
  stateOf (addTerrainShapeToCanvas square 1%nat false demoLayer).


(** The demo layer after the null terrain is painted on layer 4 (the
    terrain there is erased). *)
Definition erasedLayer : @TerrainLayer onePixelHost :=
  stateOf (addTerrainShapeToCanvas square 0%nat false demoLayer).

(** The demo layer after the swamp is painted 21 times in a row on the
    same grid square of layer 4. *)
Definition crowdedLayer : @TerrainLayer onePixelHost :=
  Nat.iter 21 (fun s => stateOf (addTerrainShapeToCanvas square 1%nat false s))
           demoLayer.

(** A saved scene: a stray entry under key 0, the swamp under key 17, and
    one swamp square on layer 4. *)
Definition savedScene : SceneData :=
  {| data_sceneMap := [(0, "stray"); (17, "swamp")];
     data_shapeQueueArray :=
       [[]; []; []; [];
        [{| shapeType := TerrainGridSquare; origin := mkPoint 0 0; layer := 4;
            pixelValue := Some 17; outline := [] |}];
        []] |}.

(** The painted demo layer after a read of its cache: the cache is clean
    and holds the swamp on layer 4. *)
Definition readLayer : @TerrainLayer onePixelHost :=
  stateOf (pixelCache paintedLayer).

(** The demo layer while a swamp square is dragged over layer 4: the
    square is held as a temporary graphics. *)
Definition draggedLayer : @TerrainLayer onePixelHost :=
  stateOf (addTerrainShapeToCanvas square 1%nat true demoLayer).



(** The demo layer after the swamp replaces the terrain of pixel value 0. *)
Definition reboundLayer : @TerrainLayer onePixelHost :=
  stateOf (_replaceTerrainInScene 1%nat 0 demoLayer).

(* ===================================================================== *)
(** * Stairs regions (scripts/regions/StairsRegionBehaviorType.js) *)
(* ===================================================================== *)

(** The event handlers of [StairsRegionBehaviorType] and
    [continueTokenAnimationForBehavior].  Elevations are whole numbers of
    grid units, as [Z] (the code also takes fractional elevations, which
    are left out); the midpoint of the stairs is the exact half, which is
    what doubles give for integers up to [2^52] in size.  What the
    handlers ask of the user, of the grid and of the token is given by an
    environment. *)
Module Stairs.

(** [this.algorithm] is compared with
    [FLAGS.STAIRS_BEHAVIOR.CHOICES.ONE_WAY] only: every other choice takes
    the stairs branch. *)
Inductive Algorithm : Type := ONE_WAY | STAIRS.

(** The fields of the behaviour ([defineSchema]). *)
Record Behavior : Type := mkBehavior {
  algorithm : Algorithm;
  elevation : Z;
  floor : Z;
  strict : bool;
  dialog : bool;
  resetOnExit : bool;
}.

(** The phrase a confirmation dialog shows. *)
Inductive Phrase : Type := GoUp | GoDown | ResetOnExit.

(** A [RegionMovementWaypoint]. *)
Record Waypoint : Type := mkWaypoint { wx : Z; wy : Z; welevation : Z }.

(** [Region.MOVEMENT_SEGMENT_TYPES] *)
Inductive SegmentType : Type := EXIT | MOVE | ENTER.

#[global] Instance SegmentType_eq_dec : EqDecision SegmentType.
Proof. solve_decision. Defined.

Record Segment : Type := mkSegment {
  seg_type : SegmentType;
  seg_from : Waypoint;
  seg_to : Waypoint;
}.

(** What the handlers consume from outside: the user's answer to a
    confirmation dialog (closing it counts as no), [canvas.grid.isGridless],
    whether SHIFT is held, [token.checkCollision] for the snapped move
    towards a destination, the snapped top-left corner
    [getSnappedFromTokenCenter] of the next grid centre towards it,
    [MODULES_ACTIVE.LEVELS] and [ElevationHandler.sceneFloor]. *)
Record Env : Type := mkEnv {
  confirm : Phrase -> bool;
  isGridless : bool;
  shiftHeld : bool;
  checkCollision : Waypoint -> bool;
  snappedTopLeft : Waypoint -> Z * Z;
  levelsActive : bool;
  sceneFloor : Z;
}.

(** An argument of [tokenD.update]. *)
Inductive Update : Type :=
  | SetElevation (e : Z)
  | SetPosition (x y : Z).

(** A call [tokenD.update(update, opts)]; [teleport] is the option passed
    when Levels is active. *)
Record UpdateCall : Type := mkUpdateCall { update : Update; teleport : bool }.

(** The midpoint [floor + ((elevation - floor) * 0.5)], as an exact
    rational.  The code computes it in doubles, which is exact, every
    intermediate result being a double, when floor and elevation are
    integers of [-2^52, 2^52]; beyond, the double is a rounding of this
    rational, and what is stated about the midpoint carries that bound. *)
Definition midPoint (b : Behavior) : Q :=
  (inject_Z (floor b) + (inject_Z (elevation b) - inject_Z (floor b)) * (1 # 2))%Q.

(** The target elevation of [#onTokenMoveIn].  (The handlers return at
    once for an event of another user; what follows is what they do for
    the user who moved the token.) *)
Definition targetElevation (b : Behavior) (tokenElevation : Z) : Z :=
  match algorithm b with
  | ONE_WAY => elevation b
  | STAIRS =>
      if Qle_bool (inject_Z tokenElevation) (midPoint b)
      then elevation b else floor b
  end.

(** The elevation [#onTokenMoveIn] hands to
    [continueTokenAnimationForBehavior]: [None] is [undefined], the token
    does not take the stairs. *)
Definition onTokenMoveIn_elevation (env : Env) (b : Behavior) (tokenElevation : Z)
    : option Z :=
  let takeStairs :=
    negb (strict b) || (tokenElevation =? elevation b) || (tokenElevation =? floor b) in
  let target := targetElevation b tokenElevation in
  let takeStairs := takeStairs && negb (target =? tokenElevation) in
  let takeStairs :=
    if dialog b && takeStairs
    then confirm env (if tokenElevation <? target then GoUp else GoDown)
    else takeStairs in
  if takeStairs then Some target else None.

(** The elevation [#onTokenMoveOut] hands over. *)
Definition onTokenMoveOut_elevation (env : Env) (b : Behavior) (tokenElevation : Z)
    : option Z :=
  let groundElevation := sceneFloor env in
  let resetToGround :=
    resetOnExit b
    && negb (tokenElevation =? groundElevation)
    && (negb (strict b)
        || ((tokenElevation =? elevation b) || (tokenElevation =? floor b))) in
  let resetToGround :=
    if dialog b && resetToGround then confirm env ResetOnExit else resetToGround in
  if resetToGround then Some groundElevation else None.

(** What a move event and the class share: the static [lastDestination]
    and [event.data.destination]. *)
Record MoveState : Type := mkMoveState {
  lastDestination : option Waypoint;
  destination : Waypoint;
}.

(** The loops of [#onTokenPreMove]: stop at the first segment of the
    given type. *)
Fixpoint stopAtFirst (ty : SegmentType) (segments : list Segment) (st : MoveState)
    : MoveState :=
  match segments with
  | [] => st
  | segment :: rest =>
      if bool_decide (seg_type segment = ty)
      then {| lastDestination := Some (destination st);
              destination := seg_to segment |}
      else stopAtFirst ty rest st
  end.

(** [#onTokenPreMove(event)] *)
Definition onTokenPreMove (b : Behavior) (forced : bool) (segments : list Segment)
    (st : MoveState) : MoveState :=
  if forced then st
  else
    let st := stopAtFirst ENTER segments st in
    if resetOnExit b then stopAtFirst EXIT segments st else st.

(** [continueTokenAnimationForBehavior(behavior, tokenD, elevation)]: the
    calls of [tokenD.update] it makes, in order, and the static
    [lastDestination] it leaves. *)
Definition continueTokenAnimationForBehavior (env : Env) (last : option Waypoint)
    (elevation : option Z) : list UpdateCall * option Waypoint :=
  let cleared : option Waypoint := None in
  let main : option Update :=
    match elevation, last with
    | Some e, _ => Some (SetElevation e)
    | None, Some dest => Some (SetPosition (wx dest) (wy dest))
    | None, None => None
    end in
  match main with
  | None => ([], cleared)
  | Some upd =>
      let snap : list UpdateCall :=
        match elevation, last with
        | Some _, Some dest =>
            if negb (isGridless env) && negb (shiftHeld env)
               && negb (checkCollision env dest)
            then
              let tl := snappedTopLeft env dest in
              [{| update := SetPosition tl.1 tl.2; teleport := false |}]
            else []
        | _, _ => []
        end in
      (snap ++ [{| update := upd; teleport := levelsActive env |}], cleared)
  end.

End Stairs.

(* ===================================================================== *)
(** * Region controls (hooks [getSceneControlButtons], [renderSceneControls]) *)
(* ===================================================================== *)

(** The two hooks that add the fill tools to the region controls and that
    show the walls while the fill-by-walls tool is active. *)
Module Controls.

(** [arr.findIndex(pred)]: the index of the first match, or [-1]. *)
Fixpoint findIndex_from {A} (pred : A -> bool) (arr : list A) (i : Z) : Z :=
  match arr with
  | [] => -1
  | x :: rest => if pred x then i else findIndex_from pred rest (i + 1)
  end.

Definition findIndex {A} (pred : A -> bool) (arr : list A) : Z :=
  findIndex_from pred arr 0.

(** [arr.splice(start, 0, item)]: a negative [start] counts from the end,
    and the position is clamped to the array. *)
Definition splice {A} (arr : list A) (start : Z) (item : A) : list A :=
  let len := Z.of_nat (length arr) in
  let k := if start <? 0 then Z.max (len + start) 0 else Z.min start len in
  take (Z.to_nat k) arr ++ item :: drop (Z.to_nat k) arr.

(** A tool of a control: its name, and the rest of the object. *)
Record Tool (Rest : Type) : Type := mkTool { name : string; rest : Rest }.
Arguments mkTool {Rest} name rest.
Arguments name {Rest} t.
Arguments rest {Rest} t.

(** A control of the scene controls. *)
Record Control (Rest : Type) : Type := mkControl {
  control_name : string;
  tools : list (Tool Rest);
}.
Arguments mkControl {Rest} control_name tools.
Arguments control_name {Rest} c.
Arguments tools {Rest} c.

Section Hooks.
Context {Rest : Type}.
(** The title, icon and handlers of the four tools of [TOOLS]. *)
Variables (byGrid byLOS byWalls book : Rest).

Definition FILL_BY_GRID : Tool Rest := mkTool "fill-by-grid" byGrid.
Definition FILL_BY_LOS : Tool Rest := mkTool "fill-by-los" byLOS.
Definition FILL_BY_WALLS : Tool Rest := mkTool "fill-by-walls" byWalls.
Definition TERRAIN_BOOK : Tool Rest := mkTool "terrain-book" book.

Definition named (n : string) (t : Tool Rest) : bool := bool_decide (name t = n).

(** What [getSceneControlButtons] does to the tools of the region
    control. *)
Definition addRegionTools (isGridless isGM : bool) (tools : list (Tool Rest))
    : list (Tool Rest) :=
  let tools :=
    if negb isGridless then
      let selectIdx := findIndex (named "select") tools in
      splice tools (selectIdx + 1) FILL_BY_GRID
    else tools in
  let polyIdx := findIndex (named "polygon") tools in
  let tools := splice tools (polyIdx + 1) FILL_BY_WALLS in
  let tools := splice tools (polyIdx + 1) FILL_BY_LOS in
  if isGM then
    let trashIdx := findIndex (named "clear") tools in
    splice tools trashIdx TERRAIN_BOOK
  else tools.

(** The first control named "regions" gets its tools changed in place. *)
Fixpoint updateRegions (f : list (Tool Rest) -> list (Tool Rest))
    (controls : list (Control Rest)) : list (Control Rest) :=
  match controls with
  | [] => []
  | c :: rest =>
      if bool_decide (control_name c = "regions")
      then mkControl (control_name c) (f (tools c)) :: rest
      else c :: updateRegions f rest
  end.

(** [getSceneControlButtons(controls)]; [hasScene] is [canvas.scene]. *)
Definition getSceneControlButtons (hasScene isGridless isGM : bool)
    (controls : list (Control Rest)) : list (Control Rest) :=
  if negb hasScene then controls
  else updateRegions (addRegionTools isGridless isGM) controls.

End Hooks.

(** What happens to wall displays. *)
Inductive DisplayEvent : Type :=
  | Rendered (display : nat)     (* [new WallDisplay()] and [render()] *)
  | Destroyed (display : nat).   (* [destroy()] *)

(** The module's [wallDisplay] variable, and the displays made so far. *)
Record DisplayState : Type := mkDisplayState {
  wallDisplay : option nat;
  nextDisplay : nat;
  events : list DisplayEvent;
}.

(** [renderSceneControls(sceneControls)] *)
Definition renderSceneControls (activeControl activeTool : string)
    (st : DisplayState) : DisplayState :=
  let fillWallsEnabled :=
    bool_decide (activeControl = "regions")
    && bool_decide (activeTool = "fill-by-walls") in
  match wallDisplay st with
  | None =>
      if fillWallsEnabled
      then {| wallDisplay := Some (nextDisplay st);
              nextDisplay := S (nextDisplay st);
              events := events st ++ [Rendered (nextDisplay st)] |}
      else st
  | Some display =>
      if negb fillWallsEnabled
      then {| wallDisplay := None;
              nextDisplay := nextDisplay st;
              events := events st ++ [Destroyed display] |}
      else st
  end.

(** The displays that were rendered and not destroyed since. *)
Fixpoint shown (evs : list DisplayEvent) (acc : list nat) : list nat :=
  match evs with
  | [] => acc
  | Rendered d :: rest => shown rest (acc ++ [d])
  | Destroyed d :: rest => shown rest (filter (fun d' => d' <> d) acc)
  end.

End Controls.

(* ===================================================================== *)
(** * The wall tracker of the layer (scripts/TerrainLayer.js) *)
(* ===================================================================== *)

(** [_addWall], [_updateWall], [_removeWall] and [_clearWallTracker] with
    [#drawWallSegment] and [#drawWallRange]: the map [#wallTracker] from
    wall ids to the graphics and the text drawn for the wall, and the
    children of [_wallDataContainer].  Graphics and texts are objects,
    named by identity; what is drawn into them is kept in two stores. *)
Module Walls.

(** A wall, as far as the tracker reads it: its id, whether it is open,
    its end points, and the bounds of the wall-height flags ([None] where
    the flag is missing, which stands for an unbounded side). *)
Record Wall : Type := mkWall {
  wall_id : string;
  isOpen : bool;
  wall_A : Point;
  wall_B : Point;
  top : option Q;
  bottom : option Q;
}.

(** What [#drawWallSegment] draws: the segment, blue and half transparent
    when the wall is open and red otherwise, and its two end points. *)
Record Drawing : Type := mkDrawing {
  drawn_open : bool;
  drawn_A : Point;
  drawn_B : Point;
}.

(** The two parts of the text [`${bounds.top} / ${bounds.bottom}`]: a
    number, or "Inf" (for the top) and "-Inf" (for the bottom). *)
Inductive Bound : Type := Inf | Finite (n : Q).

Record RangeText : Type := mkRangeText { text_top : Bound; text_bottom : Bound }.

(** An entry of the tracker: [{ graphics, text }]. *)
Record Entry : Type := mkEntry { graphics : nat; text : option nat }.

Record Tracker : Type := mkTracker {
  wallTracker : gmap string Entry;
  (** the children of [_wallDataContainer] *)
  children : list nat;
  (** what is drawn in each live graphics, and written in each live text *)
  drawings : gmap nat Drawing;
  texts : gmap nat RangeText;
  nextObject : nat;
}.

Definition addChild (o : nat) (s : Tracker) : Tracker :=
  mkTracker (wallTracker s) (filter (fun c => c <> o) (children s) ++ [o])
    (drawings s) (texts s) (nextObject s).

Definition removeChild (o : nat) (s : Tracker) : Tracker :=
  mkTracker (wallTracker s) (filter (fun c => c <> o) (children s))
    (drawings s) (texts s) (nextObject s).

(** [obj.destroy()] *)
Definition destroy (o : nat) (s : Tracker) : Tracker :=
  mkTracker (wallTracker s) (children s)
    (delete o (drawings s)) (delete o (texts s)) (nextObject s).

Definition set_entry (id : string) (e : Entry) (s : Tracker) : Tracker :=
  mkTracker (<[id := e]> (wallTracker s)) (children s)
    (drawings s) (texts s) (nextObject s).

(** [#drawWallSegment(wall, graphics)]: the graphics given, or a new one,
    cleared and drawn again. *)
Definition drawWallSegment (wall : Wall) (g : option nat) (s : Tracker)
    : nat * Tracker :=
  let '(g, next) :=
    match g with
    | Some g => (g, nextObject s)
    | None => (nextObject s, S (nextObject s))
    end in
  (g, mkTracker (wallTracker s) (children s)
        (<[g := {| drawn_open := isOpen wall; drawn_A := wall_A wall;
                   drawn_B := wall_B wall |}]> (drawings s))
        (texts s) next).

(** [#drawWallRange(wall, text)]: nothing for a wall unbounded on both
    sides; otherwise the text given, or a new one, with the bounds. *)
Definition drawWallRange (wall : Wall) (t : option nat) (s : Tracker)
    : option nat * Tracker :=
  match top wall, bottom wall with
  | None, None => (None, s)
  | _, _ =>
      let '(t, next) :=
        match t with
        | Some t => (t, nextObject s)
        | None => (nextObject s, S (nextObject s))
        end in
      (Some t,
       mkTracker (wallTracker s) (children s) (drawings s)
         (<[t := {| text_top := from_option Finite Inf (top wall);
                    text_bottom := from_option Finite Inf (bottom wall) |}]>
            (texts s))
         next)
  end.

(** The body of [_addWall] for a wall that is not tracked. *)
Definition addUntracked (wall : Wall) (s : Tracker) : Tracker :=
  let '(g, s) := drawWallSegment wall None s in
  let '(t, s) := drawWallRange wall None s in
  let s := addChild g s in
  let s := match t with Some t => addChild t s | None => s end in
  set_entry (wall_id wall) {| graphics := g; text := t |} s.

(** The body of [_updateWall] for a tracked wall. *)
Definition updateTracked (wall : Wall) (obj : Entry) (s : Tracker) : Tracker :=
  let '(_, s) := drawWallSegment wall (Some (graphics obj)) s in
  let '(t, s) := drawWallRange wall (text obj) s in
  let s :=
    match text obj, t with
    | None, Some t => addChild t s
    | Some old, None => destroy old (removeChild old s)
    | _, _ => s
    end in
  set_entry (wall_id wall) {| graphics := graphics obj; text := t |} s.

(** [_addWall(wall)]: a tracked wall is handed to [_updateWall]. *)
Definition _addWall (wall : Wall) (s : Tracker) : Tracker :=
  match wallTracker s !! wall_id wall with
  | Some obj => updateTracked wall obj s
  | None => addUntracked wall s
  end.

(** [_updateWall(wall)]: an untracked wall is handed to [_addWall]. *)
Definition _updateWall (wall : Wall) (s : Tracker) : Tracker :=
  match wallTracker s !! wall_id wall with
  | None => addUntracked wall s
  | Some obj => updateTracked wall obj s
  end.

(** [_removeWall(wallId)]; a wall given in place of its id is first
    replaced by its id. *)
Definition _removeWall (wallId : string) (s : Tracker) : Tracker :=
  match wallTracker s !! wallId with
  | None => s
  | Some obj =>
      let s := destroy (graphics obj) (removeChild (graphics obj) s) in
      let s :=
        match text obj with
        | Some t => destroy t (removeChild t s)
        | None => s
        end in
      mkTracker (delete wallId (wallTracker s)) (children s)
        (drawings s) (texts s) (nextObject s)
  end.

(** [_clearWallTracker()]: every key of the map is removed in turn.  The
    code takes the keys in the order of insertion; the order does not
    change the result ([walls_removeWall_order]). *)
Definition _clearWallTracker (s : Tracker) : Tracker :=
  foldl (fun s wallId => _removeWall wallId s) s (map_to_list (wallTracker s)).*1.

(** The object [o] belongs to the entry. *)
Definition owns (e : Entry) (o : nat) : Prop :=
  o = graphics e \/ text e = Some o.

(** The container shows exactly the objects of the tracked walls, each
    once; every such object is live, belongs to one wall, and was
    allocated before the next fresh identity. *)
Record consistent (s : Tracker) : Prop := mkConsistent {
  shown_tracked :
    forall o, o ∈ children s
              <-> exists id e, wallTracker s !! id = Some e /\ owns e o;
  shown_once : NoDup (children s);
  allocated :
    forall id e o, wallTracker s !! id = Some e -> owns e o -> (o < nextObject s)%nat;
  one_owner :
    forall id1 id2 e1 e2 o,
      wallTracker s !! id1 = Some e1 -> wallTracker s !! id2 = Some e2 ->
      owns e1 o -> owns e2 o -> id1 = id2;
  two_objects :
    forall id e, wallTracker s !! id = Some e -> text e <> Some (graphics e);
}.

(** What [#drawWallSegment] and [#drawWallRange] leave for a wall. *)
Definition drawingOf (wall : Wall) : Drawing :=
  {| drawn_open := isOpen wall; drawn_A := wall_A wall; drawn_B := wall_B wall |}.

Definition rangeTextOf (wall : Wall) : RangeText :=
  {| text_top := from_option Finite Inf (top wall);
     text_bottom := from_option Finite Inf (bottom wall) |}.

(** The wall has a bound on one side at least. *)
Definition bounded (wall : Wall) : bool :=
  match top wall, bottom wall with
  | None, None => false
  | _, _ => true
  end.

(** The wall is tracked with the entry [e], whose graphics hold the
    drawing of the wall, and whose text, present for a bounded wall only,
    holds its bounds. *)
Definition drawnAs (wall : Wall) (e : Entry) (s : Tracker) : Prop :=
  wallTracker s !! wall_id wall = Some e
  /\ drawings s !! graphics e = Some (drawingOf wall)
  /\ if bounded wall
     then exists t, text e = Some t /\ texts s !! t = Some (rangeTextOf wall)
     else text e = None.

(** The layer as constructed: no wall tracked, nothing shown. *)
Definition empty : Tracker := mkTracker ∅ [] ∅ ∅ 0.

(** A call of one of the four methods. *)
Inductive Call : Type :=
  | AddWall (wall : Wall)
  | UpdateWall (wall : Wall)
  | RemoveWall (wallId : string)
  | ClearWallTracker.

Definition call (s : Tracker) (c : Call) : Tracker :=
  match c with
  | AddWall wall => _addWall wall s
  | UpdateWall wall => _updateWall wall s
  | RemoveWall wallId => _removeWall wallId s
  | ClearWallTracker => _clearWallTracker s
  end.

End Walls.

(* ===================================================================== *)
(** * Concrete stairs and region tools *)
(* ===================================================================== *)

(** A square grid, a user who confirms every dialog, no collision, and a
    scene whose floor is at elevation 0. *)
Definition demoEnv : Stairs.Env :=
  {| Stairs.confirm := fun _ => true;
     Stairs.isGridless := false;
     Stairs.shiftHeld := false;
     Stairs.checkCollision := fun _ => false;
     Stairs.snappedTopLeft := fun w => (Stairs.wx w, Stairs.wy w);
     Stairs.levelsActive := false;
     Stairs.sceneFloor := 0 |}.

(** Stairs from the ground up to elevation 10, with a dialog. *)
Definition stairsUp : Stairs.Behavior :=
  {| Stairs.algorithm := Stairs.STAIRS; Stairs.elevation := 10; Stairs.floor := 0;
     Stairs.strict := false; Stairs.dialog := true; Stairs.resetOnExit := false |}.

(** Strict stairs from floor 10 down to elevation 0. *)
Definition stairsDown : Stairs.Behavior :=
  {| Stairs.algorithm := Stairs.STAIRS; Stairs.elevation := 0; Stairs.floor := 10;
     Stairs.strict := true; Stairs.dialog := false; Stairs.resetOnExit := false |}.

(** A one-way lift from the ground to elevation 10 that resets on exit. *)
Definition oneWay : Stairs.Behavior :=
  {| Stairs.algorithm := Stairs.ONE_WAY; Stairs.elevation := 10; Stairs.floor := 0;
     Stairs.strict := true; Stairs.dialog := false; Stairs.resetOnExit := true |}.

(** A move that crosses the region: in at (100, 0), out at (200, 0). *)
Definition crossing : list Stairs.Segment :=
  [ {| Stairs.seg_type := Stairs.ENTER;
       Stairs.seg_from := Stairs.mkWaypoint 0 0 0;
       Stairs.seg_to := Stairs.mkWaypoint 100 0 0 |};
    {| Stairs.seg_type := Stairs.MOVE;
       Stairs.seg_from := Stairs.mkWaypoint 100 0 0;
       Stairs.seg_to := Stairs.mkWaypoint 200 0 0 |};
    {| Stairs.seg_type := Stairs.EXIT;
       Stairs.seg_from := Stairs.mkWaypoint 200 0 0;
       Stairs.seg_to := Stairs.mkWaypoint 300 0 0 |} ].

(** The tools of a region control, by name. *)
Definition toolNamed (n : string) : Controls.Tool unit := Controls.mkTool n tt.

Definition tokenControl : Controls.Control unit :=
  Controls.mkControl "token" [toolNamed "select"; toolNamed "target"].

Definition lightingControl : Controls.Control unit :=
  Controls.mkControl "lighting" [toolNamed "light"; toolNamed "clear"].
Section Properties.
Context `{Host}.

(* ===================================================================== *)
(** ** Reasoning about computations *)
(* ===================================================================== *)

Ltac munfold :=
  unfold mbind, M_bind, mret, M_ret, get, gets, modify, throw, when in *.

Lemma wp_ret {A} (a : A) (Q : A -> TerrainLayer -> Prop) s :
  Q a s -> wp (mret a) Q s.
Proof. done. Qed.

Lemma wp_bind {A B} (m : M A) (k : A -> M B) (Q : B -> TerrainLayer -> Prop) s :
  wp m (fun a s' => wp (k a) Q s') s -> wp (m ≫= k) Q s.
Proof. unfold wp; munfold. by destruct (m s). Qed.

Lemma wp_mono {A} (m : M A) (Q Q' : A -> TerrainLayer -> Prop) s :
  wp m Q s -> (forall a s', Q a s' -> Q' a s') -> wp m Q' s.
Proof. unfold wp. destruct (m s); auto. Qed.

Lemma wp_returned {A} (m : M A) (Q : A -> TerrainLayer -> Prop) s :
  wp m Q s -> exists a s', m s = Returned a s' /\ Q a s'.
Proof. unfold wp. destruct (m s); [eauto | done]. Qed.

Lemma returned_wp {A} (m : M A) (Q : A -> TerrainLayer -> Prop) s a s' :
  m s = Returned a s' -> Q a s' -> wp m Q s.
Proof. unfold wp. by intros ->. Qed.

(** A loop establishes what each of its iterations maintains. *)
Lemma wp_forOf {A} (xs : list A) (body : A -> M unit) (I : TerrainLayer -> Prop) s :
  I s ->
  (forall x s0, x ∈ xs -> I s0 -> wp (body x) (fun _ s1 => I s1) s0) ->
  wp (forOf xs body) (fun _ s1 => I s1) s.
Proof.
  revert s. induction xs as [|x xs IH]; intros s HI Hbody; simpl.
  - by apply wp_ret.
  - apply wp_bind. eapply wp_mono.
    + apply Hbody; [left | done].
    + intros [] s1 HI1. apply IH; [done |].
      intros y s0 Hy. apply Hbody. by right.
Qed.

Lemma preserves_ret {A} P (a : A) : preserves P (mret a).
Proof. by intros s. Qed.

Lemma preserves_bind {A B} P (m : M A) (k : A -> M B) :
  preserves P m -> (forall a, preserves P (k a)) -> preserves P (m ≫= k).
Proof.
  intros Hm Hk s HP. specialize (Hm s HP). munfold.
  destruct (m s) as [a s'|e s']; simpl in *; [by apply Hk | done].
Qed.

Lemma preserves_gets {A} P (f : TerrainLayer -> A) : preserves P (gets f).
Proof. by intros s. Qed.

Lemma preserves_throw {A} P e : preserves P (@throw _ A e).
Proof. by intros s. Qed.

Lemma preserves_modify P f :
  (forall s, P s -> P (f s)) -> preserves P (modify f).
Proof. intros Hf s HP. by apply Hf. Qed.

Lemma preserves_when P (c : bool) (m : M unit) :
  preserves P m -> preserves P (when c m).
Proof. intros Hm. destruct c; [done | apply preserves_ret]. Qed.

Lemma preserves_forOf {A} P (xs : list A) (body : A -> M unit) :
  (forall x, x ∈ xs -> preserves P (body x)) -> preserves P (forOf xs body).
Proof.
  induction xs as [|x xs IH]; intros Hbody; simpl.
  - apply preserves_ret.
  - apply preserves_bind.
    + apply Hbody. by left.
    + intros _. apply IH. intros y Hy. apply Hbody. by right.
Qed.

(** Split a bind, in a goal [preserves P (m ≫= k)] or in a goal
    [P (stateOf ((m ≫= k) s))] with [P s] among the hypotheses. *)
Ltac pbind :=
  first
    [ refine (preserves_bind _ _ _ _ _); [ | intros ? ]
    | refine (preserves_bind _ _ _ _ _ _ _); [ | intros ? | eassumption ] ].

(** A state read with [get] may be used to choose how to go on. *)
Lemma preserves_get_bind {A} P (k : TerrainLayer -> M A) :
  (forall s, P s -> P (stateOf (k s s))) -> preserves P (get ≫= k).
Proof. intros Hk s HP. munfold. by apply Hk. Qed.

Lemma truthy_false (z : Z) : truthy z = false -> z = 0.
Proof. unfold truthy. intros Hz. apply negb_false_iff in Hz. lia. Qed.

Lemma truthy_true (z : Z) : truthy z = true <-> z <> 0.
Proof. unfold truthy. rewrite negb_true_iff. lia. Qed.

(* ===================================================================== *)
(** ** Dirty bits and the pixel cache *)
(* ===================================================================== *)

(** What [_clearPixelCacheArray] does to the dirty bits: with the default
    [-1] the write goes to index [-1] and is lost; with a layer number
    every bit is set. *)
Lemma clearPixelCacheArray_dirty (s : TerrainLayer) (l : Z) :
  _clearPixelCacheArray l s
  = Returned tt
      (set_pixelCacheDirty
         (if l =? -1 then priv_pixelCacheDirty s
          else Uint8Array_fill (priv_pixelCacheDirty s) 1) s).
Proof.
  unfold _clearPixelCacheArray, modify, bitnot, truthy.
  destruct (l =? -1) eqn:Hl.
  - apply Z.eqb_eq in Hl. subst l. reflexivity.
  - apply Z.eqb_neq in Hl.
    replace (Z.lnot l =? 0) with false; [done |].
    symmetry. apply Z.eqb_neq. unfold Z.lnot. lia.
Qed.

(** [renderTerrain] changes the textures and the dirty bits, nothing else,
    and always returns. *)
Lemma renderCall_frame (call : Z * Z * bool) (s : TerrainLayer) :
  exists tex, renderCall call s = Returned tt (set_terrainTextures tex s)
              /\ length tex = length (_terrainTextures s).
Proof.
  destruct call as [[i texIdx] clear]. unfold renderCall. munfold.
  destruct (Array_get (_graphicsLayers s) i) as [c|];
    [destruct (Array_get (_terrainTextures s) texIdx) as [t|] |].
  - eexists. split; [reflexivity |]. by rewrite length_insert.
  - exists (_terrainTextures s). by destruct s.
  - exists (_terrainTextures s). by destruct s.
Qed.

Lemma renderCalls_frame (calls : list (Z * Z * bool)) (s : TerrainLayer) :
  exists tex, forOf calls renderCall s = Returned tt (set_terrainTextures tex s)
              /\ length tex = length (_terrainTextures s).
Proof.
  revert s. induction calls as [|call calls IH]; intros s; simpl.
  - exists (_terrainTextures s). by destruct s.
  - destruct (renderCall_frame call s) as (tex1 & E1 & L1).
    destruct (IH (set_terrainTextures tex1 s)) as (tex2 & E2 & L2).
    exists tex2. munfold. rewrite E1, E2. split; [done |].
    simpl in L2. congruence.
Qed.

Lemma renderTerrain_frame (l : Z) (s : TerrainLayer) :
  exists tex,
    renderTerrain l s
    = Returned tt
        (set_pixelCacheDirty
           (if l =? -1 then priv_pixelCacheDirty s
            else Uint8Array_fill (priv_pixelCacheDirty s) 1)
           (set_terrainTextures tex s))
    /\ length tex = length (_terrainTextures s).
Proof.
  unfold renderTerrain. munfold.
  destruct (renderCalls_frame
              (renderPlan l (floor_div3 l)
                 (seqZ 0 (Z.of_nat (length (_graphicsLayers s)))) true) s)
    as (tex & E & L).
  exists tex. rewrite E, clearPixelCacheArray_dirty. done.
Qed.

(** The read of the merged cache, step by step on a layer whose caches
    exist. *)
Lemma pixelCache_read
    (s : TerrainLayer) (c0 c1 : LayerCache) (pc : PixelCache) (d0 d1 : Z) :
  priv_pixelCacheArray s = [c0; c1] ->
  priv_pixelCache s = Some pc ->
  priv_pixelCacheDirty s = [d0; d1] ->
  let c0' := if truthy d0
             then updateFromTexture c0 (_terrainTextures s !! 0%nat) else c0 in
  let c1' := if truthy d1
             then updateFromTexture c1 (_terrainTextures s !! 1%nat) else c1 in
  let pc' := if truthy d0 || truthy d1
             then updateFromTerrainLayerCaches pc (Some c0') (Some c1') else pc in
  exists s',
    pixelCache s = Returned (Some pc') s'
    /\ priv_pixelCacheArray s' = [c0'; c1']
    /\ priv_pixelCache s' = Some pc'
    /\ priv_pixelCacheDirty s' = [0; 0]
    /\ sameOutsideCache s s'.
Proof.
  intros Harr Hpc Hdirty c0' c1' pc'.
  destruct s; simpl in *; subst.
  unfold pixelCache, pixelCacheDirty, js_or,
    refreshPixelCache, refreshPixelCacheArray, sameOutsideCache.
  munfold. subst c0' c1' pc'. simpl.
  destruct (truthy d0) eqn:E0; destruct (truthy d1) eqn:E1;
    repeat (first [rewrite E0 | rewrite E1 | progress simpl]);
    try (apply truthy_false in E0; subst d0);
    try (apply truthy_false in E1; subst d1);
    eexists; (split; [reflexivity |]); simpl;
    repeat split; reflexivity.
Qed.

Lemma Uint8Array_set_head (d : Z) (l : list Z) (v : Z) :
  Uint8Array_set (d :: l) 0 v = v :: l.
Proof.
  unfold Uint8Array_set.
  replace (0 <? Z.of_nat (length (d :: l))) with true; [done |].
  symmetry. apply Z.ltb_lt. simpl length. lia.
Qed.

Lemma Uint8Array_set_second (d0 d1 : Z) (l : list Z) (v : Z) :
  Uint8Array_set (d0 :: d1 :: l) 1 v = d0 :: v :: l.
Proof.
  unfold Uint8Array_set.
  replace (1 <? Z.of_nat (length (d0 :: d1 :: l))) with true; [done |].
  symmetry. apply Z.ltb_lt. simpl length. lia.
Qed.

(** Whatever the state, a read that returns leaves no dirty bit set. *)
Lemma pixelCache_never_stale (s s' : TerrainLayer) (r : option PixelCache) :
  pixelCache s = Returned r s' -> truthy_opt (pixelCacheDirty s') = false.
Proof.
  destruct s as [ini sav sm ts nx arr pc dirty tg gl tt sq cl ct].
  unfold pixelCache, pixelCacheDirty, js_or,
    refreshPixelCache, refreshPixelCacheArray.
  munfold. simpl.
  destruct dirty as [|d0 [|d1 dirty]]; simpl;
    try (destruct (truthy d0) eqn:E0); simpl;
    try (destruct (truthy d1) eqn:E1); simpl;
    repeat (first [rewrite E0 | rewrite E1 | progress simpl]);
    destruct arr as [|c0 [|c1 arr]]; simpl;
    repeat (first [rewrite E0 | rewrite E1 | progress simpl]);
    destruct pc; simpl;
    repeat (first [rewrite E0 | rewrite E1 | progress simpl]);
    try discriminate;
    intros [= <- <-]; simpl;
    change (Z.of_nat 0) with 0; change (Z.of_nat 1) with 1;
    rewrite ?Uint8Array_set_head, ?Uint8Array_set_second;
    repeat (first [rewrite E0 | rewrite E1 | progress simpl]);
    reflexivity.
Qed.

(** C2.  A read of the merged pixel cache first rebuilds, from its
    texture, every buffer whose dirty bit is set, clears those bits and
    recomputes the merged cache from the two buffers; it then returns the
    merged cache, with no dirty bit left set.  Nothing outside the cache is
    touched, and [_terrainLayersAt] answers from the cache so rebuilt. *)
Theorem pixelCache_read_rebuilds_dirty_buffers
    (s : TerrainLayer) (c0 c1 : LayerCache) (pc : PixelCache) (d0 d1 : Z) :
  priv_pixelCacheArray s = [c0; c1] ->
  priv_pixelCache s = Some pc ->
  priv_pixelCacheDirty s = [d0; d1] ->
  let c0' := if truthy d0
             then updateFromTexture c0 (_terrainTextures s !! 0%nat) else c0 in
  let c1' := if truthy d1
             then updateFromTexture c1 (_terrainTextures s !! 1%nat) else c1 in
  let pc' := if truthy d0 || truthy d1
             then updateFromTerrainLayerCaches pc (Some c0') (Some c1') else pc in
  exists s',
    pixelCache s = Returned (Some pc') s'
    /\ priv_pixelCacheArray s' = [c0'; c1']
    /\ priv_pixelCache s' = Some pc'
    /\ priv_pixelCacheDirty s' = [0; 0]
    /\ truthy_opt (pixelCacheDirty s') = false
    /\ sameOutsideCache s s'
    /\ (forall pt, priv_initialized s = true ->
          _terrainLayersAt pt s
          = Returned (Some (cache_terrainLayersAt pc' (pt_x pt) (pt_y pt))) s').
Proof.
  intros Harr Hpc Hdirty c0' c1' pc'.
  destruct (pixelCache_read s c0 c1 pc d0 d1 Harr Hpc Hdirty)
    as (s' & Hread & Harr' & Hpc' & Hdirty' & Hframe).
  exists s'. split_and!; try done.
  - unfold pixelCacheDirty. by rewrite Hdirty'.
  - intros pt Hinit. unfold _terrainLayersAt. munfold.
    rewrite Hinit. simpl. fold pc' c0' c1' in Hread. by rewrite Hread.
Qed.

(* ===================================================================== *)
(** ** Encoding a layer into a colour channel *)
(* ===================================================================== *)

Arguments div255 : simpl never.
Arguments channelByte : simpl never.

(** Dividing a pixel value by 255 and storing the component as a byte
    gives the pixel value back. *)
Lemma channelByte_div255 (v : Z) : channelByte (div255 (Some v)) = Some v.
Proof.
  unfold channelByte, div255. f_equal.
  assert (E : (inject_Z v / 255 * 255 + (1 # 2) == (2 * v + 1) # 2)%Q).
  { unfold Qeq, Qdiv, Qmult, Qplus, Qinv, inject_Z. simpl. lia. }
  rewrite (Qfloor_comp _ _ E). unfold Qfloor.
  symmetry. apply (Z.div_unique_pos _ 2 v 1); lia.
Qed.

(** Every render call of a plan sends layer container [i] to texture
    [floor(i / 3)]. *)
Lemma renderPlan_texture (l texToRender : Z) (indices : list Z) (clear : bool)
    (i texIdx : Z) (c : bool) :
  (i, texIdx, c) ∈ renderPlan l texToRender indices clear ->
  texIdx = i / 3 /\ i ∈ indices.
Proof.
  revert clear. induction indices as [|j rest IH]; intros clear; simpl.
  - intros Hin. by apply elem_of_nil in Hin.
  - destruct (truthy (bitnot l) && negb (floor_div3 j =? texToRender)).
    + intros Hin. destruct (IH _ Hin) as [-> Hi]. split; [done | by right].
    + intros Hin. apply elem_of_cons in Hin as [Heq | Hin].
      * injection Heq as -> -> ->. split; [done | by left].
      * destruct (IH _ Hin) as [-> Hi]. split; [done | by right].
Qed.

(** The low five bits hold a pixel value of [0,31]; the upper three bits
    of its byte are zero. *)
Lemma pixelValue_low_bits (v : Z) :
  0 <= v <= 31 -> Z.land v 31 = v /\ Z.shiftr v 5 = 0 /\ 0 <= v < 2 ^ 8.
Proof.
  intros Hv. split_and!; try lia.
  - change 31 with (Z.ones 5). rewrite Z.land_ones by lia.
    apply Z.mod_small. lia.
  - rewrite Z.shiftr_div_pow2 by lia. apply Z.div_small. lia.
Qed.

(** A layer of [0,5] is rendered, by [renderTerrain(L)] and by
    [renderTerrain()], into texture [floor(L / 3)]. *)
Lemma renderPlan_contains (L l : Z) :
  0 <= L <= 5 -> l = L \/ l = -1 ->
  exists clear,
    (L, L / 3, clear) ∈ renderPlan l (floor_div3 l) (seqZ 0 MAX_LAYERS) true.
Proof.
  intros HL Hl.
  assert (Hcases : L = 0 \/ L = 1 \/ L = 2 \/ L = 3 \/ L = 4 \/ L = 5) by lia.
  destruct Hcases as [-> | [-> | [-> | [-> | [-> | ->]]]]];
    destruct Hl as [-> | ->];
    first [ exists true; apply (bool_decide_unpack _); vm_compute; exact I
          | exists false; apply (bool_decide_unpack _); vm_compute; exact I ].
Qed.

(** The colour of a shape on layer [L] of [0,5]: component [L mod 3] is
    the pixel value over 255, the others are 0. *)
Lemma terrainShapeColor_layer (L : Z) (value : option Z) :
  0 <= L <= 5 ->
  terrainShapeColor L value
  = <[Z.to_nat (L mod 3) := div255 value]> [Num 0; Num 0; Num 0].
Proof.
  intros HL.
  assert (Hcases : L = 0 \/ L = 1 \/ L = 2 \/ L = 3 \/ L = 4 \/ L = 5) by lia.
  destruct Hcases as [-> | [-> | [-> | [-> | [-> | ->]]]]]; reflexivity.
Qed.

Lemma Array_get_nat {A} (arr : list A) (i : Z) :
  0 <= i -> Array_get arr i = arr !! Z.to_nat i.
Proof. intros Hi. unfold Array_get. by rewrite (proj2 (Z.leb_le 0 _) Hi). Qed.

Lemma layer_addChild_returns (l : Z) (g : Graphics) (s : TerrainLayer) (c : Container) :
  0 <= l ->
  _graphicsLayers s !! Z.to_nat l = Some c ->
  layer_addChild l g s
  = Returned tt
      (set_graphicsLayers (<[Z.to_nat l := addChild c g]> (_graphicsLayers s)) s).
Proof.
  intros Hl Hc. unfold layer_addChild. munfold.
  by rewrite Array_get_nat, Hc.
Qed.

Lemma addChild_twice (c : Container) (g : Graphics) :
  addChild (addChild c g) g = addChild c g.
Proof.
  unfold addChild. simpl. f_equal.
  rewrite filter_app, filter_cons_False, filter_nil by (simpl; tauto).
  rewrite app_nil_r. f_equal.
  rewrite list_filter_filter. apply list_filter_iff. tauto.
Qed.

(** [_drawTerrainShape] on an existing layer container returns a graphics
    of the computed colour and adds it to that container only. *)
Lemma drawTerrainShape_returns
    (s : TerrainLayer) (shape : Shape) (t : Terrain) (c : Container) :
  0 <= layer shape ->
  _graphicsLayers s !! Z.to_nat (layer shape) = Some c ->
  exists g s',
    _drawTerrainShape shape (Some t) s = Returned g s'
    /\ g = {| gid := nextObject s;
              paint := if isGridShape shape then Tint else Fill;
              color := terrainShapeColor (layer shape)
                         (terrain_pixelValue (terrainObj s t));
              drawn := shape |}
    /\ s' = set_graphicsLayers
              (<[Z.to_nat (layer shape) := addChild c g]> (_graphicsLayers s))
              (set_nextObject (S (nextObject s)) s).
Proof.
  intros Hl Hc.
  unfold _drawTerrainShape, new_Graphics. munfold.
  destruct (isGridShape shape); simpl.
  - erewrite layer_addChild_returns by done.
    eexists _, _. split_and!; reflexivity.
  - rewrite Array_get_nat, Hc by done.
    erewrite layer_addChild_returns by done.
    erewrite layer_addChild_returns;
      [| done | simpl; apply list_lookup_insert_eq; by eapply lookup_lt_Some].
    eexists _, _. split_and!; [reflexivity | reflexivity |].
    simpl. by rewrite list_insert_insert_eq, addChild_twice.
Qed.

(** [renderTerrain(l)] for one of the six layers, with two textures: the
    texture of the layer is cleared and redrawn from its three layer
    containers, in order; the other one is left as it is; both dirty bits
    are set. *)
Lemma renderTerrain_six_layers (s : TerrainLayer) (l : Z)
    (c0 c1 c2 c3 c4 c5 : Container) (t0 t1 : Texture) :
  0 <= l <= 5 ->
  _graphicsLayers s = [c0; c1; c2; c3; c4; c5] ->
  _terrainTextures s = [t0; t1] ->
  renderTerrain l s
  = Returned tt
      (set_pixelCacheDirty (Uint8Array_fill (priv_pixelCacheDirty s) 1)
         (set_terrainTextures
            (if l <=? 2
             then [render c2 (render c1 (render c0 t0 true) false) false; t1]
             else [t0; render c5 (render c4 (render c3 t1 true) false) false])
            s)).
Proof.
  intros Hl Hg Ht.
  assert (Hcases : l = 0 \/ l = 1 \/ l = 2 \/ l = 3 \/ l = 4 \/ l = 5) by lia.
  destruct s; simpl in *; subst.
  destruct Hcases as [-> | [-> | [-> | [-> | [-> | ->]]]]]; reflexivity.
Qed.

(** [renderTerrain()] for all layers, with six layers and two textures. *)
Lemma renderTerrain_all_six_layers (s : TerrainLayer)
    (c0 c1 c2 c3 c4 c5 : Container) (t0 t1 : Texture) :
  _graphicsLayers s = [c0; c1; c2; c3; c4; c5] ->
  _terrainTextures s = [t0; t1] ->
  renderTerrain (-1) s
  = Returned tt
      (set_pixelCacheDirty (priv_pixelCacheDirty s)
         (set_terrainTextures
            [render c2 (render c1 (render c0 t0 true) false) false;
             render c5 (render c4 (render c3 t1 false) false) false] s)).
Proof.
  intros Hg Ht. destruct s; simpl in *; subst. reflexivity.
Qed.

(** C3.  A shape drawn on layer [L] of [0,5] for a terrain of pixel value
    [v] of [0,31] gets a colour of three components (red, green, blue; no
    alpha component) whose component [L mod 3] is stored as the byte [v],
    the two others being 0; its graphics goes into the container of layer
    [L] and no other container changes.  That container is masked to
    colour [L mod 3] and alpha, and both [renderTerrain(L)] and
    [renderTerrain()] render it into texture [floor(L/3)]: 0 for layers
    0-2, 1 for layers 3-5.  [v] fits the low five bits of the byte.
    With the two textures of the layer, [renderTerrain(L)] after the
    drawing returns with texture [floor(L/3)] cleared and rendered anew
    from the three containers of its layers, in order, the container of
    [L] with the new graphics among them, and with the other texture as
    it was; [renderTerrain()] renders the containers of layers 0-2 into
    texture 0 and those of layers 3-5 into texture 1. *)
Theorem drawTerrainShape_encodes_layer_in_channel
    (s : TerrainLayer) (shape : Shape) (t : Terrain) (L v : Z) :
  layer shape = L ->
  0 <= L <= 5 ->
  0 <= v <= 31 ->
  terrain_pixelValue (terrainObj s t) = Some v ->
  length (_graphicsLayers s) = 6%nat ->
  let ch := Z.to_nat (L mod 3) in
  exists g s',
    _drawTerrainShape shape (Some t) s = Returned g s'
    /\ (ch < 3)%nat
    /\ length (color g) = 3%nat
    /\ color g !! ch ≫= channelByte = Some v
    /\ (forall j, j <> ch -> (j < 3)%nat -> color g !! j = Some (Num 0))
    /\ (exists c, _graphicsLayers s' !! Z.to_nat L = Some c /\ g ∈ children c)
    /\ (forall i, i <> Z.to_nat L -> _graphicsLayers s' !! i = _graphicsLayers s !! i)
    /\ (colorMask <$> firstInitialize_graphicsLayers !! Z.to_nat L)
       = Some (Z.lor (2 ^ (L mod 3)) COLOR_MASK_BITS_ALPHA)
    /\ (forall l, l = L \/ l = -1 ->
          exists clear, (L, L / 3, clear) ∈ renderPlan l (floor_div3 l) (seqZ 0 MAX_LAYERS) true)
    /\ (forall l indices clear0 i texIdx clear,
          (i, texIdx, clear) ∈ renderPlan l (floor_div3 l) indices clear0 ->
          texIdx = i / 3)
    /\ L / 3 = (if L <=? 2 then 0 else 1)
    /\ Z.land v 31 = v /\ Z.shiftr v 5 = 0 /\ 0 <= v < 2 ^ 8
    /\ (forall t0 t1,
          _terrainTextures s = [t0; t1] ->
          exists c0 c1 c2 c3 c4 c5,
            _graphicsLayers s' = [c0; c1; c2; c3; c4; c5]
            /\ (exists c, [c0; c1; c2; c3; c4; c5] !! Z.to_nat L = Some c
                          /\ g ∈ children c)
            /\ renderTerrain L s'
               = Returned tt
                   (set_pixelCacheDirty (Uint8Array_fill (priv_pixelCacheDirty s') 1)
                      (set_terrainTextures
                         (if L <=? 2
                          then [render c2 (render c1 (render c0 t0 true) false) false;
                                t1]
                          else [t0;
                                render c5 (render c4 (render c3 t1 true) false) false])
                         s'))
            /\ renderTerrain (-1) s'
               = Returned tt
                   (set_pixelCacheDirty (priv_pixelCacheDirty s')
                      (set_terrainTextures
                         [render c2 (render c1 (render c0 t0 true) false) false;
                          render c5 (render c4 (render c3 t1 false) false) false]
                         s'))).
Proof.
  intros HL Hrange Hv Hpv Hlen ch.
  destruct (pixelValue_low_bits v Hv) as (Hland & Hshift & Hbyte).
  assert (Hch : (ch < 3)%nat).
  { subst ch. apply Nat2Z.inj_lt. rewrite Z2Nat.id by (apply Z.mod_pos_bound; lia).
    apply Z.mod_pos_bound. lia. }
  assert (HLn : (Z.to_nat L < 6)%nat) by lia.
  destruct (lookup_lt_is_Some_2 (_graphicsLayers s) (Z.to_nat L)) as [c Hc];
    [lia |].
  destruct (drawTerrainShape_returns s shape t c) as (g & s' & Hdraw & Hg & Hs');
    [lia | by rewrite HL |].
  rewrite HL, Hpv, terrainShapeColor_layer in Hg by done. fold ch in Hg.
  exists g, s'. split; [exact Hdraw |]. rewrite HL in Hs'.
  split_and!; try done.
  - subst g. simpl. by rewrite length_insert.
  - subst g. simpl. rewrite list_lookup_insert_eq by (simpl; lia).
    simpl. apply channelByte_div255.
  - intros j Hj Hj3. subst g. simpl.
    rewrite list_lookup_insert_ne by done.
    destruct j as [|[|[|j]]]; simpl; (reflexivity || lia).
  - exists (addChild c g). subst s'. simpl.
    rewrite list_lookup_insert_eq by lia. split; [done |].
    unfold addChild. simpl. rewrite elem_of_app. right.
    by apply list_elem_of_singleton.
  - intros i Hi. subst s'. simpl. by rewrite list_lookup_insert_ne.
  - assert (Hcases : L = 0 \/ L = 1 \/ L = 2 \/ L = 3 \/ L = 4 \/ L = 5) by lia.
    destruct Hcases as [-> | [-> | [-> | [-> | [-> | ->]]]]]; reflexivity.
  - intros l Hl. by apply renderPlan_contains.
  - intros l indices clear0 i texIdx clear Hin.
    apply (renderPlan_texture _ _ _ _ _ _ _ Hin).
  - assert (Hcases : L = 0 \/ L = 1 \/ L = 2 \/ L = 3 \/ L = 4 \/ L = 5) by lia.
    destruct Hcases as [-> | [-> | [-> | [-> | [-> | ->]]]]]; reflexivity.
  - lia.
  - lia.
  - intros t0 t1 Htex.
    assert (Hlen' : length (_graphicsLayers s') = 6%nat).
    { subst s'. simpl. by rewrite length_insert. }
    assert (Htex' : _terrainTextures s' = [t0; t1]) by (by subst s').
    destruct (_graphicsLayers s') as [|c0 [|c1 [|c2 [|c3 [|c4 [|c5 [|c6 cs]]]]]]] eqn:Hlayers;
      try discriminate Hlen'.
    exists c0, c1, c2, c3, c4, c5. split_and!; [done | | |].
    + exists (addChild c g). split.
      * rewrite <- Hlayers. subst s'. simpl. rewrite list_lookup_insert_eq by lia. done.
      * unfold addChild. simpl. rewrite elem_of_app. right.
        by apply list_elem_of_singleton.
    + by apply renderTerrain_six_layers.
    + by apply renderTerrain_all_six_layers.
Qed.

(* ===================================================================== *)
(** ** Compaction of the shape queues *)
(* ===================================================================== *)

Lemma stateOf_bind {A B} (m : M A) (k : A -> M B) (s : TerrainLayer) :
  stateOf ((m ≫= k) s)
  = match m s with
    | Returned a s1 => stateOf (k a s1)
    | Thrown _ s1 => s1
    end.
Proof. munfold. by destruct (m s). Qed.

(** The scan keeps the entries after the scanned prefix as they are, and
    of the prefix a subsequence. *)
Lemma cleanPrefix_kept (n : nat) (q : list QueueObj) :
  exists older,
    (ShapeQueue_cleanPrefix n q).1 = older ++ drop n q
    /\ sublist older (take n q).
Proof.
  revert q. induction n as [|n IH]; intros q.
  - exists []. destruct q; simpl; split; (done || constructor).
  - destruct q as [|e rest]; simpl.
    + exists []. split; [done | constructor].
    + destruct (IH rest) as (older & Hk & Hsub).
      destruct (ShapeQueue_cleanPrefix n rest) as [kept removed]. simpl in Hk.
      destruct (superseded e rest); simpl.
      * exists older. split; [done | by apply sublist_cons].
      * exists (e :: older). split; [by rewrite Hk | by apply sublist_skip].
Qed.

(** An entry that the scan does not keep lies in the scanned prefix and is
    covered by an entry after it. *)
Lemma cleanPrefix_removed (n : nat) (q : list QueueObj) (e : QueueObj) :
  e ∈ q -> e ∉ (ShapeQueue_cleanPrefix n q).1 ->
  exists q1 q2,
    q = q1 ++ e :: q2
    /\ (length q - n <= length q2)%nat
    /\ superseded e q2 = true.
Proof.
  revert q. induction n as [|n IH]; intros q Hin Hout.
  - destruct q; simpl in Hout; done.
  - destruct q as [|e0 rest]; simpl in Hout; [done |].
    specialize (IH rest).
    destruct (ShapeQueue_cleanPrefix n rest) as [kept removed]. simpl in IH.
    destruct (superseded e0 rest) eqn:Hsup; simpl in Hout.
    + apply elem_of_cons in Hin as [-> | Hin].
      * exists [], rest. simpl. split_and!; [done | lia | done].
      * destruct (IH Hin Hout) as (q1 & q2 & -> & Hlen & Hs).
        exists (e0 :: q1), q2. simpl. split_and!; [done | | done].
        rewrite length_app in *. simpl in *. lia.
    + apply not_elem_of_cons in Hout as [Hne Hout].
      apply elem_of_cons in Hin as [-> | Hin]; [done |].
      destruct (IH Hin Hout) as (q1 & q2 & -> & Hlen & Hs).
      exists (e0 :: q1), q2. simpl. split_and!; [done | | done].
      rewrite length_app in *. simpl in *. lia.
Qed.

Lemma compacted_refl (q : list QueueObj) : compacted q q.
Proof.
  split_and!; [done | | done].
  exists (take (length q - NUM_UNDO) q). by rewrite take_drop.
Qed.

Lemma compacted_clean (q : list QueueObj) :
  (NUM_UNDO <= length q)%nat -> compacted q (ShapeQueue_clean NUM_UNDO q).1.
Proof.
  intros Hlen. unfold ShapeQueue_clean. split_and!.
  - lia.
  - apply cleanPrefix_kept.
  - intros e Hin Hout.
    destruct (cleanPrefix_removed _ _ _ Hin Hout) as (q1 & q2 & Hq & Hl & Hs).
    exists q1, q2. split_and!; [done | lia | done].
Qed.

Lemma layer_removeChild_queues (l : Z) (g : Graphics) (Q : list (list QueueObj)) :
  preserves (fun s => _shapeQueueArray s = Q) (layer_removeChild l g).
Proof.
  intros s HQ. unfold layer_removeChild. munfold.
  by destruct (Array_get (_graphicsLayers s) l).
Qed.

Lemma renderTerrain_queues (l : Z) (Q : list (list QueueObj)) :
  preserves (fun s => _shapeQueueArray s = Q) (renderTerrain l).
Proof.
  intros s HQ. destruct (renderTerrain_frame l s) as (tex & -> & _). done.
Qed.

(** Compaction of one layer leaves the queues of the other layers alone. *)
Lemma cleanShapeQueue_other (j : Z) (i : nat) (q : list QueueObj) :
  0 <= j -> Z.to_nat j <> i ->
  preserves (fun s => _shapeQueueArray s !! i = Some q) (cleanShapeQueue j).
Proof.
  intros Hj Hne s Hq. unfold cleanShapeQueue.
  rewrite stateOf_bind. simpl.
  destruct (Array_get (_shapeQueueArray s) j) as [queue|]; [| done].
  destruct (length queue <? NUM_UNDO)%nat; [done |].
  destruct (ShapeQueue_clean NUM_UNDO queue) as [kept removedElements].
  rewrite stateOf_bind. simpl.
  set (s1 := set_shapeQueueArray _ s).
  assert (H1 : _shapeQueueArray s1 !! i = Some q).
  { subst s1. simpl. by rewrite list_lookup_insert_ne. }
  destruct (length removedElements =? 0)%nat; [done |].
  rewrite stateOf_bind.
  pose proof (preserves_forOf (fun s => _shapeQueueArray s = _shapeQueueArray s1)
                removedElements removeShape
                (fun x _ => layer_removeChild_queues _ _ _) s1 eq_refl) as H2.
  destruct (forOf removedElements removeShape s1) as [[] s2|e s2]; simpl in *.
  - rewrite (renderTerrain_queues _ _ s2 H2). done.
  - by rewrite H2.
Qed.

(** Compaction of a layer compacts its queue. *)
Lemma cleanShapeQueue_this (i : nat) (q : list QueueObj) (s : TerrainLayer) :
  _shapeQueueArray s !! i = Some q ->
  exists q',
    _shapeQueueArray (stateOf (cleanShapeQueue (Z.of_nat i) s)) !! i = Some q'
    /\ compacted q q'.
Proof.
  intros Hq. unfold cleanShapeQueue.
  rewrite stateOf_bind. simpl.
  rewrite Array_get_nat, Nat2Z.id, Hq by lia.
  destruct (length q <? NUM_UNDO)%nat eqn:Hlen.
  { exists q. split; [done | apply compacted_refl]. }
  apply Nat.ltb_ge in Hlen.
  pose proof (compacted_clean q Hlen) as Hc.
  destruct (ShapeQueue_clean NUM_UNDO q) as [kept removedElements].
  simpl in Hc. exists kept. split; [| done].
  rewrite stateOf_bind. simpl.
  set (s1 := set_shapeQueueArray _ s).
  assert (H1 : _shapeQueueArray s1 !! i = Some kept).
  { subst s1. simpl. apply list_lookup_insert_eq. by eapply lookup_lt_Some. }
  destruct (length removedElements =? 0)%nat; [done |].
  rewrite stateOf_bind.
  pose proof (preserves_forOf (fun s => _shapeQueueArray s = _shapeQueueArray s1)
                removedElements removeShape
                (fun x _ => layer_removeChild_queues _ _ _) s1 eq_refl) as H2.
  destruct (forOf removedElements removeShape s1) as [[] s2|e s2]; simpl in *.
  - rewrite (renderTerrain_queues _ _ s2 H2). done.
  - by rewrite H2.
Qed.

Lemma cleanShapeQueues_compacted (js : list Z) (i : nat) (q : list QueueObj)
    (s : TerrainLayer) :
  NoDup js -> (forall j, j ∈ js -> 0 <= j) ->
  _shapeQueueArray s !! i = Some q ->
  exists q',
    _shapeQueueArray (stateOf (forOf js cleanShapeQueue s)) !! i = Some q'
    /\ compacted q q'.
Proof.
  revert s. induction js as [|j js IH]; intros s Hnd Hpos Hq; simpl.
  - exists q. split; [done | apply compacted_refl].
  - apply NoDup_cons in Hnd as [Hj Hnd].
    assert (Hj0 : 0 <= j) by (apply Hpos; by left).
    assert (Hpos' : forall j', j' ∈ js -> 0 <= j') by (intros; apply Hpos; by right).
    rewrite stateOf_bind.
    destruct (decide (Z.to_nat j = i)) as [Hji | Hji].
    + destruct (cleanShapeQueue_this i q s Hq) as (q' & Hq' & Hc).
      replace (Z.of_nat i) with j in Hq' by lia.
      exists q'. split; [| done].
      destruct (cleanShapeQueue j s) as [[] s1|e s1]; simpl in *; [| done].
      apply (preserves_forOf (fun s => _shapeQueueArray s !! i = Some q')); [| done].
      intros j' Hj'. apply cleanShapeQueue_other; [by apply Hpos' |].
      intros Heq. apply Hj. replace j with j' by (specialize (Hpos' _ Hj'); lia). done.
    + pose proof (cleanShapeQueue_other j i q Hj0 Hji s Hq) as Hq1.
      destruct (cleanShapeQueue j s) as [[] s1|e s1]; simpl in *.
      * by apply IH.
      * exists q. split; [done | apply compacted_refl].
Qed.

(** A layer whose queue is shorter than [NUM_UNDO] is not touched. *)
Lemma cleanShapeQueue_short (j : Z) (q : list QueueObj) (s : TerrainLayer) :
  0 <= j -> _shapeQueueArray s !! Z.to_nat j = Some q ->
  (length q < NUM_UNDO)%nat ->
  cleanShapeQueue j s = Returned tt s.
Proof.
  intros Hj Hq Hlen. unfold cleanShapeQueue. munfold.
  rewrite Array_get_nat, Hq by done.
  by rewrite (proj2 (Nat.ltb_lt _ _) Hlen).
Qed.

(** C4.  After [cleanAllShapeQueues] (compaction with [NUM_UNDO] = 20
    entries retained), whether or not it ran to the end: a queue that held
    fewer than 20 entries is unchanged; every queue ends with the same 20
    most recent entries as before, preceded by a subsequence of the older
    ones; and an entry that is gone was older than those 20 and entirely
    covered by a later entry of its layer.  When every queue holds fewer
    than 20 entries the whole layer is left as it was. *)
Theorem cleanAllShapeQueues_keeps_recent_entries
    (s : TerrainLayer) (i : nat) (q : list QueueObj) :
  _shapeQueueArray s !! i = Some q ->
  (exists q',
     _shapeQueueArray (stateOf (cleanAllShapeQueues s)) !! i = Some q'
     /\ ((length q < NUM_UNDO)%nat -> q' = q)
     /\ (exists older,
           q' = older ++ drop (length q - NUM_UNDO) q
           /\ sublist older (take (length q - NUM_UNDO) q))
     /\ (forall e, e ∈ q -> e ∉ q' ->
           exists q1 q2,
             q = q1 ++ e :: q2
             /\ (NUM_UNDO <= length q2)%nat
             /\ superseded e q2 = true))
  /\ (length (_shapeQueueArray s) = Z.to_nat MAX_LAYERS ->
      Forall (fun qj => (length qj < NUM_UNDO)%nat) (_shapeQueueArray s) ->
      cleanAllShapeQueues s = Returned tt s).
Proof.
  intros Hq. split.
  - apply (cleanShapeQueues_compacted (seqZ 0 MAX_LAYERS) i q s); [| | done].
    + apply NoDup_seqZ.
    + intros j Hj. apply elem_of_seqZ in Hj. lia.
  - intros Hlen Hshort. unfold cleanAllShapeQueues.
    assert (Hwp : wp (forOf (seqZ 0 MAX_LAYERS) cleanShapeQueue)
                     (fun _ s1 => s1 = s) s).
    { apply wp_forOf; [done |]. intros j s0 Hj ->.
      apply elem_of_seqZ in Hj.
      destruct (lookup_lt_is_Some_2 (_shapeQueueArray s) (Z.to_nat j)) as [qj Hqj].
      { rewrite Hlen. unfold MAX_LAYERS in *. lia. }
      eapply returned_wp; [| reflexivity].
      eapply cleanShapeQueue_short; [lia | done |].
      rewrite Forall_forall in Hshort. apply Hshort.
      by eapply list_elem_of_lookup_2. }
    apply wp_returned in Hwp as ([] & s' & E & ->). done.
Qed.

(* ===================================================================== *)
(** ** Fill without an enclosing boundary *)
(* ===================================================================== *)

(** C5.  When the wall graph finds no enclosing polygon for the origin,
    [fill] warns that no closed boundary can be located and returns with
    the layer exactly as it was: no shape is built, nothing is enqueued or
    rendered, no dirty bit changes. *)
Theorem fill_without_boundary_changes_nothing
    (s : TerrainLayer) (origin : Point) (t : Terrain) :
  encompassingPolygonWithHoles origin = [] ->
  fill origin t s = Returned (Some (CannotLocateClosedBoundary origin)) s.
Proof. intros Hpolys. unfold fill. by rewrite Hpolys. Qed.

(* ===================================================================== *)
(** ** Pixel values in the scene *)
(* ===================================================================== *)

(** C7 (as amended).  [isPixelValueInScene(v)] is true exactly when [v] is
    in [1,31] and some layer's queue holds a shape of pixel value [v]; for
    0 and for values outside [1,31] it is false whatever is enqueued. *)
Theorem isPixelValueInScene_iff (s : TerrainLayer) (v : Z) :
  isPixelValueInScene s v = true
  <-> 1 <= v <= 31
      /\ exists queue e,
           queue ∈ _shapeQueueArray s /\ e ∈ queue
           /\ pixelValue (qshape e) = Some v.
Proof.
  unfold isPixelValueInScene, truthy.
  destruct (v =? 0) eqn:E0; simpl.
  { apply Z.eqb_eq in E0. split; [done | lia]. }
  apply Z.eqb_neq in E0.
  destruct (v <? 0) eqn:E1; simpl.
  { apply Z.ltb_lt in E1. split; [done | lia]. }
  apply Z.ltb_ge in E1.
  destruct (31 <? v) eqn:E2; simpl.
  { apply Z.ltb_lt in E2. split; [done | lia]. }
  apply Z.ltb_ge in E2.
  rewrite existsb_exists. split.
  - intros (queue & Hq & He). apply existsb_exists in He as (e & He & Hv).
    split; [lia |]. exists queue, e.
    rewrite !list_elem_of_In. split_and!; [done | done |].
    by apply bool_decide_eq_true in Hv.
  - intros (_ & queue & e & Hq & He & Hv). exists queue.
    rewrite <- list_elem_of_In. split; [done |].
    apply existsb_exists. exists e. rewrite <- list_elem_of_In.
    split; [done | by apply bool_decide_eq_true].
Qed.

(* ===================================================================== *)
(** ** Terrain levels and terrains at a point *)
(* ===================================================================== *)








Ltac frame_solve := unfold sameOutsideCache in *; simpl; tauto.

(** Reading the pixel cache touches nothing outside the cache. *)
Lemma refreshPixelCacheArray_frame (s0 : TerrainLayer) (i : nat) :
  preserves (sameOutsideCache s0) (refreshPixelCacheArray i).
Proof.
  unfold refreshPixelCacheArray. apply preserves_get_bind. intros s Hs.
  destruct (priv_pixelCacheArray s !! i); [| done].
  apply preserves_bind.
  - apply preserves_modify. intros s2 Hs2. frame_solve.
  - intros []. apply preserves_modify. intros s2 Hs2. frame_solve.
  - done.
Qed.

Lemma refreshPixelCache_frame (s0 : TerrainLayer) :
  preserves (sameOutsideCache s0) refreshPixelCache.
Proof.
  unfold refreshPixelCache.
  apply preserves_bind; [apply preserves_gets | intros d0].
  apply preserves_bind;
    [apply preserves_when, refreshPixelCacheArray_frame | intros []].
  apply preserves_bind; [apply preserves_gets | intros d1].
  apply preserves_bind;
    [apply preserves_when, refreshPixelCacheArray_frame | intros []].
  apply preserves_get_bind. intros s Hs.
  destruct (priv_pixelCache s); [| done].
  apply preserves_modify; [| done]. intros s2 Hs2. frame_solve.
Qed.

Lemma pixelCache_frame (s0 : TerrainLayer) :
  preserves (sameOutsideCache s0) pixelCache.
Proof.
  unfold pixelCache.
  apply preserves_bind; [apply preserves_gets | intros dirty].
  apply preserves_bind;
    [apply preserves_when, refreshPixelCache_frame | intros []].
  apply preserves_gets.
Qed.

Lemma sameOutsideCache_refl (s : TerrainLayer) : sameOutsideCache s s.
Proof. by repeat split. Qed.




(* ===================================================================== *)
(** ** Key 0 of the scene map *)
(* ===================================================================== *)

Lemma stateOf_bind_returned {A B} (m : M A) (k : A -> M B) s a s1 :
  m s = Returned a s1 -> stateOf ((m ≫= k) s) = stateOf (k a s1).
Proof. intros E. by rewrite stateOf_bind, E. Qed.

(** A free key offered by the registry is in [1,31]. *)
Lemma TerrainMap_freeKey_range (m : gmap Z Terrain) (k : Z) :
  TerrainMap_freeKey m = Some k -> 1 <= k <= 31 /\ m !! k = None.
Proof.
  unfold TerrainMap_freeKey. intros Hfind.
  apply find_some in Hfind as [Hin Hfree].
  apply list_elem_of_In, elem_of_seqZ in Hin.
  unfold MAX_TERRAIN_ID in Hin. split; [lia |].
  unfold TerrainMap_has in Hfree. apply negb_true_iff in Hfree.
  apply bool_decide_eq_false in Hfree.
  destruct (m !! k); [exfalso; apply Hfree; eauto | done].
Qed.

(** Binding a key other than 0 leaves key 0 alone. *)
Lemma TerrainMap_set_key0 (m : gmap Z Terrain) (key : Z) (t : Terrain) (override : bool) :
  key <> 0 -> TerrainMap_set m key t override !! 0 = m !! 0.
Proof.
  intros Hkey. unfold TerrainMap_set.
  destruct (override || negb (set_keeps_existing && TerrainMap_has m key)); [| done].
  by rewrite lookup_insert_ne.
Qed.

(** Registration never touches key 0. *)
Lemma addTerrainToScene_key0 (t : Terrain) (v : option Terrain) :
  preserves (key0_bound v) (_addTerrainToScene t).
Proof.
  unfold _addTerrainToScene. apply preserves_get_bind. intros s Hs.
  destruct (_inSceneMap s t); [done |].
  destruct (TerrainMap_freeKey (sceneMap s)) as [k|] eqn:Hk; [| done].
  apply TerrainMap_freeKey_range in Hk as [Hk _].
  unfold key0_bound in *. simpl. rewrite lookup_insert_ne by lia. done.
Qed.

Lemma Terrain_addToScene_key0 (t : Terrain) (v : option Terrain) :
  preserves (key0_bound v) (Terrain_addToScene t).
Proof.
  unfold Terrain_addToScene.
  pbind; [apply addTerrainToScene_key0 |].
  by apply preserves_modify.
Qed.

(** The same with the object bound to key 0 in view. *)
Lemma new_TerrainObj_key0_is t0 o0 (o : TerrainObj) :
  preserves (key0_is t0 o0) (new_TerrainObj o).
Proof.
  intros s (Hm & Ht & Hn). unfold new_TerrainObj, key0_is. simpl.
  split_and!; [done | | lia].
  rewrite lookup_insert_ne by lia. done.
Qed.

Lemma Terrain_addToScene_key0_is t0 o0 (t : Terrain) :
  t <> t0 -> preserves (key0_is t0 o0) (Terrain_addToScene t).
Proof.
  intros Hne. unfold Terrain_addToScene.
  refine (preserves_bind _ _ _ _ _).
  - unfold _addTerrainToScene. apply preserves_get_bind. intros s Hs.
    destruct (_inSceneMap s t); [done |].
    destruct (TerrainMap_freeKey (sceneMap s)) as [k|] eqn:Hk; [| done].
    apply TerrainMap_freeKey_range in Hk as [Hk _].
    destruct Hs as (Hm & Ht & Hn). unfold key0_is. simpl.
    rewrite lookup_insert_ne by lia. done.
  - intros pv. apply preserves_modify. intros s (Hm & Ht & Hn).
    unfold key0_is. simpl. rewrite lookup_insert_ne by done. done.
Qed.

Lemma registryKept_refl s : registryKept s s.
Proof. by repeat split. Qed.

Ltac registry_solve :=
  unfold registryKept in *; simpl; intuition (try congruence; try lia).

Lemma layer_addChild_registry s0 l g :
  preserves (registryKept s0) (layer_addChild l g).
Proof.
  unfold layer_addChild. apply preserves_get_bind. intros s Hs.
  destruct (Array_get (_graphicsLayers s) l); [| done]. simpl. registry_solve.
Qed.

Lemma drawTerrainShape_registry s0 shape t :
  preserves (registryKept s0) (_drawTerrainShape shape t).
Proof.
  unfold _drawTerrainShape. apply preserves_get_bind. intros s Hs.
  destruct t as [t|]; [| done].
  assert (Hnew : forall p c sh, preserves (registryKept s0) (new_Graphics p c sh)).
  { intros p c sh s1 Hs1. unfold new_Graphics. simpl. registry_solve. }
  destruct (isGridShape shape).
  - pbind; [apply Hnew |].
    pbind; [apply layer_addChild_registry |].
    apply preserves_ret.
  - destruct (Array_get (_graphicsLayers s) (layer shape)); [| done].
    pbind; [apply Hnew |].
    pbind; [apply layer_addChild_registry |].
    pbind; [apply layer_addChild_registry |].
    apply preserves_ret.
Qed.

Lemma drawTerrainName_registry s0 shape :
  preserves (registryKept s0) (_drawTerrainName shape).
Proof.
  unfold _drawTerrainName. apply preserves_get_bind. intros s Hs.
  destruct (negb (truthy_opt (pixelValue shape))); [done |].
  by destruct (terrainForPixel s (pixelValue shape)).
Qed.

Lemma queue_enqueue_registry s0 l obj :
  preserves (registryKept s0) (queue_enqueue l obj).
Proof.
  unfold queue_enqueue. apply preserves_get_bind. intros s Hs.
  destruct (Array_get (_shapeQueueArray s) l); [| done]. simpl. registry_solve.
Qed.

Lemma queue_clear_registry s0 l :
  preserves (registryKept s0) (queue_clear l).
Proof.
  unfold queue_clear. apply preserves_get_bind. intros s Hs.
  destruct (Array_get (_shapeQueueArray s) l); [| done]. simpl. registry_solve.
Qed.

Lemma renderTerrain_registry s0 l :
  preserves (registryKept s0) (renderTerrain l).
Proof.
  intros s Hs. destruct (renderTerrain_frame l s) as (tex & -> & _).
  simpl. registry_solve.
Qed.

Lemma clearPixelCacheArray_registry s0 l :
  preserves (registryKept s0) (_clearPixelCacheArray l).
Proof. intros s Hs. rewrite clearPixelCacheArray_dirty. simpl. registry_solve. Qed.

Lemma key0_is_registryKept t0 o0 s0 s :
  key0_is t0 o0 s0 -> registryKept s0 s -> key0_is t0 o0 s.
Proof.
  intros (Hm & Ht & Hn) (Hm' & Ht' & Hn'). unfold key0_is.
  rewrite Hm', Ht'. split_and!; [done | done | lia].
Qed.

(** An operation that keeps the registry keeps key 0. *)
Lemma preserves_key0_is {A} t0 o0 (m : M A) :
  (forall s0, preserves (registryKept s0) m) -> preserves (key0_is t0 o0) m.
Proof.
  intros Hm s Hs. eapply key0_is_registryKept; [done |].
  apply Hm, registryKept_refl.
Qed.

Lemma bind_ext {A B} (m : M A) (k k' : A -> M B) s :
  (forall a s1, k a s1 = k' a s1) -> (m ≫= k) s = (m ≫= k') s.
Proof. intros Hk. munfold. destruct (m s); [apply Hk | done]. Qed.

Lemma bind_ext_l {A B} (m m' : M A) (k : A -> M B) s :
  m s = m' s -> (m ≫= k) s = (m' ≫= k) s.
Proof. intros Hm. munfold. by rewrite Hm. Qed.

(** Iterations that do nothing may be left out of a loop. *)
Lemma forOf_filter {A} (P : A -> Prop) `{!forall x, Decision (P x)}
    (xs : list A) (body : A -> M unit) s :
  (forall x, ~ P x -> body x = mret tt) ->
  forOf xs body s = forOf (filter P xs) body s.
Proof.
  intros Hskip. revert s. induction xs as [|x xs IH]; intros s; [done |].
  rewrite filter_cons. destruct (decide (P x)) as [HP | HP]; simpl.
  - apply bind_ext. intros [] s1. apply IH.
  - rewrite (Hskip x HP). apply IH.
Qed.

(** A terrain bound to key 0 is registered, under key 0. *)
Lemma keyForValue_key0 (m : gmap Z Terrain) (t : Terrain) :
  m !! 0 = Some t -> TerrainMap_keyForValue m t = Some 0.
Proof.
  intros Hm. unfold TerrainMap_keyForValue, MAX_TERRAIN_ID.
  rewrite seqZ_cons by lia. simpl. rewrite Hm.
  by rewrite bool_decide_eq_true_2.
Qed.

Lemma inSceneMap_bound (s : TerrainLayer) (k : Z) (t : Terrain) :
  sceneMap s !! k = Some t -> _inSceneMap s t = true.
Proof.
  intros Hm. unfold _inSceneMap, hasTerrainId.
  apply existsb_exists. exists (k, t). split.
  - apply list_elem_of_In. by apply elem_of_map_to_list.
  - simpl. by apply bool_decide_eq_true_2.
Qed.

(** [addToScene] on the terrain bound to key 0 records pixel value 0 in
    it and changes nothing else. *)
Lemma Terrain_addToScene_bound0 (s : TerrainLayer) (t : Terrain) :
  sceneMap s !! 0 = Some t ->
  Terrain_addToScene t s
  = Returned tt
      (set_terrains
         (<[t := TerrainObj_setPixelValue (terrainObj s t) (Some 0)]> (terrains s)) s).
Proof.
  intros Hm. unfold Terrain_addToScene, _addTerrainToScene, updateTerrain. munfold.
  by rewrite (inSceneMap_bound s 0 t Hm), (keyForValue_key0 _ _ Hm).
Qed.

Lemma sceneMap_set_key0_is t0 o0 key t override :
  key <> 0 -> preserves (key0_is t0 o0) (sceneMap_set key t override).
Proof.
  intros Hkey s (Hm & Ht & Hn). unfold sceneMap_set, key0_is. simpl.
  by rewrite TerrainMap_set_key0.
Qed.

(** Binding key 0 to a fresh null terrain and adding it to the scene:
    what follows runs from a state where key 0 is bound to it. *)
Lemma bind_null_terrain (s : TerrainLayer) (k : unit -> M unit)
    (P : TerrainLayer -> Prop) :
  (forall s1,
     key0_is (nextObject s) (TerrainObj_setPixelValue nullTerrainObj (Some 0)) s1 ->
     P (stateOf (k tt s1))) ->
  P (stateOf ((nullTerrain ← new_Terrain;
               sceneMap_set 0 nullTerrain true ;;
               Terrain_addToScene nullTerrain ≫= k) s)).
Proof.
  intros Hk.
  set (t0 := nextObject s) in *.
  set (o0 := TerrainObj_setPixelValue nullTerrainObj (Some 0)) in *.
  set (s3 := set_sceneMap (<[0 := t0]> (sceneMap s))
               (set_nextObject (S t0)
                  (set_terrains (<[t0 := nullTerrainObj]> (terrains s)) s))).
  assert (H3 : sceneMap s3 !! 0 = Some t0) by (simpl; apply lookup_insert_eq).
  assert (Ho : terrainObj s3 t0 = nullTerrainObj).
  { unfold terrainObj. simpl. by rewrite lookup_insert_eq. }
  assert (Hrun : (nullTerrain ← new_Terrain;
                  sceneMap_set 0 nullTerrain true ;;
                  Terrain_addToScene nullTerrain ≫= k) s
                 = k tt (set_terrains (<[t0 := o0]> (terrains s3)) s3)).
  { unfold new_Terrain, new_TerrainObj, sceneMap_set. munfold. simpl.
    fold t0. change (TerrainMap_set (sceneMap s) 0 t0 true)
      with (<[0 := t0]> (sceneMap s)).
    fold s3. by rewrite (Terrain_addToScene_bound0 s3 t0 H3), Ho. }
  rewrite Hrun. apply Hk.
  unfold key0_is. simpl. rewrite !lookup_insert_eq. split_and!; [done | done | lia].
Qed.

(** [importFromJSON(data)], finished or not, leaves key 0 bound to the
    null terrain it built. *)
Lemma importFromJSON_key0 (data : SceneData) (s : TerrainLayer) :
  key0_is (nextObject s) (TerrainObj_setPixelValue nullTerrainObj (Some 0))
          (stateOf (importFromJSON data s)).
Proof.
  unfold importFromJSON.
  erewrite stateOf_bind_returned by reflexivity.
  apply (bind_null_terrain _ _ (key0_is _ _)). simpl nextObject.
  set (t0 := nextObject s).
  set (o0 := TerrainObj_setPixelValue nullTerrainObj (Some 0)).
  intros s4 Hkey.
  pbind.
  { apply preserves_forOf. intros [key id] _.
    destruct (truthy key) eqn:Hk; simpl; [| apply preserves_ret].
    apply truthy_true in Hk.
    intros s0 Hs0. rewrite stateOf_bind.
    pose proof (new_TerrainObj_key0_is t0 o0 (fromEffectId id) s0 Hs0) as H1.
    unfold new_TerrainObj in *. simpl in *.
    pbind; [by apply sceneMap_set_key0_is |].
    apply Terrain_addToScene_key0_is. destruct Hs0 as (_ & _ & Hlt). lia. }
  pbind.
  { apply preserves_modify. intros s0 (Hm & Ht & Hn). by split_and!. }
  pbind; [apply preserves_gets |].
  pbind.
  { apply preserves_forOf. intros i _.
    pbind; [apply preserves_key0_is; intros; apply queue_clear_registry |].
    destruct (Array_get (data_shapeQueueArray data) i) as [dataQueue|];
      [| apply preserves_throw].
    apply preserves_forOf. intros shape _.
    apply preserves_key0_is. intros s0.
    apply preserves_get_bind. intros s1 Hs1.
    pbind; [apply drawTerrainShape_registry |].
    pbind; [apply drawTerrainName_registry |].
    apply queue_enqueue_registry. }
  pbind; [apply preserves_key0_is; intros; apply clearPixelCacheArray_registry |].
  apply preserves_key0_is; intros; apply renderTerrain_registry.
Qed.

(** [importFromJSON] does the same whether or not the snapshot's scene
    map has entries under key 0. *)
Lemma importFromJSON_ignores_key0 (sm : list (Z * string))
    (qs : list (list Shape)) (s : TerrainLayer) :
  importFromJSON (mkSceneData sm qs) s
  = importFromJSON (mkSceneData (filter (fun e => e.1 <> 0) sm) qs) s.
Proof.
  unfold importFromJSON. simpl.
  apply bind_ext. intros [] s1.
  apply bind_ext. intros nullTerrain s2.
  apply bind_ext. intros [] s3.
  apply bind_ext. intros [] s4.
  apply bind_ext_l.
  apply (forOf_filter (fun e : Z * string => e.1 <> 0)).
  intros [key id] Hkey. simpl in Hkey.
  assert (key = 0) as -> by (destruct (decide (key = 0)); [done | tauto]).
  done.
Qed.

Lemma new_Terrain_key0 (v : option Terrain) :
  preserves (key0_bound v) new_Terrain.
Proof. by intros s Hs. Qed.

Lemma updateTerrain_key0 (v : option Terrain) t f :
  preserves (key0_bound v) (updateTerrain t f).
Proof. by intros s Hs. Qed.

Lemma sceneMap_set_key0 (v : option Terrain) key t override :
  key <> 0 -> preserves (key0_bound v) (sceneMap_set key t override).
Proof.
  intros Hkey s Hs. unfold sceneMap_set, key0_bound in *. simpl.
  by rewrite TerrainMap_set_key0.
Qed.

(** Removal with replacement never rebinds key 0. *)
Lemma removeTerrainFromScene_key0 (t : Terrain) (v : option Terrain) :
  preserves (key0_bound v) (_removeTerrainFromScene t).
Proof.
  unfold _removeTerrainFromScene. apply preserves_get_bind. intros s Hs.
  destruct (terrain_pixelValue (terrainObj s t)) as [value|]; [| done].
  destruct (_inSceneMap s t); cbn [negb orb]; [| done].
  destruct (truthy value) eqn:Hv; cbn [negb orb]; [| done].
  apply truthy_true in Hv.
  pbind; [apply new_Terrain_key0 |].
  pbind; [apply updateTerrain_key0 |].
  pbind; [apply updateTerrain_key0 |].
  pbind; [by apply sceneMap_set_key0 |].
  pbind; [apply Terrain_addToScene_key0 |].
  pbind; [by apply preserves_modify |].
  apply preserves_ret.
Qed.

(** Outright removal never deletes key 0. *)
Lemma removeTerrainFromSceneMap_key0 (t : Terrain) (v : option Terrain) :
  preserves (key0_bound v) (removeTerrainFromSceneMap t).
Proof.
  unfold removeTerrainFromSceneMap. apply preserves_get_bind. intros s Hs.
  destruct (terrain_pixelValue (terrainObj s t)) as [value|]; [| done].
  destruct (_inSceneMap s t); cbn [negb orb]; [| done].
  destruct (truthy value) eqn:Hv; cbn [negb orb]; [| done].
  apply truthy_true in Hv.
  pbind.
  { apply preserves_modify. intros s0 Hs0. unfold key0_bound in *. simpl.
    by rewrite lookup_delete_ne. }
  pbind; [by apply preserves_modify |].
  apply updateTerrain_key0.
Qed.

(** Removal of a terrain whose pixel value is 0 (or unassigned) does
    nothing. *)
Lemma removal_of_pixel0_is_noop (t : Terrain) (s : TerrainLayer) :
  truthy_opt (terrain_pixelValue (terrainObj s t)) = false ->
  _removeTerrainFromScene t s = Returned None s
  /\ removeTerrainFromSceneMap t s = Returned tt s.
Proof.
  intros Hpv. unfold _removeTerrainFromScene, removeTerrainFromSceneMap. munfold.
  destruct (terrain_pixelValue (terrainObj s t)) as [value|]; [| done].
  simpl in Hpv. rewrite Hpv. by rewrite orb_true_r.
Qed.

Lemma key0_is_null (t0 : Terrain) (s : TerrainLayer) :
  key0_is t0 (TerrainObj_setPixelValue nullTerrainObj (Some 0)) s ->
  sceneMap s !! 0 = Some t0 /\ isNullTerrainObj (terrainObj s t0).
Proof.
  intros (Hm & Ht & _). split; [done |].
  unfold terrainObj. by rewrite Ht.
Qed.

(** C9.  Key 0 of the scene map and the null terrain.  [importFromJSON]
    always leaves key 0 bound to the null terrain it builds, also when it
    stops on an exception, and does the same whether or not the loaded
    scene map has entries under key 0.  [loadSceneData] always leaves key
    0 bound: to a freshly built null terrain when data was loaded or key 0
    was unbound, and otherwise it changes nothing.  Neither removal with
    replacement nor outright removal changes the binding of key 0, and
    both do nothing at all for a terrain whose pixel value is 0. *)
Theorem sceneMap_key0_stays_bound_to_null_terrain (s : TerrainLayer) :
  (forall data,
     let s' := stateOf (importFromJSON data s) in
     sceneMap s' !! 0 = Some (nextObject s)
     /\ isNullTerrainObj (terrainObj s' (nextObject s)))
  /\ (forall sm qs,
        importFromJSON (mkSceneData sm qs) s
        = importFromJSON (mkSceneData (filter (fun e => e.1 <> 0) sm) qs) s)
  /\ (forall data,
        let s' := stateOf (loadSceneData data s) in
        is_Some (sceneMap s' !! 0)
        /\ (is_Some data \/ sceneMap s !! 0 = None ->
            sceneMap s' !! 0 = Some (nextObject s)
            /\ isNullTerrainObj (terrainObj s' (nextObject s)))
        /\ (data = None -> is_Some (sceneMap s !! 0) ->
            loadSceneData data s = Returned tt s))
  /\ (forall t,
        sceneMap (stateOf (_removeTerrainFromScene t s)) !! 0 = sceneMap s !! 0
        /\ sceneMap (stateOf (removeTerrainFromSceneMap t s)) !! 0 = sceneMap s !! 0
        /\ (truthy_opt (terrain_pixelValue (terrainObj s t)) = false ->
            _removeTerrainFromScene t s = Returned None s
            /\ removeTerrainFromSceneMap t s = Returned tt s)).
Proof.
  assert (Hload_fresh : sceneMap s !! 0 = None ->
            key0_is (nextObject s) (TerrainObj_setPixelValue nullTerrainObj (Some 0))
                    (stateOf (loadSceneData None s))).
  { intros Hnone. unfold loadSceneData.
    rewrite stateOf_bind. change (get s) with (Returned s s). cbn iota.
    unfold TerrainMap_has. rewrite Hnone.
    rewrite bool_decide_eq_false_2 by (by intros [? ?]).
    change (when (negb false) ?m) with m.
    assert (HX : (nullTerrain ← new_Terrain;
                  sceneMap_set 0 nullTerrain true ;;
                  Terrain_addToScene nullTerrain) s
                 = (nullTerrain ← new_Terrain;
                    sceneMap_set 0 nullTerrain true ;;
                    Terrain_addToScene nullTerrain ≫= fun _ => mret tt) s).
    { apply bind_ext. intros n s1. apply bind_ext. intros [] s2. munfold.
      by destruct (Terrain_addToScene n s2) as [[] ?|? ?]. }
    rewrite HX. apply (bind_null_terrain _ _ (key0_is _ _)). by intros s1 Hs1. }
  split_and!.
  - intros data s'. apply key0_is_null, importFromJSON_key0.
  - intros sm qs. apply importFromJSON_ignores_key0.
  - intros data s'. subst s'. destruct data as [d|].
    + pose proof (key0_is_null _ _ (importFromJSON_key0 d s)) as [Hm Hn].
      simpl. split_and!; [by rewrite Hm | done | done].
    + destruct (sceneMap s !! 0) as [t|] eqn:H0.
      * assert (Hid : loadSceneData None s = Returned tt s).
        { unfold loadSceneData. munfold. unfold TerrainMap_has.
          rewrite H0. by rewrite bool_decide_eq_true_2. }
        rewrite Hid. simpl. rewrite H0.
        split_and!; [done | | done].
        intros [[? [=]] | [=]].
      * pose proof (key0_is_null _ _ (Hload_fresh eq_refl)) as [Hm Hn].
        split_and!; [by rewrite Hm | done |].
        intros _ [? [=]].
  - intros t. split_and!.
    + by apply (removeTerrainFromScene_key0 t (sceneMap s !! 0) s).
    + by apply (removeTerrainFromSceneMap_key0 t (sceneMap s !! 0) s).
    + apply removal_of_pixel0_is_noop.
Qed.

(* ===================================================================== *)
(** ** Adding a shape to the canvas *)
(* ===================================================================== *)

Lemma wlp_bind {A B} (m : M A) (k : A -> M B) (Q : B -> TerrainLayer -> Prop) s :
  wlp m (fun a s' => wlp (k a) Q s') s -> wlp (m ≫= k) Q s.
Proof. unfold wlp; munfold. by destruct (m s). Qed.

Lemma wlp_mono {A} (m : M A) (Q Q' : A -> TerrainLayer -> Prop) s :
  wlp m Q s -> (forall a s', Q a s' -> Q' a s') -> wlp m Q' s.
Proof. unfold wlp. destruct (m s); auto. Qed.

Lemma wlp_preserves {A} (m : M A) (P : TerrainLayer -> Prop) s :
  preserves P m -> P s -> wlp m (fun _ s' => P s') s.
Proof.
  intros Hm HP. specialize (Hm s HP). unfold wlp.
  by destruct (m s).
Qed.

Lemma wlp_conj {A} (m : M A) (Q1 Q2 : A -> TerrainLayer -> Prop) s :
  wlp m Q1 s -> wlp m Q2 s -> wlp m (fun a s' => Q1 a s' /\ Q2 a s') s.
Proof. unfold wlp. by destruct (m s). Qed.

Lemma wlp_returned {A} (m : M A) (Q : A -> TerrainLayer -> Prop) s a s' :
  wlp m Q s -> m s = Returned a s' -> Q a s'.
Proof. unfold wlp. intros HQ E. by rewrite E in HQ. Qed.

(** What each operation leaves alone: an observation that does not
    depend on the fields the operation writes keeps its value. *)
Lemma Terrain_addToScene_observes {X} (f : TerrainLayer -> X) (v : X) t :
  (forall x s, f (set_sceneMap x s) = f s) ->
  (forall x s, f (set_requiresSave x s) = f s) ->
  (forall x s, f (set_terrains x s) = f s) ->
  preserves (observes f v) (Terrain_addToScene t).
Proof.
  intros Hm Hr Ht. unfold Terrain_addToScene, _addTerrainToScene, updateTerrain.
  pbind.
  - apply preserves_get_bind. intros s Hs.
    destruct (_inSceneMap s t); [done |].
    destruct (TerrainMap_freeKey (sceneMap s)); [| done].
    unfold observes in *. simpl. by rewrite Hr, Hm.
  - apply preserves_modify. intros s Hs. unfold observes in *. by rewrite Ht.
Qed.

Lemma layer_removeChild_observes {X} (f : TerrainLayer -> X) (v : X) l g :
  (forall x s, f (set_graphicsLayers x s) = f s) ->
  preserves (observes f v) (layer_removeChild l g).
Proof.
  intros Hg. unfold layer_removeChild. apply preserves_get_bind. intros s Hs.
  destruct (Array_get (_graphicsLayers s) l); [| done].
  unfold observes in *. simpl. by rewrite Hg.
Qed.

Lemma layer_addChild_observes {X} (f : TerrainLayer -> X) (v : X) l g :
  (forall x s, f (set_graphicsLayers x s) = f s) ->
  preserves (observes f v) (layer_addChild l g).
Proof.
  intros Hg. unfold layer_addChild. apply preserves_get_bind. intros s Hs.
  destruct (Array_get (_graphicsLayers s) l); [| done].
  unfold observes in *. simpl. by rewrite Hg.
Qed.

Lemma drawTerrainShape_observes {X} (f : TerrainLayer -> X) (v : X) shape t :
  (forall x s, f (set_graphicsLayers x s) = f s) ->
  (forall x s, f (set_nextObject x s) = f s) ->
  preserves (observes f v) (_drawTerrainShape shape t).
Proof.
  intros Hg Hn. unfold _drawTerrainShape. apply preserves_get_bind. intros s Hs.
  destruct t as [t|]; [| done].
  assert (Hnew : forall p c sh, preserves (observes f v) (new_Graphics p c sh)).
  { intros p c sh s1 Hs1. unfold new_Graphics, observes in *. simpl. by rewrite Hn. }
  destruct (isGridShape shape).
  - pbind; [apply Hnew |].
    pbind; [by apply layer_addChild_observes |].
    apply preserves_ret.
  - destruct (Array_get (_graphicsLayers s) (layer shape)); [| done].
    pbind; [apply Hnew |].
    pbind; [by apply layer_addChild_observes |].
    pbind; [by apply layer_addChild_observes |].
    apply preserves_ret.
Qed.

Lemma renderTerrain_observes {X} (f : TerrainLayer -> X) (v : X) l :
  (forall x s, f (set_terrainTextures x s) = f s) ->
  (forall x s, f (set_pixelCacheDirty x s) = f s) ->
  preserves (observes f v) (renderTerrain l).
Proof.
  intros Ht Hd s Hs. destruct (renderTerrain_frame l s) as (tex & -> & _).
  unfold observes in *. simpl. by rewrite Hd, Ht.
Qed.

Lemma drawTerrainName_pure (shape : Shape) (s : TerrainLayer) :
  stateOf (_drawTerrainName shape s) = s.
Proof.
  unfold _drawTerrainName. munfold.
  destruct (negb (truthy_opt (pixelValue shape))); [done |].
  by destruct (terrainForPixel s (pixelValue shape)).
Qed.

(** The graphics [_drawTerrainShape] returns is that of the shape. *)
Lemma drawTerrainShape_drawn (shape : Shape) (t : option Terrain) (s : TerrainLayer) :
  wlp (_drawTerrainShape shape t) (fun g _ => drawn g = shape) s.
Proof.
  unfold wlp, _drawTerrainShape, new_Graphics. munfold.
  destruct t as [t|]; [| done].
  destruct (isGridShape shape); simpl.
  - by destruct (layer_addChild _ _ _).
  - destruct (Array_get (_graphicsLayers s) (layer shape)); [| done]. simpl.
    destruct (layer_addChild _ _ _) as [[] s1|]; [| done].
    by destruct (layer_addChild _ _ _).
Qed.

(** An entry enqueued on a layer ends the queue of that layer. *)
Lemma queue_enqueue_wlp (l : Z) (obj : QueueObj) (s : TerrainLayer) :
  wlp (queue_enqueue l obj)
      (fun _ s' =>
         exists q, 0 <= l /\ _shapeQueueArray s !! Z.to_nat l = Some q
                   /\ s' = set_shapeQueueArray
                             (<[Z.to_nat l := q ++ [obj]]> (_shapeQueueArray s)) s) s.
Proof.
  unfold wlp, queue_enqueue, Array_get. munfold.
  destruct (0 <=? l) eqn:Hl; [| done]. apply Z.leb_le in Hl.
  destruct (_shapeQueueArray s !! Z.to_nat l) as [q|] eqn:Hq; [| done].
  exists q. done.
Qed.

Lemma wlp_get_bind {A} (k : TerrainLayer -> M A) (Q : A -> TerrainLayer -> Prop) s :
  wlp (k s) Q s -> wlp (get ≫= k) Q s.
Proof. done. Qed.

Lemma drawTerrainName_wlp (shape : Shape) (s : TerrainLayer) :
  wlp (_drawTerrainName shape) (fun _ s' => s' = s) s.
Proof.
  pose proof (drawTerrainName_pure shape s) as Hp. unfold wlp.
  by destruct (_drawTerrainName shape s).
Qed.

(** A temporary shape is never enqueued. *)
Lemma addTerrainShapeToCanvas_temporary_queues (shape : Shape) (t : Terrain)
    (Q : list (list QueueObj)) :
  preserves (observes _shapeQueueArray Q) (addTerrainShapeToCanvas shape t true).
Proof.
  unfold addTerrainShapeToCanvas.
  apply preserves_get_bind. intros s Hs.
  pbind; [by apply preserves_when, Terrain_addToScene_observes |].
  apply preserves_get_bind. intros sA HsA. cbv zeta.
  pbind.
  { apply preserves_when.
    destruct (priv_temporaryGraphics sA !! _); [| apply preserves_ret].
    by apply layer_removeChild_observes. }
  pbind; [by apply drawTerrainShape_observes |].
  pbind; [by apply renderTerrain_observes |].
  pbind; [by apply preserves_modify |].
  pbind; [by apply preserves_modify |].
  apply preserves_ret.
Qed.

(** What holds when [addTerrainShapeToCanvas] returns. *)
Lemma addTerrainShapeToCanvas_returned (shape : Shape) (t : Terrain)
    (temporary : bool) (s : TerrainLayer) :
  wlp (addTerrainShapeToCanvas shape t temporary)
    (fun g s' =>
       let shape' :=
         Shape_setLayer
           (Shape_setPixelValue shape (terrain_pixelValue (terrainObj s' t)))
           (currentLayer s) in
       _requiresSave s' = negb temporary
       /\ drawn g = shape'
       /\ (if temporary
           then _shapeQueueArray s' = _shapeQueueArray s
                /\ priv_temporaryGraphics s'
                   = <[Point_key (origin shape) :=
                         {| tshape := shape'; tgraphics := g |}]>
                       (priv_temporaryGraphics s)
           else priv_temporaryGraphics s' = priv_temporaryGraphics s
                /\ exists q text,
                     0 <= currentLayer s
                     /\ _shapeQueueArray s !! Z.to_nat (currentLayer s) = Some q
                     /\ _shapeQueueArray s'
                        = <[Z.to_nat (currentLayer s) :=
                              q ++ [{| qshape := shape'; qgraphics := g;
                                       qtext := text |}]]>
                            (_shapeQueueArray s))) s.
Proof.
  unfold addTerrainShapeToCanvas.
  apply wlp_get_bind.
  apply wlp_bind. eapply wlp_mono.
  { apply (wlp_preserves _ (observes untilStored (untilStored s))); [| done].
    by apply preserves_when, Terrain_addToScene_observes. }
  intros [] sA HA. apply wlp_get_bind. cbv zeta.
  injection HA as HAq HAt HAc.
  set (shape' := Shape_setLayer
                   (Shape_setPixelValue shape (terrain_pixelValue (terrainObj sA t)))
                   (currentLayer sA)).
  set (f2 := fun x : TerrainLayer => (untilStored x, terrains x)).
  apply wlp_bind. eapply wlp_mono.
  { apply (wlp_preserves _ (observes f2 (f2 sA))); [| done].
    apply preserves_when.
    destruct (priv_temporaryGraphics sA !! _); [| apply preserves_ret].
    by apply layer_removeChild_observes. }
  intros [] sB HB.
  apply wlp_bind. eapply wlp_mono.
  { apply wlp_conj.
    - apply (wlp_preserves _ (observes f2 (f2 sA))); [| exact HB].
      by apply drawTerrainShape_observes.
    - apply drawTerrainShape_drawn. }
  intros g sC [HC Hdrawn].
  apply wlp_bind. eapply wlp_mono.
  { apply (wlp_preserves _ (observes f2 (f2 sA))); [| exact HC].
    by apply renderTerrain_observes. }
  intros [] sD HD. injection HD as HDq HDt HDc HDh.
  assert (Hshape : forall s', terrains s' = terrains sD ->
            Shape_setLayer
              (Shape_setPixelValue shape (terrain_pixelValue (terrainObj s' t)))
              (currentLayer s) = shape').
  { intros s' Hs'. unfold shape', terrainObj. by rewrite Hs', HDh, HAc. }
  destruct temporary.
  - unfold wlp. munfold.
    rewrite !(Hshape (set_requiresSave _ (set_temporaryGraphics _ sD)) eq_refl).
    split_and!; [done | done | simpl; congruence |].
    simpl. by rewrite HDt, HAt.
  - apply wlp_bind.
    apply (wlp_mono _ (fun _ sE =>
             exists q text,
               0 <= layer shape'
               /\ _shapeQueueArray sD !! Z.to_nat (layer shape') = Some q
               /\ sE = set_shapeQueueArray
                         (<[Z.to_nat (layer shape') :=
                              q ++ [{| qshape := shape'; qgraphics := g;
                                       qtext := text |}]]>
                            (_shapeQueueArray sD)) sD)).
    { apply wlp_bind. eapply wlp_mono; [apply drawTerrainName_wlp |].
      intros text s1 ->. eapply wlp_mono; [apply queue_enqueue_wlp |].
      intros [] sE (q & Hl & Hq & HsE). by exists q, text. }
    intros [] sE (q & text & Hl & Hq & ->).
    unfold wlp. munfold.
    rewrite !(Hshape (set_requiresSave _ (set_shapeQueueArray _ sD)) eq_refl).
    split_and!; [done | done | simpl; congruence |].
    exists q, text. simpl in *. rewrite HDq, HAq, HAc in *.
    split_and!; done.
Qed.

(** [addTerrainShapeToCanvas] returns when the terrain is already in the
    scene, the toolbar's layer exists, no temporary graphics sits at the
    shape's origin and the terrain's non-zero pixel value is bound. *)
Lemma addTerrainShapeToCanvas_returns (shape : Shape) (t : Terrain)
    (temporary : bool) (s : TerrainLayer) :
  hasTerrainId s (terrain_id (terrainObj s t)) = true ->
  0 <= currentLayer s ->
  is_Some (_graphicsLayers s !! Z.to_nat (currentLayer s)) ->
  is_Some (_shapeQueueArray s !! Z.to_nat (currentLayer s)) ->
  priv_temporaryGraphics s !! Point_key (origin shape) = None ->
  (forall v, terrain_pixelValue (terrainObj s t) = Some v -> v <> 0 ->
             is_Some (sceneMap s !! v)) ->
  exists g s', addTerrainShapeToCanvas shape t temporary s = Returned g s'.
Proof.
  intros Hin Hcl [c Hc] [q Hq] Htemp Hbound.
  set (shape' := Shape_setLayer
                   (Shape_setPixelValue shape (terrain_pixelValue (terrainObj s t)))
                   (currentLayer s)).
  destruct (drawTerrainShape_returns s shape' t c Hcl Hc) as (g & s1 & Hdraw & Hg & Hs1).
  destruct (renderTerrain_frame (currentLayer s) s1) as (tex & Hrender & _).
  set (s2 := set_pixelCacheDirty _ _) in Hrender.
  assert (Hs2 : _shapeQueueArray s2 = _shapeQueueArray s /\ sceneMap s2 = sceneMap s
                /\ terrains s2 = terrains s).
  { subst s2 s1. done. }
  destruct Hs2 as (Hs2q & Hs2m & Hs2t). clearbody s2.
  assert (Hprefix : forall (k : Shape -> Graphics -> M Graphics),
            (s0 ← get;
             when (negb (hasTerrainId s0 (terrain_id (terrainObj s0 t))))
                  (Terrain_addToScene t) ;;
             s0 ← get;
             let shape := Shape_setPixelValue shape
                            (terrain_pixelValue (terrainObj s0 t)) in
             let shape := Shape_setLayer shape (currentLayer s0) in
             let key := Point_key (origin shape) in
             when temporary
               (match priv_temporaryGraphics s0 !! key with
                | Some oldValues =>
                    _removeTerrainShape (tshape oldValues) (tgraphics oldValues)
                | None => mret tt
                end) ;;
             graphics ← _drawTerrainShape shape (Some t);
             renderTerrain (layer shape) ;; k shape graphics) s
            = k shape' g s2).
  { intros k. munfold. rewrite Hin. simpl. fold shape'.
    change (Point_key (origin shape')) with (Point_key (origin shape)).
    rewrite Htemp. destruct temporary; simpl; by rewrite Hdraw, Hrender. }
  unfold addTerrainShapeToCanvas.
  destruct temporary.
  - eexists _, _.
    etransitivity; [apply (Hprefix (fun shape0 graphics =>
      modify (fun s =>
          set_temporaryGraphics
            (<[Point_key (origin shape0) := {| tshape := shape0; tgraphics := graphics |}]>
               (priv_temporaryGraphics s)) s) ;;
      modify (set_requiresSave (negb true)) ;;
      mret graphics)) |].
    reflexivity.
  - assert (Hname : exists text, _drawTerrainName shape' s2 = Returned text s2).
    { unfold _drawTerrainName. munfold. simpl.
      destruct (terrain_pixelValue (terrainObj s t)) as [v|] eqn:Hv; simpl; [| eauto].
      destruct (truthy v) eqn:Htv; simpl; [| eauto].
      apply truthy_true in Htv. destruct (Hbound v eq_refl Htv) as [t' Ht'].
      rewrite Hs2m, Ht'. eauto. }
    destruct Hname as [text Hname].
    assert (Henq : forall obj, exists s3, queue_enqueue (layer shape') obj s2 = Returned tt s3).
    { intros obj. unfold queue_enqueue. munfold.
      rewrite Array_get_nat by done. simpl. rewrite Hs2q, Hq. eauto. }
    destruct (Henq {| qshape := shape'; qgraphics := g; qtext := text |}) as [s3 Hs3].
    eexists _, _.
    etransitivity; [apply (Hprefix (fun shape0 graphics =>
      (text ← _drawTerrainName shape0;
       queue_enqueue (layer shape0)
         {| qshape := shape0; qgraphics := graphics; qtext := text |}) ;;
      modify (set_requiresSave (negb false)) ;;
      mret graphics)) |].
    munfold. rewrite Hname, Hs3. reflexivity.
Qed.

(** C10.  [addTerrainShapeToCanvas] and the requires-save flag.  A
    temporary shape is never enqueued, whether the call returns or throws.
    When the call returns, [_requiresSave] is the negation of [temporary],
    whatever it was before; a temporary shape is then held in the
    temporary-graphics map under its origin and the queues are as before,
    while a permanent shape ends the queue of the toolbar's current layer
    and the temporary-graphics map is as before.  The call does return
    when the terrain is already in the scene with its pixel value bound,
    the current layer exists and no temporary graphics sits at the origin. *)
Theorem addTerrainShapeToCanvas_requiresSave_is_not_temporary
    (s : TerrainLayer) (shape : Shape) (t : Terrain) (temporary : bool) :
  (temporary = true ->
   _shapeQueueArray (stateOf (addTerrainShapeToCanvas shape t temporary s))
   = _shapeQueueArray s)
  /\ (forall g s',
        addTerrainShapeToCanvas shape t temporary s = Returned g s' ->
        let shape' :=
          Shape_setLayer
            (Shape_setPixelValue shape (terrain_pixelValue (terrainObj s' t)))
            (currentLayer s) in
        _requiresSave s' = negb temporary
        /\ drawn g = shape'
        /\ (if temporary
            then _shapeQueueArray s' = _shapeQueueArray s
                 /\ priv_temporaryGraphics s'
                    = <[Point_key (origin shape) :=
                          {| tshape := shape'; tgraphics := g |}]>
                        (priv_temporaryGraphics s)
            else priv_temporaryGraphics s' = priv_temporaryGraphics s
                 /\ exists q text,
                      0 <= currentLayer s
                      /\ _shapeQueueArray s !! Z.to_nat (currentLayer s) = Some q
                      /\ _shapeQueueArray s'
                         = <[Z.to_nat (currentLayer s) :=
                               q ++ [{| qshape := shape'; qgraphics := g;
                                        qtext := text |}]]>
                             (_shapeQueueArray s)))
  /\ (hasTerrainId s (terrain_id (terrainObj s t)) = true ->
      0 <= currentLayer s ->
      is_Some (_graphicsLayers s !! Z.to_nat (currentLayer s)) ->
      is_Some (_shapeQueueArray s !! Z.to_nat (currentLayer s)) ->
      priv_temporaryGraphics s !! Point_key (origin shape) = None ->
      (forall v, terrain_pixelValue (terrainObj s t) = Some v -> v <> 0 ->
                 is_Some (sceneMap s !! v)) ->
      exists g s', addTerrainShapeToCanvas shape t temporary s = Returned g s').
Proof.
  split_and!.
  - intros ->.
    by apply (addTerrainShapeToCanvas_temporary_queues shape t (_shapeQueueArray s) s).
  - intros g s' Hret.
    apply (wlp_returned _ _ _ _ _ (addTerrainShapeToCanvas_returned shape t temporary s) Hret).
  - apply addTerrainShapeToCanvas_returns.
Qed.

(* ===================================================================== *)
(** ** Anchors of terrain levels *)
(* ===================================================================== *)

(** [getAnchorElevation] switches on a property the level does not have:
    it returns [undefined] for every level and location. *)
Lemma getAnchorElevation_undefined (tl : TerrainLevel) (location : option Point)
    (s : TerrainLayer) :
  getAnchorElevation tl location s = Returned JsUndefined s.
Proof. reflexivity. Qed.

(** With an [undefined] anchor both ends of the range are [NaN], and no
    elevation lies between them. *)
Lemma activeAt_false (tl : TerrainLevel) (elevation : Z) (location : option Point)
    (s : TerrainLayer) :
  activeAt tl elevation location s
  = match terrain tl with
    | Some _ => Returned false s
    | None => Thrown TypeError s
    end.
Proof.
  unfold activeAt, elevationRange. munfold.
  rewrite getAnchorElevation_undefined.
  destruct (terrain tl) as [t|]; [| done]. simpl.
  unfold _elevationMinMaxForAnchorElevation.
  by destruct (terrain_minOffset (terrainObj s t)), (terrain_maxOffset (terrainObj s t)).
Qed.

Lemma filterM_activeAt (levels : list TerrainLevel) (elevation : Z)
    (location : option Point) (s : TerrainLayer) :
  filterM (fun t => activeAt t elevation location) levels s = Returned [] s
  \/ filterM (fun t => activeAt t elevation location) levels s = Thrown TypeError s.
Proof.
  induction levels as [|tl levels IH]; simpl; [by left |].
  munfold. rewrite activeAt_false.
  destruct (terrain tl); [| by right].
  destruct IH as [-> | ->]; [by left | by right].
Qed.

(** [activeTerrainLevelsAt] never returns an entry. *)
Lemma activeTerrainLevelsAt_empty (pt : Point) (elevation : option Z)
    (s : TerrainLayer) :
  valueOf (activeTerrainLevelsAt pt elevation s) = Some []
  \/ valueOf (activeTerrainLevelsAt pt elevation s) = None.
Proof.
  unfold activeTerrainLevelsAt. munfold.
  destruct (terrainLevelsAt pt s) as [levels s1|e s1]; [| by right].
  destruct (filterM_activeAt levels (default 0 elevation) (Some pt) s1) as [-> | ->];
    [by left | by right].
Qed.

(* ===================================================================== *)
(** ** Rendering: which layers go to which texture *)
(* ===================================================================== *)

Lemma bitnot_truthy (l : Z) : truthy (bitnot l) = negb (l =? -1).
Proof.
  unfold truthy, bitnot, Z.lnot. f_equal.
  destruct (l =? -1) eqn:Hl.
  - apply Z.eqb_eq in Hl. by subst.
  - apply Z.eqb_neq in Hl. apply Z.eqb_neq. lia.
Qed.

(** Complementing an integer of [-2^31, 2^32 - 1) is truthy exactly when
    complementing its 32-bit wrap is: the tests [if ( ~layer )] of the
    model are those of the code for these layer numbers. *)
Lemma bitnot_ToInt32 (x : Z) :
  - 2 ^ 31 <= x < 2 ^ 32 - 1 ->
  truthy (bitnot x) = truthy (Z.lnot (ToInt32 x))
  /\ (x < 2 ^ 31 -> bitnot x = Z.lnot (ToInt32 x)).
Proof.
  intros Hx. unfold ToInt32.
  destruct (Z_lt_ge_dec x (2 ^ 31)) as [Hsmall | Hlarge].
  - rewrite Z.mod_small by lia.
    replace (x + 2 ^ 31 - 2 ^ 31) with x by lia. done.
  - split; [| lia].
    replace ((x + 2 ^ 31) mod 2 ^ 32) with (x + 2 ^ 31 - 2 ^ 32).
    + unfold truthy, bitnot, Z.lnot. f_equal.
      transitivity false; [| symmetry]; apply Z.eqb_neq; lia.
    + apply (Z.mod_unique_pos _ _ 1); lia.
Qed.

(** The plan for one layer: the layers of its texture, in the order of
    the indices, the first of them with the clear flag. *)
Lemma renderPlan_one (l T : Z) (indices : list Z) (clear : bool) :
  l <> -1 ->
  renderPlan l T indices clear
  = match filter (fun i => i / 3 = T) indices with
    | [] => []
    | i :: rest => (i, T, clear) :: ((fun i => (i, T, false)) <$> rest)
    end.
Proof.
  intros Hl. revert clear. induction indices as [|i indices IH]; intros clear; [done |].
  simpl. rewrite bitnot_truthy. replace (l =? -1) with false by (symmetry; by apply Z.eqb_neq).
  simpl. unfold floor_div3. rewrite filter_cons.
  destruct (decide (i / 3 = T)) as [Hi|Hi].
  - replace (i / 3 =? T) with true by (symmetry; by apply Z.eqb_eq).
    simpl. rewrite Hi. f_equal. rewrite IH.
    by destruct (filter _ indices).
  - replace (i / 3 =? T) with false by (symmetry; by apply Z.eqb_neq).
    simpl. apply IH.
Qed.

(** The plan for all layers: every layer, the clear flag on the first
    only. *)
Lemma renderPlan_all (T : Z) (indices : list Z) (clear : bool) :
  renderPlan (-1) T indices clear
  = match indices with
    | [] => []
    | i :: rest => (i, i / 3, clear) :: ((fun i => (i, i / 3, false)) <$> rest)
    end.
Proof.
  destruct indices as [|i indices]; [done |]. simpl. f_equal.
  induction indices as [|j indices IH]; [done |]. simpl. by rewrite IH.
Qed.

(** Render calls into one texture leave the other textures alone. *)
Lemma renderCalls_other (T : Z) (calls : list (Z * Z * bool)) (s : TerrainLayer) :
  (forall call, call ∈ calls -> call.1.2 = T) ->
  exists tex,
    forOf calls renderCall s = Returned tt (set_terrainTextures tex s)
    /\ length tex = length (_terrainTextures s)
    /\ forall j, j <> Z.to_nat T -> tex !! j = _terrainTextures s !! j.
Proof.
  revert s. induction calls as [|call calls IH]; intros s Hcalls; simpl.
  - exists (_terrainTextures s). by destruct s.
  - assert (H1 : exists tex1,
               renderCall call s = Returned tt (set_terrainTextures tex1 s)
               /\ length tex1 = length (_terrainTextures s)
               /\ forall j, j <> Z.to_nat T -> tex1 !! j = _terrainTextures s !! j).
    { pose proof (Hcalls call (list_elem_of_here _ _)) as HT.
      destruct call as [[i texIdx] clear]. simpl in HT. subst texIdx.
      unfold renderCall. munfold.
      destruct (Array_get (_graphicsLayers s) i) as [c|];
        [destruct (Array_get (_terrainTextures s) T) as [t|] |].
      - eexists. split_and!; [reflexivity | by rewrite length_insert |].
        intros j Hj. simpl. by rewrite list_lookup_insert_ne.
      - exists (_terrainTextures s). by destruct s.
      - exists (_terrainTextures s). by destruct s. }
    destruct H1 as (tex1 & E1 & L1 & O1).
    destruct (IH (set_terrainTextures tex1 s)) as (tex2 & E2 & L2 & O2).
    { intros c Hc. apply Hcalls. by right. }
    exists tex2. munfold. rewrite E1, E2. simpl in *. split_and!; [done | congruence |].
    intros j Hj. by rewrite O2, O1.
Qed.

(** Rendering one layer: the textures other than its own are untouched. *)
Lemma renderTerrain_layer_frame (s : TerrainLayer) (l : Z) :
  0 <= l ->
  exists tex,
    renderTerrain l s
    = Returned tt
        (set_pixelCacheDirty (Uint8Array_fill (priv_pixelCacheDirty s) 1)
           (set_terrainTextures tex s))
    /\ length tex = length (_terrainTextures s)
    /\ forall j, j <> Z.to_nat (l / 3) -> tex !! j = _terrainTextures s !! j.
Proof.
  intros Hl.
  set (n := Z.of_nat (length (_graphicsLayers s))).
  destruct (renderCalls_other (l / 3)
              (renderPlan l (floor_div3 l) (seqZ 0 n) true) s)
    as (tex & E & L & O).
  { intros call Hcall. rewrite renderPlan_one in Hcall by lia.
    unfold floor_div3 in Hcall.
    destruct (filter _ (seqZ 0 n)) as [|i rest]; [by apply elem_of_nil in Hcall |].
    apply elem_of_cons in Hcall as [-> | Hcall]; [done |].
    apply list_elem_of_fmap in Hcall as (j & -> & _). done. }
  exists tex. split_and!; [| done | done].
  unfold renderTerrain. munfold. fold n. rewrite E, clearPixelCacheArray_dirty.
  simpl. replace (l =? -1) with false by (symmetry; apply Z.eqb_neq; lia). done.
Qed.

(** X1.  [renderTerrain(l)] for a layer number [l] from 0 to below
    [2^32 - 1] renders exactly the layers of texture [floor(l / 3)], in
    increasing order, the first of them with the clear flag and the others
    without; it returns, every other texture is left as it was, the number
    of textures is kept, every dirty bit is set and nothing else of the
    layer changes.  With the six layers and the two textures of the
    layer: for [l] from 0 to 2 the first texture is cleared and rendered
    anew from the containers of layers 0 to 2 and the second is kept; for
    [l] from 3 to 5 the second is cleared and rendered anew from those of
    layers 3 to 5 and the first is kept; for a greater [l] nothing is
    rendered, and the dirty bits are set all the same. *)
Theorem renderTerrain_layer_renders_its_texture_only (s : TerrainLayer) (l : Z) :
  0 <= l < 2 ^ 32 - 1 ->
  let n := Z.of_nat (length (_graphicsLayers s)) in
  renderPlan l (floor_div3 l) (seqZ 0 n) true
  = match filter (fun i => i / 3 = l / 3) (seqZ 0 n) with
    | [] => []
    | i :: rest => (i, l / 3, true) :: ((fun i => (i, l / 3, false)) <$> rest)
    end
  /\ (exists tex,
        renderTerrain l s
        = Returned tt
            (set_pixelCacheDirty (Uint8Array_fill (priv_pixelCacheDirty s) 1)
               (set_terrainTextures tex s))
        /\ length tex = length (_terrainTextures s)
        /\ forall j, j <> Z.to_nat (l / 3) -> tex !! j = _terrainTextures s !! j)
  /\ (forall c0 c1 c2 c3 c4 c5 t0 t1,
        _graphicsLayers s = [c0; c1; c2; c3; c4; c5] ->
        _terrainTextures s = [t0; t1] ->
        renderTerrain l s
        = Returned tt
            (set_pixelCacheDirty (Uint8Array_fill (priv_pixelCacheDirty s) 1)
               (set_terrainTextures
                  (if l <=? 2
                   then [render c2 (render c1 (render c0 t0 true) false) false; t1]
                   else if l <=? 5
                   then [t0; render c5 (render c4 (render c3 t1 true) false) false]
                   else [t0; t1])
                  s))).
Proof.
  intros Hl n. split_and!.
  - apply renderPlan_one. lia.
  - apply renderTerrain_layer_frame. lia.
  - intros c0 c1 c2 c3 c4 c5 t0 t1 Hg Ht.
    destruct (Z_le_gt_dec l 5) as [Hsix | Hbeyond].
    + rewrite (renderTerrain_six_layers s l c0 c1 c2 c3 c4 c5 t0 t1) by (done || lia).
      destruct (l <=? 2) eqn:H2; [done |].
      by rewrite (proj2 (Z.leb_le l 5) Hsix).
    + replace (l <=? 2) with false by (symmetry; apply Z.leb_gt; lia).
      replace (l <=? 5) with false by (symmetry; apply Z.leb_gt; lia).
      unfold renderTerrain. munfold. rewrite Hg.
      change (Z.of_nat (length [c0; c1; c2; c3; c4; c5])) with 6.
      rewrite renderPlan_one by lia.
      assert (Hnone : filter (fun i => i / 3 = floor_div3 l) (seqZ 0 6) = []).
      { apply elem_of_nil_inv. intros i Hi.
        apply list_elem_of_filter in Hi as [Hi Hin].
        apply elem_of_seqZ in Hin. unfold floor_div3 in Hi.
        assert (i / 3 < 2) by (apply Z.div_lt_upper_bound; lia).
        assert (2 <= l / 3) by (apply Z.div_le_lower_bound; lia).
        lia. }
      rewrite Hnone. simpl. rewrite clearPixelCacheArray_dirty.
      replace (l =? -1) with false by (symmetry; apply Z.eqb_neq; lia).
      simpl. rewrite <- Ht. by destruct s.
Qed.

(** X2.  [renderTerrain()] with the default layer [-1] renders every
    layer into its texture with the clear flag on the very first call
    only: of six layers and two textures, the first texture is cleared and
    redrawn from layers 0 to 2, the second is drawn over by layers 3 to 5
    without being cleared.  No dirty bit changes. *)
Theorem renderTerrain_all_layers_clears_first_texture_only
    (s : TerrainLayer) (c0 c1 c2 c3 c4 c5 : Container) (t0 t1 : Texture) :
  _graphicsLayers s = [c0; c1; c2; c3; c4; c5] ->
  _terrainTextures s = [t0; t1] ->
  renderPlan (-1) (floor_div3 (-1)) (seqZ 0 6) true
  = [(0, 0, true); (1, 0, false); (2, 0, false);
     (3, 1, false); (4, 1, false); (5, 1, false)]
  /\ renderTerrain (-1) s
     = Returned tt
         (set_pixelCacheDirty (priv_pixelCacheDirty s)
            (set_terrainTextures
               [render c2 (render c1 (render c0 t0 true) false) false;
                render c5 (render c4 (render c3 t1 false) false) false] s)).
Proof.
  intros Hg Ht. split; [reflexivity |].
  destruct s; simpl in *; subst.
  reflexivity.
Qed.

(* ===================================================================== *)
(** ** Reads of the cache, and what clearing and importing leave in it *)
(* ===================================================================== *)

Lemma set_pixelCacheDirty_same (s : TerrainLayer) :
  set_pixelCacheDirty (priv_pixelCacheDirty s) s = s.
Proof. by destruct s. Qed.

(** With no dirty bit set a read is a plain field access. *)
Lemma pixelCache_clean (s : TerrainLayer) :
  truthy_opt (pixelCacheDirty s) = false ->
  pixelCache s = Returned (priv_pixelCache s) s.
Proof. intros Hd. unfold pixelCache. munfold. by rewrite Hd. Qed.

Lemma terrainLayersAt_clean (s : TerrainLayer) (pt : Point) (pc : PixelCache) :
  priv_initialized s = true ->
  truthy_opt (pixelCacheDirty s) = false ->
  priv_pixelCache s = Some pc ->
  _terrainLayersAt pt s
  = Returned (Some (cache_terrainLayersAt pc (pt_x pt) (pt_y pt))) s.
Proof.
  intros Hi Hd Hpc. unfold _terrainLayersAt. munfold.
  rewrite Hi. simpl. by rewrite (pixelCache_clean s Hd), Hpc.
Qed.

(** The answer of [_terrainLayersAt] is a function of the cache fields. *)
Lemma terrainLayersAt_cacheFields (s s' : TerrainLayer) (pt : Point) (pc : PixelCache) :
  cacheFields s' = cacheFields s ->
  priv_initialized s = true ->
  truthy_opt (pixelCacheDirty s) = false ->
  priv_pixelCache s = Some pc ->
  _terrainLayersAt pt s'
  = Returned (Some (cache_terrainLayersAt pc (pt_x pt) (pt_y pt))) s'.
Proof.
  unfold cacheFields. intros [= Hi Ha Hp Hd] Hinit Hclean Hpc.
  apply terrainLayersAt_clean; [congruence | | congruence].
  unfold pixelCacheDirty in *. by rewrite Hd.
Qed.

Lemma renderTerrain_all_observes {X} (f : TerrainLayer -> X) (v : X) :
  (forall x s, f (set_terrainTextures x s) = f s) ->
  preserves (observes f v) (renderTerrain (-1)).
Proof.
  intros Ht s Hs. destruct (renderTerrain_frame (-1) s) as (tex & -> & _).
  unfold observes in *. simpl.
  change (set_pixelCacheDirty (priv_pixelCacheDirty s) (set_terrainTextures tex s))
    with (set_pixelCacheDirty (priv_pixelCacheDirty (set_terrainTextures tex s))
            (set_terrainTextures tex s)).
  by rewrite set_pixelCacheDirty_same, Ht.
Qed.

Lemma clearPixelCacheArray_all_observes {X} (f : TerrainLayer -> X) (v : X) :
  preserves (observes f v) (_clearPixelCacheArray (-1)).
Proof.
  intros s Hs. rewrite clearPixelCacheArray_dirty. simpl.
  by rewrite set_pixelCacheDirty_same.
Qed.

Lemma queue_enqueue_observes {X} (f : TerrainLayer -> X) (v : X) l obj :
  (forall x s, f (set_shapeQueueArray x s) = f s) ->
  preserves (observes f v) (queue_enqueue l obj).
Proof.
  intros Hq. unfold queue_enqueue. apply preserves_get_bind. intros s Hs.
  destruct (Array_get (_shapeQueueArray s) l); [| done].
  unfold observes in *. simpl. by rewrite Hq.
Qed.

Lemma queue_clear_observes {X} (f : TerrainLayer -> X) (v : X) l :
  (forall x s, f (set_shapeQueueArray x s) = f s) ->
  preserves (observes f v) (queue_clear l).
Proof.
  intros Hq. unfold queue_clear. apply preserves_get_bind. intros s Hs.
  destruct (Array_get (_shapeQueueArray s) l); [| done].
  unfold observes in *. simpl. by rewrite Hq.
Qed.

Lemma drawTerrainName_observes {X} (f : TerrainLayer -> X) (v : X) shape :
  preserves (observes f v) (_drawTerrainName shape).
Proof. intros s Hs. by rewrite drawTerrainName_pure. Qed.

Lemma new_TerrainObj_observes {X} (f : TerrainLayer -> X) (v : X) o :
  (forall x s, f (set_terrains x s) = f s) ->
  (forall x s, f (set_nextObject x s) = f s) ->
  preserves (observes f v) (new_TerrainObj o).
Proof.
  intros Ht Hn s Hs. unfold new_TerrainObj, observes in *. simpl.
  by rewrite Hn, Ht.
Qed.

(** What an import leaves alone: whatever does not depend on the scene
    map, the terrains, the graphics, the queues or the textures. *)
Lemma importFromJSON_observes {X} (f : TerrainLayer -> X) (v : X) data :
  (forall x s, f (set_sceneMap x s) = f s) ->
  (forall x s, f (set_requiresSave x s) = f s) ->
  (forall x s, f (set_terrains x s) = f s) ->
  (forall x s, f (set_nextObject x s) = f s) ->
  (forall x s, f (set_graphicsLayers x s) = f s) ->
  (forall x s, f (set_shapeQueueArray x s) = f s) ->
  (forall x s, f (set_terrainTextures x s) = f s) ->
  preserves (observes f v) (importFromJSON data).
Proof.
  intros Hm Hr Ht Hn Hg Hq Hx. unfold importFromJSON, new_Terrain, sceneMap_set.
  pbind. { apply preserves_modify. intros s Hs. unfold observes in *. by rewrite Hm. }
  pbind. { by apply new_TerrainObj_observes. }
  pbind. { apply preserves_modify. intros s Hs. unfold observes in *. by rewrite Hm. }
  pbind. { by apply Terrain_addToScene_observes. }
  pbind.
  { apply preserves_forOf. intros [key id] _.
    destruct (negb (truthy key)); [apply preserves_ret |].
    pbind. { by apply new_TerrainObj_observes. }
    pbind. { apply preserves_modify. intros s Hs. unfold observes in *. by rewrite Hm. }
    by apply Terrain_addToScene_observes. }
  pbind. { apply preserves_modify. intros s Hs. unfold observes in *. by rewrite Hg. }
  pbind. { apply preserves_gets. }
  pbind.
  { apply preserves_forOf. intros i _.
    pbind. { by apply queue_clear_observes. }
    destruct (Array_get (data_shapeQueueArray data) i); [| apply preserves_throw].
    apply preserves_forOf. intros shape _.
    apply preserves_get_bind. intros s Hs.
    pbind. { by apply drawTerrainShape_observes. }
    pbind. { apply drawTerrainName_observes. }
    by apply queue_enqueue_observes. }
  pbind. { apply clearPixelCacheArray_all_observes. }
  by apply renderTerrain_all_observes.
Qed.

(** X3.  A cache read that has returned need not be repeated: a second
    read returns the same merged cache and changes nothing, a read of the
    array of layer caches then changes nothing either, and reading the
    array first would have left the layer in the same state.  The first
    read touched nothing outside the cache. *)
Theorem pixelCache_second_read_changes_nothing
    (s s' : TerrainLayer) (r : option PixelCache) :
  pixelCache s = Returned r s' ->
  pixelCache s' = Returned r s'
  /\ pixelCacheArray s' = Returned (priv_pixelCacheArray s') s'
  /\ pixelCacheArray s = Returned (priv_pixelCacheArray s') s'
  /\ sameOutsideCache s s'.
Proof.
  intros Hread.
  pose proof (pixelCache_never_stale s s' r Hread) as Hclean.
  pose proof (pixelCache_frame s s (sameOutsideCache_refl s)) as Hframe.
  rewrite Hread in Hframe. simpl in Hframe.
  assert (Hr : r = priv_pixelCache s' /\ pixelCacheArray s = Returned (priv_pixelCacheArray s') s').
  { revert Hread. unfold pixelCache, pixelCacheArray. munfold.
    destruct (truthy_opt (pixelCacheDirty s)).
    - destruct (refreshPixelCache s) as [[] s1|e s1]; [| done].
      by intros [= <- <-].
    - by intros [= <- <-]. }
  destruct Hr as [-> Harr]. split_and!; [| | done | done].
  - by apply pixelCache_clean.
  - unfold pixelCacheArray. munfold. by rewrite Hclean.
Qed.

(** X4.  [#initializePixelCache()] builds the two layer caches from the
    textures as they are and the merged cache from those two; once it has
    run on a layer with its two dirty bits, a cache read returns a cache
    and leaves both bits clear. *)
Theorem initializePixelCache_makes_reads_return (s : TerrainLayer) (d0 d1 : Z) :
  priv_pixelCacheDirty s = [d0; d1] ->
  let c0 := fromTexture (_terrainTextures s !! 0%nat) in
  let c1 := fromTexture (_terrainTextures s !! 1%nat) in
  exists s0,
    initializePixelCache s = Returned tt s0
    /\ priv_pixelCacheArray s0 = [c0; c1]
    /\ priv_pixelCache s0 = Some (fromTerrainLayerCaches (Some c0) (Some c1))
    /\ priv_pixelCacheDirty s0 = [d0; d1]
    /\ exists pc s1,
         pixelCache s0 = Returned (Some pc) s1
         /\ priv_pixelCacheDirty s1 = [0; 0].
Proof.
  intros Hd c0 c1.
  eexists. split; [reflexivity |].
  set (s0 := set_pixelCache _ _).
  assert (Harr : priv_pixelCacheArray s0 = [c0; c1]) by reflexivity.
  assert (Hpc : priv_pixelCache s0 = Some (fromTerrainLayerCaches (Some c0) (Some c1)))
    by reflexivity.
  assert (Hd0 : priv_pixelCacheDirty s0 = [d0; d1]) by exact Hd.
  split_and!; [done | done | done |].
  destruct (pixelCache_read s0 c0 c1 _ d0 d1 Harr Hpc Hd0)
    as (s1 & Hread & _ & _ & Hdirty & _).
  eauto.
Qed.

(** X5.  [clearData()] returns; it empties every shape queue and every
    layer container and resets [_requiresSave], so no pixel value is in
    the scene any more; it keeps the scene map, the terrains and the
    temporary graphics; and it leaves the pixel cache and its dirty bits
    exactly as they were. *)
Theorem clearData_empties_the_queues_and_keeps_the_cache (s : TerrainLayer) :
  exists s',
    clearData s = Returned tt s'
    /\ _shapeQueueArray s' = (fun _ => []) <$> _shapeQueueArray s
    /\ _graphicsLayers s' = removeChildren <$> _graphicsLayers s
    /\ _requiresSave s' = false
    /\ (forall v, isPixelValueInScene s' v = false)
    /\ sceneMap s' = sceneMap s
    /\ terrains s' = terrains s
    /\ priv_temporaryGraphics s' = priv_temporaryGraphics s
    /\ cacheFields s' = cacheFields s.
Proof.
  unfold clearData, _clearData. munfold.
  rewrite clearPixelCacheArray_dirty. simpl.
  match goal with
  | |- context [renderTerrain (-1) ?s1] =>
      destruct (renderTerrain_frame (-1) s1) as (tex & -> & _)
  end.
  eexists. split; [reflexivity |]. simpl. split_and!; try done.
  intros v. unfold isPixelValueInScene. simpl.
  destruct (negb (truthy v) || (v <? 0) || (31 <? v)); [done |].
  induction (_shapeQueueArray s) as [|q qs IH]; [done |]. simpl. exact IH.
Qed.

(** X6.  After [clearData()] on an initialised layer whose cache was
    clean, the point queries answer as before the clearing: the pixel
    values of the layers at a point, and the terrain levels made of them,
    are still those of the cleared shapes. *)
Theorem clearData_leaves_a_clean_cache_stale
    (s : TerrainLayer) (pc : PixelCache) (pt : Point) :
  priv_initialized s = true ->
  truthy_opt (pixelCacheDirty s) = false ->
  priv_pixelCache s = Some pc ->
  let s' := stateOf (clearData s) in
  let layers := cache_terrainLayersAt pc (pt_x pt) (pt_y pt) in
  _terrainLayersAt pt s = Returned (Some layers) s
  /\ _terrainLayersAt pt s' = Returned (Some layers) s'
  /\ valueOf (terrainLevelsAt pt s') = valueOf (terrainLevelsAt pt s)
  /\ valueOf (terrainLevelsAt pt s') = Some (_layersToTerrainLevels s layers).
Proof.
  intros Hi Hd Hpc s' layers.
  assert (Hs' : cacheFields s' = cacheFields s /\ sceneMap s' = sceneMap s
                /\ controls_currentTerrain s' = controls_currentTerrain s).
  { subst s'. unfold clearData, _clearData. munfold.
    rewrite clearPixelCacheArray_dirty. simpl.
    match goal with
    | |- context [renderTerrain (-1) ?s1] =>
        destruct (renderTerrain_frame (-1) s1) as (tex & -> & _)
    end.
    done. }
  destruct Hs' as (Hc & Hm & Hct). clearbody s'.
  pose proof (terrainLayersAt_clean s pt pc Hi Hd Hpc) as H0.
  pose proof (terrainLayersAt_cacheFields s s' pt pc Hc Hi Hd Hpc) as H1.
  assert (Hi' : priv_initialized s' = true).
  { unfold cacheFields in Hc. injection Hc as -> _ _ _. done. }
  assert (Hlevels : forall ls, _layersToTerrainLevels s' ls = _layersToTerrainLevels s ls).
  { intros ls. unfold _layersToTerrainLevels. generalize 0.
    induction ls as [|px ls IH]; intros base; [done |]. simpl.
    rewrite IH. unfold new_TerrainLevel, terrainForPixel. by rewrite Hm, Hct. }
  split_and!; [done | done | |].
  - unfold terrainLevelsAt. munfold. rewrite Hi, Hi'. simpl.
    rewrite H0, H1. simpl. by rewrite Hlevels.
  - unfold terrainLevelsAt. munfold. rewrite Hi'. simpl.
    rewrite H1. simpl. by rewrite Hlevels.
Qed.

(** X7.  [importFromJSON] leaves the pixel cache and its dirty bits as
    they were, whether it returns or stops on an exception: its two calls
    to mark the cache dirty use the default layer [-1], which marks
    nothing.  On an initialised layer whose cache was clean, the pixel
    values reported at a point after the import are those cached before
    it. *)
Theorem importFromJSON_leaves_a_clean_cache_stale
    (s : TerrainLayer) (data : SceneData) (pc : PixelCache) (pt : Point) :
  priv_initialized s = true ->
  truthy_opt (pixelCacheDirty s) = false ->
  priv_pixelCache s = Some pc ->
  let s' := stateOf (importFromJSON data s) in
  cacheFields s' = cacheFields s
  /\ _terrainLayersAt pt s'
     = Returned (Some (cache_terrainLayersAt pc (pt_x pt) (pt_y pt))) s'
  /\ valueOf (_terrainLayersAt pt s') = valueOf (_terrainLayersAt pt s).
Proof.
  intros Hi Hd Hpc s'.
  assert (Hc : cacheFields s' = cacheFields s).
  { by apply (importFromJSON_observes cacheFields (cacheFields s) data). }
  clearbody s'. split; [done |].
  rewrite (terrainLayersAt_cacheFields s s' pt pc Hc Hi Hd Hpc).
  by rewrite (terrainLayersAt_clean s pt pc Hi Hd Hpc).
Qed.

(* ===================================================================== *)
(** ** The terrain under the pointer and the active terrains *)
(* ===================================================================== *)

(** The level of a given layer among the levels built from the pixel
    values of the layers. *)
Lemma find_layersToTerrainLevels_from (s : TerrainLayer) (c : Z) (layers : list Z) :
  forall base,
    List.find (fun tl => level tl =? c) (layersToTerrainLevels_from s base layers)
    = if truthy_opt (Array_get layers (c - base))
      then Some (new_TerrainLevel s (terrainForPixel s (Array_get layers (c - base))) c)
      else None.
Proof.
  induction layers as [|px layers IH]; intros base.
  { simpl. unfold Array_get. by destruct (0 <=? c - base). }
  assert (Hnext : c <> base ->
            Array_get (px :: layers) (c - base) = Array_get layers (c - (base + 1))).
  { intros Hne. unfold Array_get.
    destruct (0 <=? c - base) eqn:H0.
    - apply Z.leb_le in H0.
      replace (0 <=? c - (base + 1)) with true by (symmetry; apply Z.leb_le; lia).
      replace (Z.to_nat (c - base)) with (S (Z.to_nat (c - (base + 1)))) by lia.
      done.
    - apply Z.leb_gt in H0.
      by replace (0 <=? c - (base + 1)) with false by (symmetry; apply Z.leb_gt; lia). }
  assert (Hhere : Array_get (px :: layers) (base - base) = Some px).
  { by rewrite Z.sub_diag. }
  simpl. destruct (truthy px) eqn:Hpx; simpl.
  - destruct (decide (c = base)) as [-> | Hne].
    + rewrite Z.eqb_refl, Hhere. simpl. by rewrite Hpx.
    + replace (base =? c) with false by (symmetry; apply Z.eqb_neq; lia).
      by rewrite IH, Hnext.
  - destruct (decide (c = base)) as [-> | Hne].
    + rewrite IH, Hhere. simpl. rewrite Hpx.
      unfold Array_get.
      by replace (0 <=? base - (base + 1)) with false by (symmetry; apply Z.leb_gt; lia).
    + by rewrite IH, Hnext.
Qed.

(** X8.  [#terrainAt(pt)], the terrain shown under the pointer.  Before
    initialisation it throws a type error, where [terrainLevelsAt]
    returns an empty array.  On an initialised layer whose caches exist it
    returns the entry of [terrainLevelsAt(pt)] for the layer selected in
    the toolbar, or [undefined] when there is none, leaving the layer in
    the same state as that query. *)
Theorem terrainAt_is_the_level_of_the_current_layer
    (s : TerrainLayer) (pt : Point)
    (c0 c1 : LayerCache) (pc : PixelCache) (d0 d1 : Z) :
  priv_pixelCacheArray s = [c0; c1] ->
  priv_pixelCache s = Some pc ->
  priv_pixelCacheDirty s = [d0; d1] ->
  (priv_initialized s = false ->
     terrainAt pt s = Thrown TypeError s
     /\ terrainLevelsAt pt s = Returned [] s)
  /\ (priv_initialized s = true ->
        exists levels s1,
          terrainLevelsAt pt s = Returned levels s1
          /\ terrainAt pt s
             = Returned (List.find (fun tl => level tl =? currentLayer s) levels) s1).
Proof.
  intros Harr Hpc Hdirty. split.
  - intros Hinit. unfold terrainAt, terrainLevelsAt, _terrainLayersAt. munfold.
    by rewrite Hinit.
  - intros Hinit.
    destruct (pixelCache_read s c0 c1 pc d0 d1 Harr Hpc Hdirty)
      as (s1 & Hread & _ & _ & _ & Hframe).
    set (pc' := if truthy d0 || truthy d1 then _ else pc) in Hread.
    set (layers := cache_terrainLayersAt pc' (pt_x pt) (pt_y pt)).
    assert (Hlayers : _terrainLayersAt pt s = Returned (Some layers) s1).
    { unfold _terrainLayersAt. munfold. rewrite Hinit. simpl. by rewrite Hread. }
    exists (_layersToTerrainLevels s1 layers), s1. split.
    + unfold terrainLevelsAt. munfold. rewrite Hinit. simpl. by rewrite Hlayers.
    + unfold terrainAt. munfold. rewrite Hlayers.
      assert (Hcl : currentLayer s1 = currentLayer s) by apply Hframe.
      unfold _layersToTerrainLevels.
      rewrite find_layersToTerrainLevels_from, Z.sub_0_r, Hcl.
      by destruct (truthy_opt (Array_get layers (currentLayer s))).
Qed.

Lemma filterM_activeAt_defined (levels : list TerrainLevel) (elevation : Z)
    (location : option Point) (s : TerrainLayer) :
  (forall tl, tl ∈ levels -> is_Some (terrain tl)) ->
  filterM (fun t => activeAt t elevation location) levels s = Returned [] s.
Proof.
  induction levels as [|tl levels IH]; intros Hall; [done |].
  simpl. munfold. rewrite activeAt_false.
  destruct (Hall tl (list_elem_of_here _ _)) as [t ->].
  rewrite IH; [done |]. intros tl' Htl'. apply Hall. by right.
Qed.

Lemma filterM_activeAt_undefined (levels : list TerrainLevel) (elevation : Z)
    (location : option Point) (s : TerrainLayer) (tl : TerrainLevel) :
  tl ∈ levels -> terrain tl = None ->
  filterM (fun t => activeAt t elevation location) levels s = Thrown TypeError s.
Proof.
  intros Htl Hnone.
  induction levels as [|tl' levels IH]; [by apply elem_of_nil in Htl |].
  simpl. munfold. rewrite activeAt_false.
  destruct (terrain tl') as [t|] eqn:Ht'; [| done].
  apply elem_of_cons in Htl as [-> | Htl]; [congruence |].
  by rewrite IH.
Qed.

(** X9.  [activeTerrainLevelsAt] and [activeTerrainsAt] report no
    terrain, whatever the point and the elevation: on an initialised layer
    whose caches exist, when every level at the point has a terrain they
    return an empty list and an empty set, and when some level has none
    they throw a type error.  The anchor elevation of every level is
    [undefined], so no elevation lies within a range. *)
Theorem activeTerrainsAt_reports_no_terrain
    (s : TerrainLayer) (pt : Point) (elevation : option Z)
    (c0 c1 : LayerCache) (pc : PixelCache) (d0 d1 : Z) :
  priv_initialized s = true ->
  priv_pixelCacheArray s = [c0; c1] ->
  priv_pixelCache s = Some pc ->
  priv_pixelCacheDirty s = [d0; d1] ->
  exists levels s1,
    terrainLevelsAt pt s = Returned levels s1
    /\ ((forall tl, tl ∈ levels -> is_Some (terrain tl)) ->
        activeTerrainLevelsAt pt elevation s = Returned [] s1
        /\ activeTerrainsAt pt elevation s = Returned [] s1)
    /\ (forall tl, tl ∈ levels -> terrain tl = None ->
        activeTerrainLevelsAt pt elevation s = Thrown TypeError s1
        /\ activeTerrainsAt pt elevation s = Thrown TypeError s1).
Proof.
  intros Hinit Harr Hpc Hdirty.
  destruct (pixelCache_read s c0 c1 pc d0 d1 Harr Hpc Hdirty)
    as (s1 & Hread & _).
  set (pc' := if truthy d0 || truthy d1 then _ else pc) in Hread.
  set (layers := cache_terrainLayersAt pc' (pt_x pt) (pt_y pt)).
  assert (Hlevels : terrainLevelsAt pt s
                    = Returned (_layersToTerrainLevels s1 layers) s1).
  { assert (Hlayers : _terrainLayersAt pt s = Returned (Some layers) s1).
    { unfold _terrainLayersAt. munfold. rewrite Hinit. simpl. by rewrite Hread. }
    unfold terrainLevelsAt. munfold. rewrite Hinit. simpl. by rewrite Hlayers. }
  exists (_layersToTerrainLevels s1 layers), s1. split_and!; [done | |].
  - intros Hall. unfold activeTerrainsAt, activeTerrainLevelsAt. munfold.
    by rewrite Hlevels, filterM_activeAt_defined.
  - intros tl Htl Hnone. unfold activeTerrainsAt, activeTerrainLevelsAt. munfold.
    by rewrite Hlevels, (filterM_activeAt_undefined _ _ _ _ tl).
Qed.

(* ===================================================================== *)
(** ** Replacing a terrain, saving, clamping an id *)
(* ===================================================================== *)

(** The first element of a range that satisfies a test. *)
Lemma find_seqZ_first (P : Z -> bool) (v : Z) :
  forall (m : nat) (a n : Z),
    Z.of_nat m = v - a -> v < a + n ->
    P v = true -> (forall k, a <= k < v -> P k = false) ->
    List.find P (seqZ a n) = Some v.
Proof.
  induction m as [|m IH]; intros a n Hm Hn Hv Hbefore.
  - assert (a = v) as -> by lia.
    rewrite seqZ_cons by lia. simpl. by rewrite Hv.
  - rewrite seqZ_cons by lia. simpl.
    rewrite (Hbefore a) by lia.
    apply IH; [lia | lia | done |]. intros k Hk. apply Hbefore. lia.
Qed.

(** X10.  [_replaceTerrainInScene(newTerrain, pixelValue)].  With no
    terrain under the pixel value it throws a type error; with the same
    terrain, or one of the same id, it does nothing.  Otherwise it returns
    with the pixel value bound to the new terrain and every other key of
    the scene map as before, the old terrain's pixel value unassigned and
    [_requiresSave] untouched; the new terrain records that pixel value
    when it is in [0,31] and the terrain sits under no smaller key.
    Pixel value 0 is treated like any other.  (The terrain map and the
    methods of the terrains are those of the spec.) *)
Theorem replaceTerrainInScene_rebinds_the_pixel_value
    (s : TerrainLayer) (newTerrain : Terrain) (value : Z) :
  (sceneMap s !! value = None ->
     _replaceTerrainInScene newTerrain value s = Thrown TypeError s)
  /\ (forall old,
        sceneMap s !! value = Some old ->
        old = newTerrain
        \/ terrain_id (terrainObj s old) = terrain_id (terrainObj s newTerrain) ->
        _replaceTerrainInScene newTerrain value s = Returned tt s)
  /\ (forall old,
        sceneMap s !! value = Some old ->
        old <> newTerrain ->
        terrain_id (terrainObj s old) <> terrain_id (terrainObj s newTerrain) ->
        exists s',
          _replaceTerrainInScene newTerrain value s = Returned tt s'
          /\ sceneMap s' = <[value := newTerrain]> (sceneMap s)
          /\ terrain_pixelValue (terrainObj s' old) = None
          /\ _requiresSave s' = _requiresSave s
          /\ (0 <= value <= MAX_TERRAIN_ID ->
              (forall k, 0 <= k < value -> sceneMap s !! k <> Some newTerrain) ->
              terrain_pixelValue (terrainObj s' newTerrain) = Some value)).
Proof.
  split_and!.
  - intros Hnone. unfold _replaceTerrainInScene. munfold. by rewrite Hnone.
  - intros old Hold Hsame. unfold _replaceTerrainInScene. munfold. rewrite Hold.
    destruct Hsame as [-> | Hid].
    + by rewrite bool_decide_eq_true_2.
    + rewrite (bool_decide_eq_true_2 (terrain_id _ = _)) by done.
      by rewrite orb_true_r.
  - intros old Hold Hne Hid.
    unfold _replaceTerrainInScene, sceneMap_set, Terrain_unassignPixel,
      Terrain_addToScene, _addTerrainToScene, updateTerrain. munfold.
    rewrite Hold.
    rewrite (bool_decide_eq_false_2 (old = newTerrain)) by done.
    rewrite (bool_decide_eq_false_2 (terrain_id _ = _)) by done.
    simpl.
    set (s2 := set_terrains _ (set_sceneMap _ s)).
    assert (Hm2 : sceneMap s2 = <[value := newTerrain]> (sceneMap s)) by reflexivity.
    assert (Hin : _inSceneMap s2 newTerrain = true).
    { apply (inSceneMap_bound s2 value). rewrite Hm2. apply lookup_insert_eq. }
    rewrite Hin. simpl.
    eexists. split; [reflexivity |]. simpl. split_and!; [done | | done |].
    + unfold terrainObj. simpl.
      rewrite lookup_insert_ne by congruence. by rewrite lookup_insert_eq.
    + intros Hrange Hfirst. unfold terrainObj at 1. simpl.
      rewrite lookup_insert_eq. simpl.
      change (TerrainMap_set (sceneMap s) value newTerrain true)
        with (<[value := newTerrain]> (sceneMap s)).
      unfold TerrainMap_keyForValue.
      apply (find_seqZ_first _ value (Z.to_nat value)); [lia | lia | |].
      * apply bool_decide_eq_true_2. apply lookup_insert_eq.
      * intros k Hk. apply bool_decide_eq_false_2.
        rewrite lookup_insert_ne by lia. apply Hfirst. lia.
Qed.

Lemma cleanShapeQueue_observes {X} (f : TerrainLayer -> X) (v : X) (j : Z) :
  (forall x s, f (set_shapeQueueArray x s) = f s) ->
  (forall x s, f (set_graphicsLayers x s) = f s) ->
  (forall x s, f (set_terrainTextures x s) = f s) ->
  (forall x s, f (set_pixelCacheDirty x s) = f s) ->
  preserves (observes f v) (cleanShapeQueue j).
Proof.
  intros Hq Hg Ht Hd. unfold cleanShapeQueue.
  apply preserves_get_bind. intros s Hs.
  destruct (Array_get (_shapeQueueArray s) j) as [queue|]; [| done].
  destruct (length queue <? NUM_UNDO)%nat; [done |].
  destruct (ShapeQueue_clean NUM_UNDO queue) as [kept removedElements].
  pbind. { apply preserves_modify. intros s0 Hs0. unfold observes in *. by rewrite Hq. }
  destruct (length removedElements =? 0)%nat; [apply preserves_ret |].
  pbind.
  { apply preserves_forOf. intros e _. by apply layer_removeChild_observes. }
  by apply renderTerrain_observes.
Qed.

Lemma cleanAllShapeQueues_short (s : TerrainLayer) :
  length (_shapeQueueArray s) = Z.to_nat MAX_LAYERS ->
  Forall (fun qj => (length qj < NUM_UNDO)%nat) (_shapeQueueArray s) ->
  cleanAllShapeQueues s = Returned tt s.
Proof.
  intros Hlen Hshort. unfold cleanAllShapeQueues.
  assert (Hwp : wp (forOf (seqZ 0 MAX_LAYERS) cleanShapeQueue)
                   (fun _ s1 => s1 = s) s).
  { apply wp_forOf; [done |]. intros j s0 Hj ->.
    apply elem_of_seqZ in Hj.
    destruct (lookup_lt_is_Some_2 (_shapeQueueArray s) (Z.to_nat j)) as [qj Hqj].
    { rewrite Hlen. unfold MAX_LAYERS in *. lia. }
    eapply returned_wp; [| reflexivity].
    eapply cleanShapeQueue_short; [lia | done |].
    rewrite Forall_forall in Hshort. apply Hshort.
    by eapply list_elem_of_lookup_2. }
  apply wp_returned in Hwp as ([] & s' & E & ->). done.
Qed.

(** X11.  [save()] compacts the queues and hands over the snapshot of
    the layer as compacted; it never resets [_requiresSave], and leaves
    the scene map and the terrains alone, whether the compaction runs to
    its end or not.  With six queues of fewer than 20 shapes each it
    changes nothing at all and saves the snapshot of the layer as it is. *)
Theorem save_never_resets_requiresSave (s : TerrainLayer) :
  _requiresSave (stateOf (save s)) = _requiresSave s
  /\ sceneMap (stateOf (save s)) = sceneMap s
  /\ terrains (stateOf (save s)) = terrains s
  /\ (forall d s', save s = Returned d s' ->
        d = saveData s' /\ data_sceneMap d = data_sceneMap (saveData s))
  /\ (length (_shapeQueueArray s) = Z.to_nat MAX_LAYERS ->
      Forall (fun qj => (length qj < NUM_UNDO)%nat) (_shapeQueueArray s) ->
      save s = Returned (saveData s) s).
Proof.
  set (f := fun s0 : TerrainLayer => (_requiresSave s0, sceneMap s0, terrains s0)).
  assert (Hf : f (stateOf (save s)) = f s).
  { assert (Hp : preserves (observes f (f s)) save).
    { unfold save, cleanAllShapeQueues. pbind; [| apply preserves_gets].
      apply preserves_forOf. intros j _. by apply cleanShapeQueue_observes. }
    by apply Hp. }
  unfold f in Hf. injection Hf as Hr Hm Ht.
  split_and!; [done | done | done | |].
  - intros d s' Hsave. rewrite Hsave in Hm, Ht. simpl in Hm, Ht.
    revert Hsave. unfold save. munfold.
    destruct (cleanAllShapeQueues s) as [[] s1|e s1]; [| done].
    intros [= <- <-]. split; [done |].
    unfold saveData, terrainObj. simpl. by rewrite Hm, Ht.
  - intros Hlen Hshort. unfold save. munfold.
    by rewrite cleanAllShapeQueues_short.
Qed.

(** X12.  [clampTerrainId(id)] turns every number into an integer
    between 0 and [MAX_TERRAIN_ID] = 31: the nearest integer (a half going
    up) when that lies in the range, and the nearer end of the range
    otherwise; an [undefined] or [null] id gives 0.  It is idempotent, and
    the identity on the integers of the range.  [NaN] is passed through. *)
Theorem clampTerrainId_range (id : option JsNumber) :
  clampTerrainId None = Num 0
  /\ clampTerrainId (Some NaN) = NaN
  /\ (forall q, id = Some (Num q) ->
        let z := Qfloor (q + (1 # 2))%Q in
        clampTerrainId id = Num (inject_Z (Z.max 0 (Z.min MAX_TERRAIN_ID z)))
        /\ 0 <= Z.max 0 (Z.min MAX_TERRAIN_ID z) <= MAX_TERRAIN_ID)
  /\ (forall z, 0 <= z <= MAX_TERRAIN_ID ->
        clampTerrainId (Some (Num (inject_Z z))) = Num (inject_Z z))
  /\ clampTerrainId (Some (clampTerrainId id)) = clampTerrainId id.
Proof.
  assert (Hle : forall a b : Z, Qle_bool (inject_Z a) (inject_Z b) = (a <=? b)).
  { intros a b. unfold Qle_bool, inject_Z. simpl. by rewrite !Z.mul_1_r. }
  assert (Hclamp : forall z,
            Math_clamped (Num (inject_Z z)) (Num 0) (Num (inject_Z MAX_TERRAIN_ID))
            = Num (inject_Z (Z.max 0 (Z.min MAX_TERRAIN_ID z)))).
  { intros z. unfold Math_clamped, Math_max, Math_min.
    change 0%Q with (inject_Z 0). rewrite Hle.
    destruct (z <=? 0) eqn:H0.
    - apply Z.leb_le in H0. rewrite Hle.
      change (0 <=? MAX_TERRAIN_ID) with true. cbv iota.
      f_equal. f_equal. change MAX_TERRAIN_ID with 31 in *; lia.
    - apply Z.leb_gt in H0. rewrite Hle.
      destruct (z <=? MAX_TERRAIN_ID) eqn:H1.
      + apply Z.leb_le in H1. f_equal. f_equal. change MAX_TERRAIN_ID with 31 in *; lia.
      + apply Z.leb_gt in H1. f_equal. f_equal. change MAX_TERRAIN_ID with 31 in *; lia. }
  assert (Hround : forall z, Qfloor (inject_Z z + (1 # 2))%Q = z).
  { intros z. unfold Qfloor, Qplus, inject_Z. simpl.
    change (Z.pos (1 * 2)) with 2. change (1 * 1) with 1.
    rewrite Z.div_add_l by lia. change (1 / 2) with 0. lia. }
  assert (Hnum : forall q,
            clampTerrainId (Some (Num q))
            = Num (inject_Z (Z.max 0 (Z.min MAX_TERRAIN_ID (Qfloor (q + (1 # 2))%Q))))).
  { intros q. unfold clampTerrainId. simpl. apply Hclamp. }
  assert (Hfix : forall z, 0 <= z <= MAX_TERRAIN_ID ->
            clampTerrainId (Some (Num (inject_Z z))) = Num (inject_Z z)).
  { intros z Hz. rewrite Hnum, Hround. f_equal. f_equal.
    change MAX_TERRAIN_ID with 31 in *; lia. }
  split_and!; [done | done | | done |].
  - intros q -> z. split; [apply Hnum |]. change MAX_TERRAIN_ID with 31 in *; lia.
  - destruct id as [[|q]|]; [done | | apply (Hfix 0); change MAX_TERRAIN_ID with 31 in *; lia].
    rewrite (Hnum q). apply Hfix. change MAX_TERRAIN_ID with 31 in *; lia.
Qed.

(* ===================================================================== *)
(** ** Undo *)
(* ===================================================================== *)

Lemma layer_removeChild_returns (l : Z) (g : Graphics) (s : TerrainLayer) (c : Container) :
  0 <= l ->
  _graphicsLayers s !! Z.to_nat l = Some c ->
  layer_removeChild l g s
  = Returned tt
      (set_graphicsLayers (<[Z.to_nat l := removeChild c g]> (_graphicsLayers s)) s).
Proof.
  intros Hl Hc. unfold layer_removeChild. munfold.
  by rewrite Array_get_nat, Hc.
Qed.

Lemma filter_id {A} (P : A -> Prop) `{!forall x, Decision (P x)} (l : list A) :
  (forall x, x ∈ l -> P x) -> filter P l = l.
Proof.
  induction l as [|x l IH]; intros Hall; [done |].
  rewrite filter_cons_True by (apply Hall; left).
  f_equal. apply IH. intros y Hy. apply Hall. by right.
Qed.

(** Removing a graphics just added to a container that did not hold it
    gives the container back. *)
Lemma removeChild_addChild (c : Container) (g : Graphics) :
  (forall h, h ∈ children c -> gid h <> gid g) ->
  removeChild (addChild c g) g = c.
Proof.
  intros Hfresh. destruct c as [ch mask]. unfold removeChild, addChild. simpl in *.
  f_equal.
  rewrite filter_app, filter_cons_False, filter_nil by (simpl; tauto).
  rewrite app_nil_r, list_filter_filter.
  apply filter_id. intros h Hh. split; by apply Hfresh.
Qed.

(** What [undo()] does to a layer whose current queue ends with [e]. *)
Lemma undo_last (s : TerrainLayer) (q : list QueueObj) (e : QueueObj) (c : Container) :
  0 <= currentLayer s ->
  _shapeQueueArray s !! Z.to_nat (currentLayer s) = Some (q ++ [e]) ->
  0 <= layer (qshape e) ->
  _graphicsLayers s !! Z.to_nat (layer (qshape e)) = Some c ->
  exists tex,
    undo s
    = Returned tt
        (set_pixelCacheDirty (Uint8Array_fill (priv_pixelCacheDirty s) 1)
           (set_terrainTextures tex
              (set_requiresSave true
                 (set_graphicsLayers
                    (<[Z.to_nat (layer (qshape e)) := removeChild c (qgraphics e)]>
                       (_graphicsLayers s))
                    (set_shapeQueueArray
                       (<[Z.to_nat (currentLayer s) := q]> (_shapeQueueArray s))
                       s)))))
    /\ length tex = length (_terrainTextures s)
    /\ forall j, j <> Z.to_nat (layer (qshape e) / 3) ->
                 tex !! j = _terrainTextures s !! j.
Proof.
  intros Hcl Hq Hl Hc.
  set (s1 := set_shapeQueueArray
               (<[Z.to_nat (currentLayer s) := q]> (_shapeQueueArray s)) s).
  set (s2 := set_graphicsLayers
               (<[Z.to_nat (layer (qshape e)) := removeChild c (qgraphics e)]>
                  (_graphicsLayers s)) s1).
  set (s3 := set_requiresSave true s2).
  destruct (renderTerrain_layer_frame s3 (layer (qshape e)) Hl) as (tex & Hrender & Hlen & Hother).
  exists tex. split_and!; [| done | done].
  unfold undo, removeShape, ShapeQueue_dequeue. munfold.
  rewrite Array_get_nat, Hq by done.
  rewrite last_snoc, removelast_last.
  fold s1. rewrite (layer_removeChild_returns _ _ s1 c Hl Hc).
  exact Hrender.
Qed.


(** The state a permanent [addTerrainShapeToCanvas] leads to. *)
Lemma addTerrainShapeToCanvas_permanent (shape : Shape) (t : Terrain)
    (s : TerrainLayer) (c : Container) (q : list QueueObj) :
  hasTerrainId s (terrain_id (terrainObj s t)) = true ->
  0 <= currentLayer s ->
  _graphicsLayers s !! Z.to_nat (currentLayer s) = Some c ->
  _shapeQueueArray s !! Z.to_nat (currentLayer s) = Some q ->
  (forall v, terrain_pixelValue (terrainObj s t) = Some v -> v <> 0 ->
             is_Some (sceneMap s !! v)) ->
  let shape' := Shape_setLayer
                  (Shape_setPixelValue shape (terrain_pixelValue (terrainObj s t)))
                  (currentLayer s) in
  let g := {| gid := nextObject s;
              paint := if isGridShape shape' then Tint else Fill;
              color := terrainShapeColor (currentLayer s)
                         (terrain_pixelValue (terrainObj s t));
              drawn := shape' |} in
  exists tex text,
    addTerrainShapeToCanvas shape t false s
    = Returned g
        (set_requiresSave true
           (set_shapeQueueArray
              (<[Z.to_nat (currentLayer s)
                 := q ++ [{| qshape := shape'; qgraphics := g; qtext := text |}]]>
                 (_shapeQueueArray s))
              (set_pixelCacheDirty (Uint8Array_fill (priv_pixelCacheDirty s) 1)
                 (set_terrainTextures tex
                    (set_graphicsLayers
                       (<[Z.to_nat (currentLayer s) := addChild c g]>
                          (_graphicsLayers s))
                       (set_nextObject (S (nextObject s)) s))))))
    /\ length tex = length (_terrainTextures s)
    /\ forall j, j <> Z.to_nat (currentLayer s / 3) ->
                 tex !! j = _terrainTextures s !! j.
Proof.
  intros Hin Hcl Hc Hq Hbound shape' g.
  destruct (drawTerrainShape_returns s shape' t c Hcl Hc) as (g' & s1 & Hdraw & Hg & Hs1).
  change (layer shape') with (currentLayer s) in Hg, Hs1.
  fold g in Hg. subst g'.
  destruct (renderTerrain_layer_frame s1 (currentLayer s) Hcl)
    as (tex & Hrender & Hlen & Hother).
  set (s2 := set_pixelCacheDirty _ _) in Hrender.
  assert (Hname : exists text, _drawTerrainName shape' s2 = Returned text s2).
  { unfold _drawTerrainName. munfold. simpl.
    destruct (terrain_pixelValue (terrainObj s t)) as [v|] eqn:Hv; simpl; [| eauto].
    destruct (truthy v) eqn:Htv; simpl; [| eauto].
    apply truthy_true in Htv. destruct (Hbound v eq_refl Htv) as [t' Ht'].
    subst s2 s1. simpl. rewrite Ht'. eauto. }
  destruct Hname as [text Hname].
  exists tex, text. split_and!.
  - unfold addTerrainShapeToCanvas. munfold. rewrite Hin. simpl.
    fold shape'. change (layer shape') with (currentLayer s).
    rewrite Hdraw, Hrender, Hname.
    unfold queue_enqueue. munfold. rewrite Array_get_nat by done.
    subst s2 s1. simpl. rewrite Hq. reflexivity.
  - subst s1. simpl in Hlen. done.
  - subst s1. simpl in Hother. done.
Qed.

(** X14.  A permanent shape added and then undone: with the terrain
    already in the scene, on an existing layer whose container holds no
    graphics of the identity about to be allocated, both calls return and
    the queues and the layer containers are exactly as before the shape
    was added, as are the scene map, the terrains and the temporary
    graphics.  What does not come back: [_requiresSave] is set, every
    dirty bit is set and one object identity is used up; only the texture
    of the current layer was rendered again.  (The queue is the one of
    the spec: [enqueue] appends and [dequeue] hands over the most recent
    entry.) *)
Theorem undo_reverts_a_permanent_shape (shape : Shape) (t : Terrain)
    (s : TerrainLayer) (c : Container) (q : list QueueObj) :
  hasTerrainId s (terrain_id (terrainObj s t)) = true ->
  0 <= currentLayer s ->
  _graphicsLayers s !! Z.to_nat (currentLayer s) = Some c ->
  _shapeQueueArray s !! Z.to_nat (currentLayer s) = Some q ->
  (forall v, terrain_pixelValue (terrainObj s t) = Some v -> v <> 0 ->
             is_Some (sceneMap s !! v)) ->
  (forall h, h ∈ children c -> gid h <> nextObject s) ->
  exists g s1 s2,
    addTerrainShapeToCanvas shape t false s = Returned g s1
    /\ undo s1 = Returned tt s2
    /\ _shapeQueueArray s2 = _shapeQueueArray s
    /\ _graphicsLayers s2 = _graphicsLayers s
    /\ sceneMap s2 = sceneMap s
    /\ terrains s2 = terrains s
    /\ priv_temporaryGraphics s2 = priv_temporaryGraphics s
    /\ _requiresSave s2 = true
    /\ nextObject s2 = S (nextObject s)
    /\ priv_pixelCacheDirty s2 = Uint8Array_fill (priv_pixelCacheDirty s) 1
    /\ forall j, j <> Z.to_nat (currentLayer s / 3) ->
                 _terrainTextures s2 !! j = _terrainTextures s !! j.
Proof.
  intros Hin Hcl Hc Hq Hbound Hfresh.
  destruct (addTerrainShapeToCanvas_permanent shape t s c q Hin Hcl Hc Hq Hbound)
    as (tex & text & Hadd & Hlen & Hother).
  set (shape' := Shape_setLayer _ _) in Hadd.
  set (g := {| gid := nextObject s; paint := _; color := _; drawn := _ |}) in Hadd.
  set (e := {| qshape := shape'; qgraphics := g; qtext := text |}) in Hadd.
  set (s1 := set_requiresSave true _) in Hadd.
  assert (Hlq : (Z.to_nat (currentLayer s) < length (_shapeQueueArray s))%nat).
  { apply lookup_lt_Some in Hq. lia. }
  assert (Hlc : (Z.to_nat (currentLayer s) < length (_graphicsLayers s))%nat).
  { apply lookup_lt_Some in Hc. lia. }
  destruct (undo_last s1 q e (addChild c g)) as (tex2 & Hundo & Hlen2 & Hother2).
  { done. }
  { subst s1. simpl. apply list_lookup_insert_eq. lia. }
  { done. }
  { subst s1. simpl. apply list_lookup_insert_eq. lia. }
  eexists g, s1, _. split; [exact Hadd |]. split; [exact Hundo |].
  simpl. split_and!; try done.
  - rewrite list_insert_insert_eq. by apply list_insert_id.
  - rewrite list_insert_insert_eq, removeChild_addChild by done.
    by apply list_insert_id.
  - unfold Uint8Array_fill. rewrite <- list_fmap_compose. done.
  - intros j Hj. rewrite Hother2, Hother by done. done.
Qed.

(* ===================================================================== *)
(** ** Temporary shapes made permanent *)
(* ===================================================================== *)

Lemma set_shapeQueueArray_same (s : TerrainLayer) :
  set_shapeQueueArray (_shapeQueueArray s) s = s.
Proof. by destruct s. Qed.

Lemma drawTerrainName_nameable (s : TerrainLayer) (o : TempObj) :
  nameable s o ->
  exists text, _drawTerrainName (tshape o) s = Returned text s.
Proof.
  intros Hn. unfold _drawTerrainName. munfold.
  destruct (pixelValue (tshape o)) as [v|] eqn:Hv; simpl; [| eauto].
  destruct (truthy v) eqn:Htv; simpl; [| eauto].
  apply truthy_true in Htv. destruct (Hn v Hv Htv) as [t' Ht'].
  unfold terrainForPixel. rewrite Ht'. eauto.
Qed.

(** The loop of [_makeTemporaryGraphicsPermanent]: each object ends the
    queue of its shape's layer. *)
Lemma enqueue_temporaries (objs : list TempObj) :
  forall s : TerrainLayer,
    (forall o, o ∈ objs ->
       0 <= layer (tshape o)
       /\ is_Some (_shapeQueueArray s !! Z.to_nat (layer (tshape o)))
       /\ nameable s o) ->
    exists Q',
      forOf objs (fun obj =>
        let shape := tshape obj in
        queue_enqueue (layer shape)
          {| qshape := shape; qgraphics := tgraphics obj; qtext := None |} ;;
        _drawTerrainName shape ;;
        mret tt) s
      = Returned tt (set_shapeQueueArray Q' s)
      /\ length Q' = length (_shapeQueueArray s)
      /\ forall i q,
           _shapeQueueArray s !! i = Some q ->
           Q' !! i
           = Some (q ++ (tempEntry
                         <$> filter (fun o => Z.to_nat (layer (tshape o)) = i) objs)).
Proof.
  induction objs as [|o objs IH]; intros s Hobjs.
  { exists (_shapeQueueArray s). simpl. rewrite set_shapeQueueArray_same.
    split_and!; [done | done |]. intros i q Hq. by rewrite app_nil_r. }
  destruct (Hobjs o (list_elem_of_here _ _)) as (Hl & [q0 Hq0] & Hname).
  set (l := Z.to_nat (layer (tshape o))) in *.
  set (s1 := set_shapeQueueArray (<[l := q0 ++ [tempEntry o]]> (_shapeQueueArray s)) s).
  assert (Henq : queue_enqueue (layer (tshape o)) (tempEntry o) s = Returned tt s1).
  { unfold queue_enqueue. munfold. rewrite Array_get_nat by done. fold l. by rewrite Hq0. }
  destruct (drawTerrainName_nameable s1 o Hname) as [text Htext].
  destruct (IH s1) as (Q' & Hloop & Hlen & Hlookup).
  { intros o' Ho'. destruct (Hobjs o' (list_elem_of_further _ _ _ Ho')) as (Hl' & Hq' & Hn').
    split_and!; [done | | done].
    subst s1. simpl. apply lookup_lt_is_Some. rewrite length_insert.
    by apply lookup_lt_is_Some. }
  exists Q'. split_and!.
  - simpl. munfold. fold (tempEntry o). rewrite Henq, Htext. exact Hloop.
  - rewrite Hlen. subst s1. simpl. by rewrite length_insert.
  - intros i q Hq. rewrite filter_cons. fold l.
    destruct (decide (l = i)) as [<- | Hne].
    + rewrite Hq0 in Hq. injection Hq as <-.
      rewrite (Hlookup l (q0 ++ [tempEntry o])).
      * by rewrite <- app_assoc.
      * subst s1. simpl. apply list_lookup_insert_eq. by eapply lookup_lt_Some.
    + apply Hlookup. subst s1. simpl. by rewrite list_lookup_insert_ne.
Qed.

(** X15.  [_makeTemporaryGraphicsPermanent()], when every temporary
    shape sits on an existing layer and its name can be drawn: it returns
    with the temporary-graphics map empty and every temporary object
    appended to the queue of its shape's layer, after the entries that
    were there, as an entry without a text.  It does not set
    [_requiresSave], renders nothing and marks no cache dirty.  (The
    queue is the one of the spec, whose [enqueue] appends.) *)
Theorem makeTemporaryGraphicsPermanent_enqueues_without_saving (s : TerrainLayer) :
  let objs := (map_to_list (priv_temporaryGraphics s)).*2 in
  (forall o, o ∈ objs ->
     0 <= layer (tshape o)
     /\ is_Some (_shapeQueueArray s !! Z.to_nat (layer (tshape o)))
     /\ nameable s o) ->
  exists s',
    _makeTemporaryGraphicsPermanent s = Returned tt s'
    /\ priv_temporaryGraphics s' = ∅
    /\ _requiresSave s' = _requiresSave s
    /\ _graphicsLayers s' = _graphicsLayers s
    /\ _terrainTextures s' = _terrainTextures s
    /\ cacheFields s' = cacheFields s
    /\ sceneMap s' = sceneMap s
    /\ length (_shapeQueueArray s') = length (_shapeQueueArray s)
    /\ forall i q,
         _shapeQueueArray s !! i = Some q ->
         exists added,
           _shapeQueueArray s' !! i = Some (q ++ added)
           /\ added ≡ₚ tempEntry
                       <$> filter (fun o => Z.to_nat (layer (tshape o)) = i) objs
           /\ Forall (fun e => qtext e = None) added.
Proof.
  intros objs Hobjs.
  destruct (enqueue_temporaries objs s Hobjs) as (Q' & Hloop & Hlen & Hlookup).
  eexists. split.
  { unfold _makeTemporaryGraphicsPermanent. munfold. fold objs.
    rewrite Hloop. reflexivity. }
  simpl. split_and!; try done.
  intros i q Hq. eexists. split_and!; [by apply Hlookup | done |].
  apply Forall_fmap, Forall_forall. done.
Qed.

End Properties.

(* ===================================================================== *)
(** ** The properties on the one-pixel scene *)
(* ===================================================================== *)

#[local] Existing Instance onePixelHost.

(** C1.  Marking dirty after painting one layer.  On a layer whose two
    dirty bits are clear, [_clearPixelCacheArray(4)], and so
    [renderTerrain(4)] and painting the swamp (pixel value 17) on layer 4,
    set the dirty bit of buffer 0 as well as that of buffer 1, while
    [_clearPixelCacheArray()] with the default [-1] sets none: the two
    branches of the test on [~layer] are exchanged.  The decoded values of
    layers 0-2 are unchanged by the painting. *)
Theorem clearPixelCacheArray_layer4_dirties_both_buffers :
  priv_pixelCacheDirty demoLayer = [0; 0]
  /\ priv_pixelCacheDirty (stateOf (_clearPixelCacheArray 4 demoLayer)) = [1; 1]
  /\ priv_pixelCacheDirty (stateOf (renderTerrain 4 demoLayer)) = [1; 1]
  /\ priv_pixelCacheDirty paintedLayer = [1; 1]
  /\ priv_pixelCacheDirty (stateOf (_clearPixelCacheArray (-1) demoLayer)) = [0; 0]
  /\ valueOf (_terrainLayersAt (mkPoint 0 0) demoLayer) = Some (Some [0; 0; 0; 0; 0; 0])
  /\ valueOf (_terrainLayersAt (mkPoint 0 0) paintedLayer) = Some (Some [0; 0; 0; 0; 17; 0]).
Proof. vm_compute. by repeat split. Qed.

(** C2, on the painted demo layer: both buffers are dirty, the read
    rebuilds both and returns the merged cache with layer 4 at 17. *)
Lemma pixelCache_read_rebuilds_dirty_buffers_witness :
  priv_pixelCacheArray paintedLayer = [[0; 0; 0]; [0; 0; 0]]
  /\ priv_pixelCache paintedLayer = Some [0; 0; 0; 0; 0; 0]
  /\ priv_pixelCacheDirty paintedLayer = [1; 1]
  /\ exists s',
       pixelCache paintedLayer = Returned (Some [0; 0; 0; 0; 17; 0]) s'
       /\ priv_pixelCacheDirty s' = [0; 0].
Proof.
  split_and!; [reflexivity | reflexivity | reflexivity |].
  destruct (pixelCache_read_rebuilds_dirty_buffers (H := onePixelHost)
              paintedLayer [0; 0; 0] [0; 0; 0] [0; 0; 0; 0; 0; 0] 1 1
              eq_refl eq_refl eq_refl)
    as (s' & Hread & _ & _ & Hdirty & _).
  exists s'. split; [exact Hread | exact Hdirty].
Defined.

(** C3, for the swamp (pixel value 17) drawn on layer 4: its colour has
    the byte 17 in channel 1, and [renderTerrain(4)] then leaves texture 0
    as it was and writes 17 into channel 1 of texture 1. *)
Lemma drawTerrainShape_encodes_layer_in_channel_witness :
  layer (Shape_setLayer square 4) = 4
  /\ 0 <= 4 <= 5
  /\ 0 <= 17 <= 31
  /\ terrain_pixelValue (terrainObj demoLayer 1%nat) = Some 17
  /\ length (_graphicsLayers demoLayer) = 6%nat
  /\ exists g s',
       _drawTerrainShape (Shape_setLayer square 4) (Some 1%nat) demoLayer
       = Returned g s'
       /\ color g !! 1%nat ≫= channelByte = Some 17
       /\ _terrainTextures (stateOf (renderTerrain 4 s')) = [[0; 0; 0]; [0; 17; 0]].
Proof.
  assert (H1 : layer (Shape_setLayer square 4) = 4) by reflexivity.
  assert (H2 : 0 <= 4 <= 5) by lia.
  assert (H3 : 0 <= 17 <= 31) by lia.
  assert (H4 : terrain_pixelValue (terrainObj demoLayer 1%nat) = Some 17) by reflexivity.
  assert (H5 : length (_graphicsLayers demoLayer) = 6%nat) by reflexivity.
  split_and!; try assumption; try lia.
  destruct (drawTerrainShape_encodes_layer_in_channel (H := onePixelHost)
              demoLayer (Shape_setLayer square 4) 1%nat 4 17 H1 H2 H3 H4 H5)
    as (g & s' & Hdraw & _ & _ & Hbyte & _ & _ & _ & _ & _ & _ & _ & _ & _ & _ & Hrender).
  exists g, s'. split_and!; [exact Hdraw | exact Hbyte |].
  destruct (Hrender [0; 0; 0] [0; 0; 0] eq_refl)
    as (c0 & c1 & c2 & c3 & c4 & c5 & Hlayers & _ & -> & _).
  assert (E : _drawTerrainShape (H := onePixelHost) (Shape_setLayer square 4)
                (Some 1%nat) demoLayer
              = Returned (default g (valueOf (_drawTerrainShape
                                                (Shape_setLayer square 4)
                                                (Some 1%nat) demoLayer)))
                  (stateOf (_drawTerrainShape (Shape_setLayer square 4)
                              (Some 1%nat) demoLayer)))
    by (vm_compute; reflexivity).
  pose proof (eq_trans (eq_sym E) Hdraw) as Hsame. injection Hsame as _ <-.
  vm_compute in Hlayers. injection Hlayers as <- <- <- <- <- <-.
  reflexivity.
Defined.

(** C4, on the queue of layer 4 holding 21 entries: the 20 most recent
    ones are still there after compaction. *)
Lemma cleanAllShapeQueues_keeps_recent_entries_witness :
  exists q q',
    _shapeQueueArray crowdedLayer !! 4%nat = Some q
    /\ length q = 21%nat
    /\ _shapeQueueArray (stateOf (cleanAllShapeQueues crowdedLayer)) !! 4%nat = Some q'
    /\ exists older, q' = older ++ drop (length q - NUM_UNDO) q.
Proof.
  destruct (_shapeQueueArray crowdedLayer !! 4%nat) as [q|] eqn:Hq;
    [| vm_compute in Hq; discriminate].
  destruct (cleanAllShapeQueues_keeps_recent_entries (H := onePixelHost)
              crowdedLayer 4 q Hq) as [(q' & Hq' & _ & (older & Holder & _) & _) _].
  exists q, q'. split_and!; [reflexivity | | exact Hq' | by exists older].
  vm_compute in Hq. injection Hq as <-. reflexivity.
Defined.

(** C5, at a point of the wall-less demo scene. *)
Lemma fill_without_boundary_changes_nothing_witness :
  encompassingPolygonWithHoles (mkPoint 3 3) = []
  /\ fill (mkPoint 3 3) 1%nat demoLayer
     = Returned (Some (CannotLocateClosedBoundary (mkPoint 3 3))) demoLayer.
Proof.
  split; [reflexivity |].
  apply (fill_without_boundary_changes_nothing (H := onePixelHost)). reflexivity.
Defined.



(** C7, as stated, fails for pixel value 0: after the null terrain is
    painted on layer 4 a queue holds a shape of pixel value 0, and
    [isPixelValueInScene(0)] is false. *)
Lemma isPixelValueInScene_misses_pixel_value_0 :
  ~ (isPixelValueInScene erasedLayer 0 = true
     <-> exists queue e,
           queue ∈ _shapeQueueArray erasedLayer /\ e ∈ queue
           /\ pixelValue (qshape e) = Some 0).
Proof.
  intros [_ Hfrom].
  assert (Hin : isPixelValueInScene erasedLayer 0 = true); [| discriminate Hin].
  apply Hfrom.
  destruct (_shapeQueueArray erasedLayer !! 4%nat) as [queue|] eqn:Hq;
    [| vm_compute in Hq; discriminate].
  destruct (queue !! 0%nat) as [e|] eqn:He;
    [| vm_compute in Hq; injection Hq as <-; vm_compute in He; discriminate].
  exists queue, e. split_and!.
  - by eapply list_elem_of_lookup_2.
  - by eapply list_elem_of_lookup_2.
  - vm_compute in Hq. injection Hq as <-. vm_compute in He. by injection He as <-.
Qed.

(** C7 as amended, for the swamp's pixel value 17 once it is painted. *)
Lemma isPixelValueInScene_iff_witness :
  isPixelValueInScene paintedLayer 17 = true
  /\ 1 <= 17 <= 31.
Proof.
  destruct (proj1 (isPixelValueInScene_iff (H := onePixelHost) paintedLayer 17))
    as [Hrange _]; [reflexivity |].
  split; [reflexivity | exact Hrange].
Defined.

(** C8.  The swamp is anchored absolutely with the range 0 to 10 and lies
    on layer 4 of the painted demo layer, so elevation 5 is within its
    range; yet [activeTerrainLevelsAt] returns no entry.
    [getAnchorElevation] returns [undefined] for every level, because it
    switches on [this.anchor], which a level does not have; and where the
    switch is given the anchor, the relative-to-layer case yields the
    method [_layerElevation] itself instead of the layer's configured
    elevation, and the relative-to-terrain case throws a reference error. *)
Theorem activeTerrainLevelsAt_drops_the_active_swamp :
  terrains paintedLayer !! 1%nat = Some swamp
  /\ terrain_anchor swamp = ABSOLUTE
  /\ terrain_minOffset swamp = Some 0 /\ terrain_maxOffset swamp = Some 10
  /\ valueOf (terrainLevelsAt (mkPoint 0 0) paintedLayer)
     = Some [ {| terrain := Some 1%nat; level := 4 |} ]
  /\ valueOf (activeTerrainLevelsAt (mkPoint 0 0) (Some 5) paintedLayer) = Some []
  /\ valueOf (getAnchorElevation {| terrain := Some 1%nat; level := 4 |}
                (Some (mkPoint 0 0)) paintedLayer) = Some JsUndefined
  /\ valueOf (getAnchorElevation_switch (Some RELATIVE_TO_LAYER)
                (Some (mkPoint 0 0)) paintedLayer)
     = Some (JsFunction "_layerElevation")
  /\ _layerElevation (Some [0; 0; 0; 0; 30; 0; 0; 0])
       {| terrain := Some 1%nat; level := 4 |} = Some 30
  /\ getAnchorElevation_switch (Some RELATIVE_TO_TERRAIN)
       (Some (mkPoint 0 0)) paintedLayer
     = Thrown ReferenceError paintedLayer.
Proof. vm_compute. by repeat split. Qed.

(** C9, as stated, fails for [loadSceneData] without data.  On the demo
    layer [_replaceTerrainInScene(swamp, 0)] returns with key 0 bound to
    the swamp; a load that finds no data then changes nothing, so key 0
    is not bound to the null terrain after it. *)
Lemma loadSceneData_keeps_a_rebound_key0 :
  _replaceTerrainInScene 1%nat 0 demoLayer = Returned tt reboundLayer
  /\ sceneMap reboundLayer !! 0 = Some 1%nat
  /\ terrain_id (terrainObj reboundLayer 1%nat) = "swamp"
  /\ loadSceneData None reboundLayer = Returned tt reboundLayer
  /\ ~ (exists t0,
          sceneMap (stateOf (loadSceneData None reboundLayer)) !! 0 = Some t0
          /\ isNullTerrainObj
               (terrainObj (stateOf (loadSceneData None reboundLayer)) t0)).
Proof.
  assert (Hload : loadSceneData (H := onePixelHost) None reboundLayer
                  = Returned tt reboundLayer)
    by (vm_compute; reflexivity).
  split_and!; [by vm_compute | by vm_compute | by vm_compute | exact Hload |].
  intros (t0 & Hkey & Hnull). rewrite Hload in Hkey, Hnull.
  cbn [stateOf] in Hkey, Hnull.
  assert (Hswamp : sceneMap reboundLayer !! 0 = Some 1%nat) by (by vm_compute).
  pose proof (eq_trans (eq_sym Hswamp) Hkey) as Hsame. injection Hsame as <-.
  vm_compute in Hnull. discriminate Hnull.
Qed.

(** C9, on the demo layer and a saved scene with a stray entry under key
    0: the import binds key 0 to the null terrain it builds, and removing
    the null terrain does nothing. *)
Lemma sceneMap_key0_stays_bound_to_null_terrain_witness :
  sceneMap (stateOf (importFromJSON savedScene demoLayer)) !! 0 = Some 2%nat
  /\ isNullTerrainObj (terrainObj (stateOf (importFromJSON savedScene demoLayer)) 2%nat)
  /\ truthy_opt (terrain_pixelValue (terrainObj demoLayer 0%nat)) = false
  /\ _removeTerrainFromScene 0%nat demoLayer = Returned None demoLayer
  /\ removeTerrainFromSceneMap 0%nat demoLayer = Returned tt demoLayer.
Proof.
  destruct (sceneMap_key0_stays_bound_to_null_terrain (H := onePixelHost) demoLayer)
    as (Himport & _ & _ & Hremove).
  destruct (Himport savedScene) as [Hkey Hnull].
  destruct (Hremove 0%nat) as (_ & _ & Hnoop).
  assert (Hzero : truthy_opt (terrain_pixelValue (terrainObj demoLayer 0%nat)) = false)
    by reflexivity.
  destruct (Hnoop Hzero) as [Hr1 Hr2].
  split_and!; [exact Hkey | exact Hnull | exact Hzero | exact Hr1 | exact Hr2].
Defined.

(** C10, for a temporary swamp square added while a save is pending:
    the call returns, the flag is reset and no queue changes. *)
Lemma addTerrainShapeToCanvas_requiresSave_is_not_temporary_witness :
  _requiresSave demoLayer = true
  /\ exists g s',
       addTerrainShapeToCanvas square 1%nat true demoLayer = Returned g s'
       /\ _requiresSave s' = false
       /\ _shapeQueueArray s' = _shapeQueueArray demoLayer.
Proof.
  split; [reflexivity |].
  destruct (addTerrainShapeToCanvas_requiresSave_is_not_temporary (H := onePixelHost)
              demoLayer square 1%nat true) as (_ & Hret & Hreturns).
  destruct Hreturns as (g & s' & Hrun).
  - reflexivity.
  - vm_compute. discriminate.
  - vm_compute. eauto.
  - vm_compute. eauto.
  - reflexivity.
  - intros v Hv _. vm_compute in Hv. injection Hv as <-. vm_compute. eauto.
  - destruct (Hret g s' Hrun) as (Hsave & _ & Hqueues & _).
    exists g, s'. split_and!; [exact Hrun | exact Hsave | exact Hqueues].
Defined.

(* ===================================================================== *)
(** ** Further properties on the one-pixel scene *)
(* ===================================================================== *)

(** X1, for layer 4 of the demo layer: texture 0 is not touched and
    texture 1 is rendered anew from the containers of layers 3 to 5. *)
Lemma renderTerrain_layer_renders_its_texture_only_witness :
  0 <= 4 < 2 ^ 32 - 1
  /\ exists c0 c1 c2 c3 c4 c5,
       _graphicsLayers demoLayer = [c0; c1; c2; c3; c4; c5]
       /\ renderTerrain 4 demoLayer
          = Returned tt
              (set_pixelCacheDirty [1; 1]
                 (set_terrainTextures
                    [[0; 0; 0];
                     render c5 (render c4 (render c3 [0; 0; 0] true) false) false]
                    demoLayer)).
Proof.
  split; [lia |].
  destruct (_graphicsLayers demoLayer) as [|c0 [|c1 [|c2 [|c3 [|c4 [|c5 [|c6 cs]]]]]]] eqn:Hg;
    try (vm_compute in Hg; discriminate).
  exists c0, c1, c2, c3, c4, c5. split; [reflexivity |].
  destruct (renderTerrain_layer_renders_its_texture_only (H := onePixelHost)
              demoLayer 4 ltac:(lia)) as (_ & _ & Hexact).
  exact (Hexact c0 c1 c2 c3 c4 c5 [0; 0; 0] [0; 0; 0] Hg eq_refl).
Defined.

(** X2, on the painted demo layer, whose second texture holds the swamp:
    rendering all layers keeps it there. *)
Lemma renderTerrain_all_layers_clears_first_texture_only_witness :
  _terrainTextures paintedLayer = [[0; 0; 0]; [0; 17; 0]]
  /\ exists c0 c1 c2 c3 c4 c5,
       _graphicsLayers paintedLayer = [c0; c1; c2; c3; c4; c5]
       /\ renderTerrain (-1) paintedLayer
          = Returned tt
              (set_pixelCacheDirty (priv_pixelCacheDirty paintedLayer)
                 (set_terrainTextures
                    [render c2 (render c1 (render c0 [0; 0; 0] true) false) false;
                     render c5 (render c4 (render c3 [0; 17; 0] false) false) false]
                    paintedLayer)).
Proof.
  split; [reflexivity |].
  destruct (_graphicsLayers paintedLayer) as [|c0 [|c1 [|c2 [|c3 [|c4 [|c5 [|c6 cs]]]]]]] eqn:Hg;
    try (vm_compute in Hg; discriminate).
  exists c0, c1, c2, c3, c4, c5. split; [reflexivity |].
  exact (proj2 (renderTerrain_all_layers_clears_first_texture_only
                  (H := onePixelHost) paintedLayer c0 c1 c2 c3 c4 c5
                  [0; 0; 0] [0; 17; 0] Hg eq_refl)).
Defined.

(** X3, on the painted demo layer, whose cache is dirty. *)
Lemma pixelCache_second_read_changes_nothing_witness :
  pixelCache paintedLayer = Returned (Some [0; 0; 0; 0; 17; 0]) readLayer
  /\ pixelCache readLayer = Returned (Some [0; 0; 0; 0; 17; 0]) readLayer.
Proof.
  assert (Hread : pixelCache (H := onePixelHost) paintedLayer
                  = Returned (Some [0; 0; 0; 0; 17; 0]) readLayer)
    by (vm_compute; reflexivity).
  split; [exact Hread |].
  exact (proj1 (pixelCache_second_read_changes_nothing (H := onePixelHost)
                  paintedLayer readLayer _ Hread)).
Defined.

(** X4, on the painted demo layer. *)
Lemma initializePixelCache_makes_reads_return_witness :
  priv_pixelCacheDirty paintedLayer = [1; 1]
  /\ exists s0 pc s1,
       initializePixelCache paintedLayer = Returned tt s0
       /\ priv_pixelCacheArray s0 = [[0; 0; 0]; [0; 17; 0]]
       /\ pixelCache s0 = Returned (Some pc) s1.
Proof.
  split; [reflexivity |].
  destruct (initializePixelCache_makes_reads_return (H := onePixelHost)
              paintedLayer 1 1 eq_refl)
    as (s0 & Hinit & Harr & _ & _ & pc & s1 & Hread & _).
  exists s0, pc, s1. split_and!; [exact Hinit | exact Harr | exact Hread].
Defined.

(** X6, on the demo layer read after the swamp was painted on layer 4:
    after [clearData()] the swamp is still reported there. *)
Lemma clearData_leaves_a_clean_cache_stale_witness :
  priv_initialized readLayer = true
  /\ truthy_opt (pixelCacheDirty readLayer) = false
  /\ priv_pixelCache readLayer = Some [0; 0; 0; 0; 17; 0]
  /\ _shapeQueueArray (stateOf (clearData readLayer)) = replicate 6 []
  /\ valueOf (terrainLevelsAt (mkPoint 0 0) (stateOf (clearData readLayer)))
     = Some [ {| terrain := Some 1%nat; level := 4 |} ].
Proof.
  split_and!; [reflexivity | reflexivity | reflexivity | reflexivity |].
  exact (proj2 (proj2 (proj2
           (clearData_leaves_a_clean_cache_stale (H := onePixelHost)
              readLayer [0; 0; 0; 0; 17; 0] (mkPoint 0 0)
              eq_refl eq_refl eq_refl)))).
Defined.

(** X7, for the import of an empty scene into the demo layer read after
    the swamp was painted: the pixel still reads 17 on layer 4. *)
Lemma importFromJSON_leaves_a_clean_cache_stale_witness :
  priv_initialized readLayer = true
  /\ truthy_opt (pixelCacheDirty readLayer) = false
  /\ priv_pixelCache readLayer = Some [0; 0; 0; 0; 17; 0]
  /\ valueOf (_terrainLayersAt (mkPoint 0 0)
                (stateOf (importFromJSON
                            {| data_sceneMap := [];
                               data_shapeQueueArray := replicate 6 [] |}
                            readLayer)))
     = Some (Some [0; 0; 0; 0; 17; 0]).
Proof.
  split_and!; [reflexivity | reflexivity | reflexivity |].
  destruct (importFromJSON_leaves_a_clean_cache_stale (H := onePixelHost)
              readLayer
              {| data_sceneMap := []; data_shapeQueueArray := replicate 6 [] |}
              [0; 0; 0; 0; 17; 0] (mkPoint 0 0) eq_refl eq_refl eq_refl)
    as (_ & Hread & _).
  rewrite Hread. reflexivity.
Defined.

(** X8, on the painted demo layer with layer 4 selected: the swamp. *)
Lemma terrainAt_is_the_level_of_the_current_layer_witness :
  priv_pixelCacheArray paintedLayer = [[0; 0; 0]; [0; 0; 0]]
  /\ priv_pixelCache paintedLayer = Some [0; 0; 0; 0; 0; 0]
  /\ priv_pixelCacheDirty paintedLayer = [1; 1]
  /\ valueOf (terrainAt (mkPoint 0 0) paintedLayer)
     = Some (Some {| terrain := Some 1%nat; level := 4 |}).
Proof.
  split_and!; [reflexivity | reflexivity | reflexivity |].
  destruct (proj2 (terrainAt_is_the_level_of_the_current_layer (H := onePixelHost)
                     paintedLayer (mkPoint 0 0) _ _ _ 1 1 eq_refl eq_refl eq_refl)
              eq_refl) as (levels & s1 & Hlevels & Hat).
  rewrite Hat. simpl.
  assert (E : valueOf (terrainLevelsAt (H := onePixelHost) (mkPoint 0 0) paintedLayer)
              = Some [ {| terrain := Some 1%nat; level := 4 |} ])
    by (vm_compute; reflexivity).
  rewrite Hlevels in E. simpl in E. injection E as ->. reflexivity.
Defined.

(** X9, on the painted demo layer at elevation 5, inside the range of
    the swamp. *)
Lemma activeTerrainsAt_reports_no_terrain_witness :
  priv_initialized paintedLayer = true
  /\ priv_pixelCacheArray paintedLayer = [[0; 0; 0]; [0; 0; 0]]
  /\ priv_pixelCache paintedLayer = Some [0; 0; 0; 0; 0; 0]
  /\ priv_pixelCacheDirty paintedLayer = [1; 1]
  /\ valueOf (terrainLevelsAt (mkPoint 0 0) paintedLayer)
     = Some [ {| terrain := Some 1%nat; level := 4 |} ]
  /\ valueOf (activeTerrainsAt (mkPoint 0 0) (Some 5) paintedLayer) = Some [].
Proof.
  split_and!; [reflexivity | reflexivity | reflexivity | reflexivity | reflexivity |].
  destruct (activeTerrainsAt_reports_no_terrain (H := onePixelHost)
              paintedLayer (mkPoint 0 0) (Some 5) _ _ _ 1 1
              eq_refl eq_refl eq_refl eq_refl)
    as (levels & s1 & Hlevels & Hdefined & _).
  assert (E : valueOf (terrainLevelsAt (H := onePixelHost) (mkPoint 0 0) paintedLayer)
              = Some [ {| terrain := Some 1%nat; level := 4 |} ])
    by (vm_compute; reflexivity).
  rewrite Hlevels in E. simpl in E. injection E as ->.
  destruct Hdefined as [_ Hset].
  - intros tl Htl. apply list_elem_of_singleton in Htl as ->. by eexists.
  - rewrite Hset. reflexivity.
Defined.

(** X10, for the swamp put under pixel value 0 of the demo layer, in
    place of the null terrain. *)
Lemma replaceTerrainInScene_rebinds_the_pixel_value_witness :
  sceneMap demoLayer !! 0 = Some 0%nat
  /\ exists s',
       _replaceTerrainInScene 1%nat 0 demoLayer = Returned tt s'
       /\ sceneMap s' !! 0 = Some 1%nat
       /\ terrain_pixelValue (terrainObj s' 1%nat) = Some 0.
Proof.
  split; [reflexivity |].
  destruct (replaceTerrainInScene_rebinds_the_pixel_value (H := onePixelHost)
              demoLayer 1%nat 0) as (_ & _ & Hmain).
  destruct (Hmain 0%nat eq_refl) as (s' & Hrun & Hmap & _ & _ & Hvalue).
  - discriminate.
  - vm_compute. discriminate.
  - exists s'. split_and!; [exact Hrun | |].
    + rewrite Hmap. apply lookup_insert_eq.
    + apply Hvalue; [vm_compute; split; discriminate | intros k Hk; lia].
Defined.


(** X14, for a swamp square painted on layer 4 of the demo layer and
    undone. *)
Lemma undo_reverts_a_permanent_shape_witness :
  exists g s1 s2,
    addTerrainShapeToCanvas square 1%nat false demoLayer = Returned g s1
    /\ undo s1 = Returned tt s2
    /\ _shapeQueueArray s2 = _shapeQueueArray demoLayer
    /\ _graphicsLayers s2 = _graphicsLayers demoLayer.
Proof.
  destruct (_graphicsLayers demoLayer !! 4%nat) as [c|] eqn:Hc;
    [| vm_compute in Hc; discriminate].
  destruct (undo_reverts_a_permanent_shape (H := onePixelHost)
              square 1%nat demoLayer c [])
    as (g & s1 & s2 & Hadd & Hundo & Hq & Hg & _).
  - reflexivity.
  - vm_compute. discriminate.
  - exact Hc.
  - reflexivity.
  - intros v Hv _. vm_compute in Hv. injection Hv as <-. vm_compute. eauto.
  - vm_compute in Hc. injection Hc as <-. intros h Hh. by apply elem_of_nil in Hh.
  - exists g, s1, s2. split_and!; assumption.
Defined.

(** X15, on the demo layer with one swamp square being dragged: the
    square ends the queue of layer 4 and no save is asked for. *)
Lemma makeTemporaryGraphicsPermanent_enqueues_without_saving_witness :
  _requiresSave draggedLayer = false
  /\ exists s',
       _makeTemporaryGraphicsPermanent draggedLayer = Returned tt s'
       /\ priv_temporaryGraphics s' = ∅
       /\ _requiresSave s' = false
       /\ exists added, _shapeQueueArray s' !! 4%nat = Some ([] ++ added).
Proof.
  split; [reflexivity |].
  destruct (makeTemporaryGraphicsPermanent_enqueues_without_saving
              (H := onePixelHost) draggedLayer)
    as (s' & Hrun & Htemp & Hsave & _ & _ & _ & _ & _ & Hqueues).
  - intros o Ho. vm_compute in Ho.
    apply list_elem_of_singleton in Ho as ->.
    split_and!; [vm_compute; discriminate | vm_compute; eauto |].
    intros v Hv _. vm_compute in Hv. injection Hv as <-. vm_compute. eauto.
  - destruct (Hqueues 4%nat [] eq_refl) as (added & Hadded & _).
    exists s'. split_and!; [exact Hrun | exact Htemp | exact Hsave | by exists added].
Defined.

(* ===================================================================== *)
(** ** Stairs regions *)
(* ===================================================================== *)

(** A token elevation is at most the midpoint when twice it is at most
    the sum of the floor and the elevation of the stairs. *)
Lemma midPoint_le (b : Stairs.Behavior) (t : Z) :
  Qle_bool (inject_Z t) (Stairs.midPoint b)
  = (2 * t <=? Stairs.floor b + Stairs.elevation b).
Proof.
  assert (Hmid : (Stairs.midPoint b == (Stairs.floor b + Stairs.elevation b) # 2)%Q).
  { unfold Stairs.midPoint, Qeq, Qplus, Qminus, Qmult, Qopp, inject_Z. simpl. lia. }
  destruct (2 * t <=? Stairs.floor b + Stairs.elevation b) eqn:Hle.
  - apply Z.leb_le in Hle. apply Qle_bool_iff. rewrite Hmid.
    unfold Qle, inject_Z. simpl. lia.
  - apply Z.leb_gt in Hle. apply not_true_is_false. intros Hq.
    apply Qle_bool_iff in Hq. rewrite Hmid in Hq.
    unfold Qle, inject_Z in Hq. simpl in Hq. lia.
Qed.

Lemma targetElevation_stairs (b : Stairs.Behavior) (t : Z) :
  Stairs.algorithm b = Stairs.STAIRS ->
  Stairs.targetElevation b t
  = if 2 * t <=? Stairs.floor b + Stairs.elevation b
    then Stairs.elevation b else Stairs.floor b.
Proof. intros Ha. unfold Stairs.targetElevation. by rewrite Ha, midPoint_le. Qed.

(** X16.  Two-way stairs that go up (floor below elevation, both within
    [-2^52, 2^52], where the midpoint the code computes in doubles is the
    exact one), with no
    dialog or a user who confirms: a token at the floor is sent to the
    elevation and a token at the elevation to the floor, so taking the
    stairs twice brings it back.  A token elsewhere is sent to the
    elevation when it is at or below the midpoint and to the floor when
    above, unless the stairs are strict, which leave it alone; a token is
    never sent to where it already is. *)
Theorem stairs_up_take_a_token_between_floor_and_elevation
    (env : Stairs.Env) (b : Stairs.Behavior) :
  Stairs.algorithm b = Stairs.STAIRS ->
  Stairs.floor b < Stairs.elevation b ->
  - 2 ^ 52 <= Stairs.floor b ->
  Stairs.elevation b <= 2 ^ 52 ->
  Stairs.dialog b = false \/ (forall p, Stairs.confirm env p = true) ->
  Stairs.onTokenMoveIn_elevation env b (Stairs.floor b) = Some (Stairs.elevation b)
  /\ Stairs.onTokenMoveIn_elevation env b (Stairs.elevation b) = Some (Stairs.floor b)
  /\ forall t,
       t <> Stairs.floor b -> t <> Stairs.elevation b ->
       Stairs.onTokenMoveIn_elevation env b t
       = if Stairs.strict b then None
         else if 2 * t <=? Stairs.floor b + Stairs.elevation b
              then Some (Stairs.elevation b) else Some (Stairs.floor b).
Proof.
  intros Ha Hlt _ _ Hyes.
  assert (Hdialog : forall (take : bool) p,
            (if Stairs.dialog b && take then Stairs.confirm env p else take) = take).
  { intros take p. destruct Hyes as [-> | Hyes]; [done |].
    destruct (Stairs.dialog b), take; simpl; by rewrite ?Hyes. }
  unfold Stairs.onTokenMoveIn_elevation.
  split_and!.
  - rewrite Hdialog, targetElevation_stairs by done.
    rewrite Z.eqb_refl, orb_true_r.
    replace (2 * Stairs.floor b <=? Stairs.floor b + Stairs.elevation b) with true
      by (symmetry; apply Z.leb_le; lia).
    by replace (Stairs.elevation b =? Stairs.floor b) with false
      by (symmetry; apply Z.eqb_neq; lia).
  - rewrite Hdialog, targetElevation_stairs by done.
    rewrite Z.eqb_refl, orb_true_r.
    replace (2 * Stairs.elevation b <=? Stairs.floor b + Stairs.elevation b) with false
      by (symmetry; apply Z.leb_gt; lia).
    by replace (Stairs.floor b =? Stairs.elevation b) with false
      by (symmetry; apply Z.eqb_neq; lia).
  - intros t Hf He. rewrite Hdialog, targetElevation_stairs by done.
    replace (t =? Stairs.elevation b) with false by (symmetry; by apply Z.eqb_neq).
    replace (t =? Stairs.floor b) with false by (symmetry; by apply Z.eqb_neq).
    destruct (Stairs.strict b); [done |]. simpl.
    destruct (2 * t <=? Stairs.floor b + Stairs.elevation b).
    + by replace (Stairs.elevation b =? t) with false
        by (symmetry; apply Z.eqb_neq; lia).
    + by replace (Stairs.floor b =? t) with false
        by (symmetry; apply Z.eqb_neq; lia).
Qed.

(** X17.  Two-way stairs whose elevation is below their floor (both
    within [-2^52, 2^52], where the midpoint the code computes in doubles
    is the exact one) move no
    token that stands at either end: from the floor the target is the
    floor, from the elevation it is the elevation.  Strict stairs of this
    kind therefore never change any token's elevation; stairs that are not
    strict send a token standing in between to the nearer end at or below
    the midpoint, up to the user's confirmation. *)
Theorem stairs_down_leave_a_token_at_either_end
    (env : Stairs.Env) (b : Stairs.Behavior) :
  Stairs.algorithm b = Stairs.STAIRS ->
  Stairs.elevation b < Stairs.floor b ->
  - 2 ^ 52 <= Stairs.elevation b ->
  Stairs.floor b <= 2 ^ 52 ->
  Stairs.onTokenMoveIn_elevation env b (Stairs.floor b) = None
  /\ Stairs.onTokenMoveIn_elevation env b (Stairs.elevation b) = None
  /\ (Stairs.strict b = true ->
      forall t, Stairs.onTokenMoveIn_elevation env b t = None)
  /\ (forall t e, Stairs.onTokenMoveIn_elevation env b t = Some e ->
        Stairs.strict b = false
        /\ e = (if 2 * t <=? Stairs.floor b + Stairs.elevation b
                then Stairs.elevation b else Stairs.floor b)
        /\ e <> t).
Proof.
  intros Ha Hlt _ _.
  assert (Hfloor : Stairs.onTokenMoveIn_elevation env b (Stairs.floor b) = None).
  { unfold Stairs.onTokenMoveIn_elevation. rewrite targetElevation_stairs by done.
    replace (2 * Stairs.floor b <=? Stairs.floor b + Stairs.elevation b) with false
      by (symmetry; apply Z.leb_gt; lia).
    rewrite !Z.eqb_refl. simpl. by rewrite !andb_false_r. }
  assert (Helev : Stairs.onTokenMoveIn_elevation env b (Stairs.elevation b) = None).
  { unfold Stairs.onTokenMoveIn_elevation. rewrite targetElevation_stairs by done.
    replace (2 * Stairs.elevation b <=? Stairs.floor b + Stairs.elevation b) with true
      by (symmetry; apply Z.leb_le; lia).
    rewrite !Z.eqb_refl. simpl. by rewrite !andb_false_r. }
  assert (Hstrict : Stairs.strict b = true ->
            forall t, Stairs.onTokenMoveIn_elevation env b t = None).
  { intros Hstrict t.
    destruct (decide (t = Stairs.floor b)) as [-> | Hf]; [done |].
    destruct (decide (t = Stairs.elevation b)) as [-> | He]; [done |].
    unfold Stairs.onTokenMoveIn_elevation. rewrite Hstrict.
    replace (t =? Stairs.elevation b) with false by (symmetry; by apply Z.eqb_neq).
    replace (t =? Stairs.floor b) with false by (symmetry; by apply Z.eqb_neq).
    simpl. by rewrite andb_false_r. }
  split_and!; [done | done | done |].
  intros t e Hsome.
  destruct (Stairs.strict b) eqn:Hs; [by rewrite Hstrict in Hsome |].
  split; [done |].
  revert Hsome. unfold Stairs.onTokenMoveIn_elevation.
  rewrite targetElevation_stairs, Hs by done.
  set (target := if 2 * t <=? _ then _ else _). simpl.
  destruct (target =? t) eqn:Hsame; simpl.
  { by rewrite andb_false_r. }
  apply Z.eqb_neq in Hsame.
  destruct (if Stairs.dialog b && true then _ else true); [| done].
  by intros [= <-].
Qed.

(** X18.  One-way stairs that reset on exit, whose floor is the floor of
    the scene, with no dialog or a user who confirms: a token that moves
    in from the ground is sent to the elevation, and when it moves out at
    that elevation it is brought back to the ground.  A token that moves
    in at the elevation, or out at the ground, is left alone. *)
Theorem one_way_stairs_lift_in_and_reset_out
    (env : Stairs.Env) (b : Stairs.Behavior) :
  Stairs.algorithm b = Stairs.ONE_WAY ->
  Stairs.resetOnExit b = true ->
  Stairs.floor b = Stairs.sceneFloor env ->
  Stairs.elevation b <> Stairs.sceneFloor env ->
  Stairs.dialog b = false \/ (forall p, Stairs.confirm env p = true) ->
  Stairs.onTokenMoveIn_elevation env b (Stairs.sceneFloor env)
  = Some (Stairs.elevation b)
  /\ Stairs.onTokenMoveOut_elevation env b (Stairs.elevation b)
     = Some (Stairs.sceneFloor env)
  /\ Stairs.onTokenMoveIn_elevation env b (Stairs.elevation b) = None
  /\ Stairs.onTokenMoveOut_elevation env b (Stairs.sceneFloor env) = None.
Proof.
  intros Ha Hr Hf He Hyes.
  assert (Hdialog : forall (take : bool) p,
            (if Stairs.dialog b && take then Stairs.confirm env p else take) = take).
  { intros take p. destruct Hyes as [-> | Hyes]; [done |].
    destruct (Stairs.dialog b), take; simpl; by rewrite ?Hyes. }
  unfold Stairs.onTokenMoveIn_elevation, Stairs.onTokenMoveOut_elevation,
    Stairs.targetElevation.
  rewrite Ha, Hr, !Hdialog, Hf, !Z.eqb_refl.
  replace (Stairs.elevation b =? Stairs.sceneFloor env) with false
    by (symmetry; by apply Z.eqb_neq).
  simpl. rewrite !orb_true_r. simpl.
  by destruct (Stairs.strict b).
Qed.

(** X19.  [#onTokenPreMove], unless the move is forced, stops the token
    at the end of the first ENTER segment and remembers the destination;
    with [resetOnExit] it then stops it at the end of the first EXIT
    segment and remembers the destination of that moment.  So when the
    path has both an ENTER and an EXIT segment and the behaviour resets on
    exit, the token is sent to the end of the EXIT segment and what is
    remembered is the end of the ENTER segment: the destination the user
    chose is kept nowhere. *)
Theorem onTokenPreMove_destinations
    (b : Stairs.Behavior) (forced : bool) (segments : list Stairs.Segment)
    (st : Stairs.MoveState) :
  let first ty :=
    List.find (fun sg => bool_decide (Stairs.seg_type sg = ty)) segments in
  Stairs.onTokenPreMove b forced segments st
  = if forced then st
    else
      match first Stairs.ENTER,
            (if Stairs.resetOnExit b then first Stairs.EXIT else None) with
      | None, None => st
      | Some enter, None =>
          {| Stairs.lastDestination := Some (Stairs.destination st);
             Stairs.destination := Stairs.seg_to enter |}
      | None, Some exit =>
          {| Stairs.lastDestination := Some (Stairs.destination st);
             Stairs.destination := Stairs.seg_to exit |}
      | Some enter, Some exit =>
          {| Stairs.lastDestination := Some (Stairs.seg_to enter);
             Stairs.destination := Stairs.seg_to exit |}
      end.
Proof.
  intros first.
  assert (Hstop : forall ty st0,
            Stairs.stopAtFirst ty segments st0
            = match first ty with
              | Some sg =>
                  {| Stairs.lastDestination := Some (Stairs.destination st0);
                     Stairs.destination := Stairs.seg_to sg |}
              | None => st0
              end).
  { intros ty st0. subst first. simpl.
    induction segments as [|sg segments IH]; [done |]. simpl.
    by destruct (bool_decide (Stairs.seg_type sg = ty)). }
  unfold Stairs.onTokenPreMove. destruct forced; [done |].
  rewrite !Hstop.
  destruct (Stairs.resetOnExit b); [| by destruct (first Stairs.ENTER)].
  by destruct (first Stairs.ENTER), (first Stairs.EXIT).
Qed.

(** X20.  A token dragged into a stairs region that does not reset on
    exit.  [#onTokenPreMove] stops it at the end of the first ENTER
    segment and remembers where it was going.  If it then does not take
    the stairs, [continueTokenAnimationForBehavior] sends it on to that
    place with one update; if it takes them, the last update sets the
    elevation, preceded at most by one move to the snapped grid space, and
    the place it was going to is dropped.  Either way nothing stays
    remembered. *)
Theorem continue_after_stopping_at_the_entrance
    (env : Stairs.Env) (b : Stairs.Behavior) (segments : list Stairs.Segment)
    (enter : Stairs.Segment) (dest : Stairs.Waypoint) (elevation : option Z) :
  Stairs.resetOnExit b = false ->
  List.find (fun sg => bool_decide (Stairs.seg_type sg = Stairs.ENTER)) segments
  = Some enter ->
  let st := Stairs.onTokenPreMove b false segments
              {| Stairs.lastDestination := None; Stairs.destination := dest |} in
  let main e := {| Stairs.update := Stairs.SetElevation e;
                   Stairs.teleport := Stairs.levelsActive env |} in
  Stairs.destination st = Stairs.seg_to enter
  /\ Stairs.lastDestination st = Some dest
  /\ Stairs.continueTokenAnimationForBehavior env (Stairs.lastDestination st) None
     = ([{| Stairs.update := Stairs.SetPosition (Stairs.wx dest) (Stairs.wy dest);
            Stairs.teleport := Stairs.levelsActive env |}], None)
  /\ forall e,
       Stairs.continueTokenAnimationForBehavior env (Stairs.lastDestination st) (Some e)
       = (if negb (Stairs.isGridless env) && negb (Stairs.shiftHeld env)
             && negb (Stairs.checkCollision env dest)
          then [{| Stairs.update :=
                     Stairs.SetPosition (Stairs.snappedTopLeft env dest).1
                                        (Stairs.snappedTopLeft env dest).2;
                   Stairs.teleport := false |}; main e]
          else [main e], None).
Proof.
  intros Hr Henter st main.
  assert (Hst : st = {| Stairs.lastDestination := Some dest;
                        Stairs.destination := Stairs.seg_to enter |}).
  { subst st. unfold Stairs.onTokenPreMove. rewrite Hr. simpl.
    clear -Henter. induction segments as [|sg segments IH]; [done |].
    simpl in *. destruct (bool_decide (Stairs.seg_type sg = Stairs.ENTER)).
    - by injection Henter as ->.
    - by apply IH. }
  rewrite Hst. simpl. split_and!; [done | done | done |].
  intros e. unfold Stairs.continueTokenAnimationForBehavior.
  by destruct (negb (Stairs.isGridless env) && negb (Stairs.shiftHeld env)
               && negb (Stairs.checkCollision env dest)).
Qed.

(* ===================================================================== *)
(** ** Region controls *)
(* ===================================================================== *)

Lemma findIndex_from_app {A} (pred : A -> bool) (P : list A) (y : A) (R : list A) (i : Z) :
  (forall x, x ∈ P -> pred x = false) -> pred y = true ->
  Controls.findIndex_from pred (P ++ y :: R) i = i + Z.of_nat (length P).
Proof.
  revert i. induction P as [|x P IH]; intros i HP Hy; simpl.
  - rewrite Hy. lia.
  - rewrite (HP x) by left. rewrite IH; [lia | | done].
    intros x' Hx'. apply HP. by right.
Qed.

Lemma findIndex_from_none {A} (pred : A -> bool) (l : list A) (i : Z) :
  (forall x, x ∈ l -> pred x = false) ->
  Controls.findIndex_from pred l i = -1.
Proof.
  revert i. induction l as [|x l IH]; intros i Hl; [done |]. simpl.
  rewrite (Hl x) by left. apply IH. intros x' Hx'. apply Hl. by right.
Qed.

Lemma splice_app {A} (P R : list A) (item : A) :
  Controls.splice (P ++ R) (Z.of_nat (length P)) item = P ++ item :: R.
Proof.
  unfold Controls.splice.
  replace (Z.of_nat (length P) <? 0) with false by (symmetry; apply Z.ltb_ge; lia).
  rewrite length_app.
  replace (Z.to_nat (Z.of_nat (length P) `min` Z.of_nat (length P + length R)))
    with (length P) by lia.
  by rewrite take_app_length, drop_app_length.
Qed.

Lemma splice_front {A} (l : list A) (item : A) :
  Controls.splice l 0 item = item :: l.
Proof.
  unfold Controls.splice. simpl.
  replace (Z.to_nat (0 `min` Z.of_nat (length l))) with 0%nat by lia. done.
Qed.

Lemma splice_before_last {A} (T : list A) (x item : A) :
  Controls.splice (T ++ [x]) (-1) item = T ++ [item; x].
Proof.
  unfold Controls.splice. simpl. rewrite length_app. simpl.
  replace (Z.to_nat ((Z.of_nat (length T + 1) + -1) `max` 0)) with (length T) by lia.
  by rewrite take_app_length, drop_app_length.
Qed.

Lemma elem_of_splice {A} (l : list A) (k : Z) (item x : A) :
  x ∈ Controls.splice l k item <-> x = item \/ x ∈ l.
Proof.
  unfold Controls.splice.
  set (n := Z.to_nat _).
  assert (Hl : x ∈ l <-> x ∈ take n l \/ x ∈ drop n l).
  { rewrite <- elem_of_app. by rewrite take_drop. }
  rewrite elem_of_app, elem_of_cons, Hl. tauto.
Qed.

Lemma length_splice {A} (l : list A) (k : Z) (item : A) :
  length (Controls.splice l k item) = S (length l).
Proof.
  unfold Controls.splice. set (n := Z.to_nat _).
  rewrite length_app. simpl.
  assert (Hl : length l = (length (take n l) + length (drop n l))%nat).
  { rewrite <- length_app. by rewrite take_drop. }
  lia.
Qed.

Lemma sublist_splice {A} (l : list A) (k : Z) (item : A) :
  sublist l (Controls.splice l k item).
Proof.
  unfold Controls.splice. set (n := Z.to_nat _).
  assert (Hs : sublist (take n l ++ drop n l) (take n l ++ item :: drop n l)).
  { apply sublist_app; [done |]. by apply sublist_cons. }
  by rewrite take_drop in Hs.
Qed.

Section ControlsProperties.
Context {Rest : Type}.
Variables (byGrid byLOS byWalls book : Rest).

#[local] Abbreviation GRID := (Controls.FILL_BY_GRID byGrid).
#[local] Abbreviation LOS := (Controls.FILL_BY_LOS byLOS).
#[local] Abbreviation WALLS := (Controls.FILL_BY_WALLS byWalls).
#[local] Abbreviation BOOK := (Controls.TERRAIN_BOOK book).
#[local] Abbreviation addRegionTools := (Controls.addRegionTools byGrid byLOS byWalls book).

Lemma named_false (n : string) (t : Controls.Tool Rest) :
  Controls.name t <> n -> Controls.named n t = false.
Proof. intros Hn. unfold Controls.named. by apply bool_decide_eq_false_2. Qed.

Lemma named_true (n : string) (t : Controls.Tool Rest) :
  Controls.name t = n -> Controls.named n t = true.
Proof. intros Hn. unfold Controls.named. by apply bool_decide_eq_true_2. Qed.

Lemma findIndex_first (n : string) (P : list (Controls.Tool Rest))
    (y : Controls.Tool Rest) (R : list (Controls.Tool Rest)) :
  (forall t, t ∈ P -> Controls.name t <> n) -> Controls.name y = n ->
  Controls.findIndex (Controls.named n) (P ++ y :: R) = Z.of_nat (length P).
Proof.
  intros HP Hy. unfold Controls.findIndex.
  rewrite findIndex_from_app; [lia | | by apply named_true].
  intros t Ht. by apply named_false, HP.
Qed.

Lemma findIndex_missing (n : string) (l : list (Controls.Tool Rest)) :
  (forall t, t ∈ l -> Controls.name t <> n) ->
  Controls.findIndex (Controls.named n) l = -1.
Proof.
  intros Hl. apply findIndex_from_none. intros t Ht. by apply named_false, Hl.
Qed.

(** Inserting after the first tool of a given name. *)
Lemma splice_after_first (n : string) (P : list (Controls.Tool Rest))
    (y : Controls.Tool Rest) (R : list (Controls.Tool Rest)) (item : Controls.Tool Rest) :
  (forall t, t ∈ P -> Controls.name t <> n) -> Controls.name y = n ->
  Controls.splice (P ++ y :: R)
    (Controls.findIndex (Controls.named n) (P ++ y :: R) + 1) item
  = P ++ y :: item :: R.
Proof.
  intros HP Hy. rewrite findIndex_first by done.
  replace (Z.of_nat (length P) + 1) with (Z.of_nat (length (P ++ [y])))
    by (rewrite length_app; simpl; lia).
  replace (P ++ y :: R) with ((P ++ [y]) ++ R) by (by rewrite <- app_assoc).
  rewrite splice_app. by rewrite <- app_assoc.
Qed.

(** X21.  [getSceneControlButtons] on the tools of the region control,
    when these have a select tool, then a polygon tool, then a clear
    tool: fill-by-grid goes right after select (unless the scene is
    gridless), fill-by-LOS and then fill-by-walls right after polygon, and
    for a GM the terrain book right before clear; every other tool keeps
    its place.  Only the first control named "regions" is changed. *)
Theorem getSceneControlButtons_places_the_tools
    (isGridless isGM : bool)
    (A B C D : list (Controls.Tool Rest)) (sel pol clr : Controls.Tool Rest)
    (before after : list (Controls.Control Rest)) :
  Controls.name sel = "select" ->
  (forall t, t ∈ A -> Controls.name t <> "select") ->
  Controls.name pol = "polygon" ->
  (forall t, t ∈ A ++ sel :: B -> Controls.name t <> "polygon") ->
  Controls.name clr = "clear" ->
  (forall t, t ∈ A ++ sel :: B ++ pol :: C -> Controls.name t <> "clear") ->
  (forall c, c ∈ before -> Controls.control_name c <> "regions") ->
  let tools := A ++ sel :: B ++ pol :: C ++ clr :: D in
  let tools' :=
    A ++ sel :: (if isGridless then [] else [GRID])
      ++ B ++ pol :: LOS :: WALLS
      :: C ++ (if isGM then [BOOK] else []) ++ clr :: D in
  addRegionTools isGridless isGM tools = tools'
  /\ Controls.getSceneControlButtons byGrid byLOS byWalls book true isGridless isGM
       (before ++ Controls.mkControl "regions" tools :: after)
     = before ++ Controls.mkControl "regions" tools' :: after.
Proof.
  intros Hsel HA Hpol HB Hclr HC Hbefore tools tools'.
  assert (Htools : addRegionTools isGridless isGM tools = tools').
  { unfold Controls.addRegionTools. subst tools tools'.
    set (G := if isGridless then [] else [GRID]).
    assert (H1 : (if negb isGridless
                  then Controls.splice (A ++ sel :: B ++ pol :: C ++ clr :: D)
                         (Controls.findIndex (Controls.named "select")
                            (A ++ sel :: B ++ pol :: C ++ clr :: D) + 1) GRID
                  else A ++ sel :: B ++ pol :: C ++ clr :: D)
                 = (A ++ sel :: G ++ B) ++ pol :: C ++ clr :: D).
    { subst G. destruct isGridless; simpl.
      - by rewrite <- app_assoc.
      - rewrite splice_after_first by done. by rewrite <- app_assoc. }
    rewrite H1.
    assert (HP1 : forall t, t ∈ A ++ sel :: G ++ B -> Controls.name t <> "polygon").
    { intros t Ht. apply elem_of_app in Ht as [Ht | Ht].
      - apply HB. apply elem_of_app. by left.
      - apply elem_of_cons in Ht as [-> | Ht].
        + apply HB. apply elem_of_app. right. left.
        + apply elem_of_app in Ht as [Ht | Ht].
          * subst G. destruct isGridless; [by apply elem_of_nil in Ht |].
            apply list_elem_of_singleton in Ht as ->. done.
          * apply HB. apply elem_of_app. right. by right. }
    rewrite findIndex_first by done.
    replace (Z.of_nat (length (A ++ sel :: G ++ B)) + 1)
      with (Z.of_nat (length ((A ++ sel :: G ++ B) ++ [pol])))
      by (rewrite (length_app _ [pol]); simpl; lia).
    replace ((A ++ sel :: G ++ B) ++ pol :: C ++ clr :: D)
      with (((A ++ sel :: G ++ B) ++ [pol]) ++ C ++ clr :: D)
      by (by rewrite <- app_assoc).
    rewrite splice_app.
    rewrite (splice_app ((A ++ sel :: G ++ B) ++ [pol]) (WALLS :: C ++ clr :: D)).
    destruct isGM.
    - replace (((A ++ sel :: G ++ B) ++ [pol]) ++ LOS :: WALLS :: C ++ clr :: D)
        with ((A ++ sel :: G ++ B ++ pol :: LOS :: WALLS :: C) ++ clr :: D)
        by (rewrite <- !app_assoc; simpl; by rewrite <- !app_assoc).
      rewrite findIndex_first; [| | done].
      + rewrite splice_app. rewrite <- !app_assoc. simpl. by rewrite <- !app_assoc.
      + intros t Ht. apply elem_of_app in Ht as [Ht | Ht].
        { apply HC. apply elem_of_app. by left. }
        apply elem_of_cons in Ht as [-> | Ht].
        { apply HC. apply elem_of_app. right. left. }
        apply elem_of_app in Ht as [Ht | Ht].
        { subst G. destruct isGridless; [by apply elem_of_nil in Ht |].
          apply list_elem_of_singleton in Ht as ->. done. }
        apply elem_of_app in Ht as [Ht | Ht].
        { apply HC. apply elem_of_app. right. right. apply elem_of_app. by left. }
        apply elem_of_cons in Ht as [-> | Ht].
        { apply HC. apply elem_of_app. right. right. apply elem_of_app. right. left. }
        apply elem_of_cons in Ht as [-> | Ht]; [done |].
        apply elem_of_cons in Ht as [-> | Ht]; [done |].
        apply HC. apply elem_of_app. right. right. apply elem_of_app. right. by right.
    - rewrite <- !app_assoc. simpl. by rewrite <- !app_assoc. }
  split; [exact Htools |].
  unfold Controls.getSceneControlButtons. simpl.
  induction before as [|c before IH]; simpl.
  - by rewrite Htools.
  - rewrite bool_decide_eq_false_2 by (apply Hbefore; left).
    f_equal. apply IH. intros c' Hc'. apply Hbefore. by right.
Qed.

(** X22.  [getSceneControlButtons] never removes or reorders a tool: the
    tools it finds stay in their order and two to four tools are added.
    When a tool it looks for is missing the index is [-1]: with no select
    tool fill-by-grid is put first, with no polygon tool fill-by-LOS and
    fill-by-walls are put first, and with no clear tool the terrain book
    is put before the last tool, not after it.  Without a scene, or
    without a control named "regions", nothing changes. *)
Theorem getSceneControlButtons_without_the_anchor_tools
    (isGridless isGM : bool) (tools : list (Controls.Tool Rest))
    (controls : list (Controls.Control Rest)) :
  sublist tools (addRegionTools isGridless isGM tools)
  /\ length (addRegionTools isGridless isGM tools)
     = (length tools + 2 + (if isGridless then 0 else 1) + (if isGM then 1 else 0))%nat
  /\ ((forall t, t ∈ tools -> Controls.name t <> "select") ->
      addRegionTools false isGM tools = addRegionTools true isGM (GRID :: tools))
  /\ ((forall t, t ∈ tools -> Controls.name t <> "polygon") ->
      addRegionTools true false tools = LOS :: WALLS :: tools)
  /\ ((forall t, t ∈ tools -> Controls.name t <> "clear") ->
      exists T x,
        addRegionTools isGridless false tools = T ++ [x]
        /\ addRegionTools isGridless true tools = T ++ [BOOK; x])
  /\ Controls.getSceneControlButtons byGrid byLOS byWalls book false isGridless isGM
       controls = controls
  /\ ((forall c, c ∈ controls -> Controls.control_name c <> "regions") ->
      Controls.getSceneControlButtons byGrid byLOS byWalls book true isGridless isGM
        controls = controls).
Proof.
  split_and!.
  - unfold Controls.addRegionTools.
    destruct isGridless, isGM; simpl;
      repeat (etransitivity; [| apply sublist_splice]); done.
  - unfold Controls.addRegionTools.
    destruct isGridless, isGM; simpl; rewrite !length_splice; lia.
  - intros Hsel. unfold Controls.addRegionTools. simpl.
    by rewrite findIndex_missing, splice_front by done.
  - intros Hpol. unfold Controls.addRegionTools. simpl.
    by rewrite findIndex_missing, !splice_front by done.
  - intros Hclr.
    set (T0 := addRegionTools isGridless false tools).
    assert (Hstep : addRegionTools isGridless true tools
                    = Controls.splice T0
                        (Controls.findIndex (Controls.named "clear") T0) BOOK).
    { reflexivity. }
    assert (Hnone : forall t, t ∈ T0 -> Controls.name t <> "clear").
    { subst T0. unfold Controls.addRegionTools. intros t Ht.
      destruct isGridless; simpl in Ht;
        repeat (apply elem_of_splice in Ht as [-> | Ht]; [done |]); by apply Hclr. }
    assert (Hlast : exists T x, T0 = T ++ [x]).
    { assert (Hlen : length T0 <> 0%nat).
      { subst T0. unfold Controls.addRegionTools.
        destruct isGridless; simpl; rewrite !length_splice; lia. }
      destruct T0 as [|y T0] using rev_ind; [done | eauto]. }
    destruct Hlast as (T & x & HT). exists T, x. split; [done |].
    rewrite Hstep, findIndex_missing by done. rewrite HT. apply splice_before_last.
  - done.
  - intros Hnone. unfold Controls.getSceneControlButtons. simpl.
    induction controls as [|c controls IH]; [done |]. simpl.
    rewrite bool_decide_eq_false_2 by (apply Hnone; left).
    f_equal. apply IH. intros c' Hc'. apply Hnone. by right.
Qed.

End ControlsProperties.

(** The state after a sequence of [renderSceneControls] calls, each given
    by the active control and the active tool. *)
Lemma renderSceneControls_step (activeControl activeTool : string)
    (st : Controls.DisplayState) :
  Controls.shown (Controls.events st) [] = option_list (Controls.wallDisplay st) ->
  (forall d, Controls.wallDisplay st = Some d -> (d < Controls.nextDisplay st)%nat) ->
  let st' := Controls.renderSceneControls activeControl activeTool st in
  Controls.shown (Controls.events st') [] = option_list (Controls.wallDisplay st')
  /\ (forall d, Controls.wallDisplay st' = Some d -> (d < Controls.nextDisplay st')%nat)
  /\ (is_Some (Controls.wallDisplay st')
      <-> activeControl = "regions" /\ activeTool = "fill-by-walls").
Proof.
  assert (Hshown : forall evs acc ev,
            Controls.shown (evs ++ [ev]) acc
            = Controls.shown [ev] (Controls.shown evs acc)).
  { induction evs as [|e evs IH]; intros acc ev; [done |].
    destruct e; simpl; apply IH. }
  intros Hinv Hfresh st'. subst st'. unfold Controls.renderSceneControls.
  destruct (decide (activeControl = "regions" /\ activeTool = "fill-by-walls"))
    as [[-> ->] | Hoff].
  - simpl. destruct (Controls.wallDisplay st) as [d|] eqn:Hd; simpl.
    + rewrite Hd. split_and!; [done | done |]. split; [done | by eexists].
    + rewrite Hshown, Hinv. simpl. split_and!; [done | |].
      * intros d [= <-]. lia.
      * split; [done | by eexists].
  - assert (Hfalse : bool_decide (activeControl = "regions")
                     && bool_decide (activeTool = "fill-by-walls") = false).
    { apply andb_false_iff.
      destruct (decide (activeControl = "regions")) as [Hc | Hc].
      - right. apply bool_decide_eq_false_2. tauto.
      - left. by apply bool_decide_eq_false_2. }
    rewrite Hfalse. simpl.
    destruct (Controls.wallDisplay st) as [d|] eqn:Hd; simpl.
    + rewrite Hshown, Hinv. simpl.
      rewrite filter_cons_False by (intros Hne; by apply Hne).
      split_and!; [done | done |].
      split; [by intros [? ?] | done].
    + rewrite Hd. split_and!; [done | done |].
      split; [by intros [? ?] | done].
Qed.

(** X23.  [renderSceneControls], called any number of times from the
    start (no wall display): after every call the displays rendered and
    not destroyed since are exactly the one held in [wallDisplay], so at
    most one is ever shown and none is lost; and after a call a display
    is shown if and only if the active control is "regions" and the
    active tool is "fill-by-walls". *)
Theorem renderSceneControls_shows_at_most_one_display
    (calls : list (string * string)) :
  let run := foldl (fun st call => Controls.renderSceneControls call.1 call.2 st)
                   {| Controls.wallDisplay := None; Controls.nextDisplay := 0;
                      Controls.events := [] |} in
  Controls.shown (Controls.events (run calls)) []
  = option_list (Controls.wallDisplay (run calls))
  /\ forall before activeControl activeTool,
       calls = before ++ [(activeControl, activeTool)] ->
       (is_Some (Controls.wallDisplay (run calls))
        <-> activeControl = "regions" /\ activeTool = "fill-by-walls").
Proof.
  intros run.
  assert (Hinv : forall cs,
            Controls.shown (Controls.events (run cs)) []
            = option_list (Controls.wallDisplay (run cs))
            /\ (forall d, Controls.wallDisplay (run cs) = Some d ->
                          (d < Controls.nextDisplay (run cs))%nat)).
  { induction cs as [|[ac at'] cs IH] using rev_ind; [done |].
    subst run. simpl. rewrite foldl_app. simpl.
    destruct IH as [IH1 IH2].
    destruct (renderSceneControls_step ac at' _ IH1 IH2) as (H1 & H2 & _). done. }
  split; [apply Hinv |].
  intros before ac at' ->. subst run. simpl. rewrite foldl_app. simpl.
  destruct (Hinv before) as [IH1 IH2].
  destruct (renderSceneControls_step ac at' _ IH1 IH2) as (_ & _ & H3). exact H3.
Qed.

(* ===================================================================== *)
(** ** The wall tracker *)
(* ===================================================================== *)

Lemma walls_children_allocated (s : Walls.Tracker) (o : nat) :
  Walls.consistent s -> o ∈ Walls.children s -> (o < Walls.nextObject s)%nat.
Proof.
  intros Hc Ho. apply (Walls.shown_tracked s Hc) in Ho as (id & e & He & Hown).
  by eapply Walls.allocated.
Qed.

Lemma walls_addChild_fresh (s : Walls.Tracker) (o : nat) :
  o ∉ Walls.children s ->
  Walls.children (Walls.addChild o s) = Walls.children s ++ [o].
Proof.
  intros Ho. unfold Walls.addChild. simpl. f_equal.
  apply filter_id. intros c Hc ->. done.
Qed.

Lemma walls_consistent_empty : Walls.consistent Walls.empty.
Proof.
  split; simpl.
  - intros o. split.
    + intros Ho. by apply elem_of_nil in Ho.
    + intros (id & e & He & _). by rewrite lookup_empty in He.
  - constructor.
  - intros id e o He. by rewrite lookup_empty in He.
  - intros id1 id2 e1 e2 o He. by rewrite lookup_empty in He.
  - intros id e He. by rewrite lookup_empty in He.
Qed.

(** Tracking a new wall keeps the tracker consistent. *)
Lemma walls_addUntracked_consistent (wall : Walls.Wall) (s : Walls.Tracker) :
  Walls.consistent s ->
  Walls.wallTracker s !! Walls.wall_id wall = None ->
  Walls.consistent (Walls.addUntracked wall s).
Proof.
  intros Hc Hnone.
  set (n := Walls.nextObject s).
  assert (Hlt : forall o, o ∈ Walls.children s -> (o < n)%nat).
  { intros o Ho. by apply walls_children_allocated. }
  assert (Hn : n ∉ Walls.children s).
  { intros Hin. apply Hlt in Hin. lia. }
  assert (HSn : S n ∉ Walls.children s ++ [n]).
  { intros Hin. apply elem_of_app in Hin as [Hin | Hin].
    - apply Hlt in Hin. lia.
    - apply list_elem_of_singleton in Hin. lia. }
  set (t := match Walls.top wall, Walls.bottom wall with
            | None, None => None
            | _, _ => Some (S n)
            end).
  set (e0 := {| Walls.graphics := n; Walls.text := t |}).
  assert (Hstate :
    Walls.wallTracker (Walls.addUntracked wall s)
    = <[Walls.wall_id wall := e0]> (Walls.wallTracker s)
    /\ Walls.children (Walls.addUntracked wall s)
       = Walls.children s ++ n :: option_list t
    /\ (forall o, Walls.owns e0 o ->
          (n <= o < Walls.nextObject (Walls.addUntracked wall s))%nat)).
  { assert (Hf1 : filter (fun c => c <> n) (Walls.children s) = Walls.children s).
    { apply filter_id. intros c Hc' ->. done. }
    assert (Hf2 : filter (fun c => c <> S n) (Walls.children s ++ [n])
                  = Walls.children s ++ [n]).
    { apply filter_id. intros c Hc' ->. done. }
    unfold Walls.addUntracked, Walls.drawWallSegment, Walls.drawWallRange.
    subst e0 t. fold n.
    destruct (Walls.top wall), (Walls.bottom wall); simpl;
      rewrite Hf1, ?Hf2, <- ?app_assoc;
      (split_and!; [ reflexivity | reflexivity | ]);
      intros o [-> | Ho]; simpl in *; simplify_eq; lia. }
  destruct Hstate as (Hm & Hch & Halloc).
  assert (Hold : forall id e o,
             Walls.wallTracker s !! id = Some e -> Walls.owns e o -> (o < n)%nat).
  { intros id e o. apply (Walls.allocated s Hc). }
  assert (Htwo : Walls.text e0 <> Some (Walls.graphics e0)).
  { subst e0 t. simpl. destruct (Walls.top wall), (Walls.bottom wall);
      intros ?; simplify_eq; lia. }
  assert (Hshown : forall o, o ∈ n :: option_list t <-> Walls.owns e0 o).
  { intros o. subst e0. unfold Walls.owns. simpl. destruct t as [t' |]; simpl.
    - rewrite !elem_of_cons, elem_of_nil. split.
      + intros [-> | [-> | []]]; auto.
      + intros [-> | [= ->]]; auto.
    - rewrite elem_of_cons, elem_of_nil. split.
      + intros [-> | []]; auto.
      + intros [-> | ?]; [auto | done]. }
  split; rewrite ?Hm, ?Hch.
  - intros o. rewrite elem_of_app, Hshown, (Walls.shown_tracked s Hc). split.
    + intros [(id & e & He & Hown) | Hown].
      * exists id, e. split; [| done]. rewrite lookup_insert_ne; [done |].
        intros <-. congruence.
      * exists (Walls.wall_id wall), e0. by rewrite lookup_insert_eq.
    + intros (id & e & He & Hown).
      destruct (decide (id = Walls.wall_id wall)) as [-> | Hne].
      * rewrite lookup_insert_eq in He. simplify_eq. by right.
      * rewrite lookup_insert_ne in He by done. left. eauto.
  - apply NoDup_app. split_and!.
    + apply (Walls.shown_once s Hc).
    + intros o Ho Ho'. apply Hshown, Halloc in Ho'. apply Hlt in Ho. lia.
    + subst t. destruct (Walls.top wall), (Walls.bottom wall); simpl;
        repeat (apply NoDup_cons; split); try apply NoDup_nil_2;
        rewrite ?elem_of_cons, ?elem_of_nil; lia.
  - intros id e o He Hown.
    destruct (decide (id = Walls.wall_id wall)) as [-> | Hne].
    + rewrite lookup_insert_eq in He. simplify_eq. by apply Halloc.
    + rewrite lookup_insert_ne in He by done.
      specialize (Hold _ _ _ He Hown).
      specialize (Halloc n (or_introl eq_refl)). lia.
  - intros id1 id2 e1 e2 o He1 He2 Ho1 Ho2.
    destruct (decide (id1 = Walls.wall_id wall)) as [-> | Hne1];
      destruct (decide (id2 = Walls.wall_id wall)) as [-> | Hne2]; [done | | |].
    + rewrite lookup_insert_eq in He1. rewrite lookup_insert_ne in He2 by done.
      simplify_eq. apply Halloc in Ho1. specialize (Hold _ _ _ He2 Ho2). lia.
    + rewrite lookup_insert_eq in He2. rewrite lookup_insert_ne in He1 by done.
      simplify_eq. apply Halloc in Ho2. specialize (Hold _ _ _ He1 Ho1). lia.
    + rewrite lookup_insert_ne in He1, He2 by done.
      by apply (Walls.one_owner s Hc id1 id2 e1 e2 o).
  - intros id e He.
    destruct (decide (id = Walls.wall_id wall)) as [-> | Hne].
    + rewrite lookup_insert_eq in He. by simplify_eq.
    + rewrite lookup_insert_ne in He by done. by apply (Walls.two_objects s Hc id).
Qed.

(** Consistency reads the tracker, the children and the next identity
    only. *)
Lemma walls_consistent_ext (s s' : Walls.Tracker) :
  Walls.wallTracker s' = Walls.wallTracker s ->
  Walls.children s' = Walls.children s ->
  Walls.nextObject s' = Walls.nextObject s ->
  Walls.consistent s -> Walls.consistent s'.
Proof.
  intros Hm Hch Hn [H1 H2 H3 H4 H5].
  split; rewrite ?Hm, ?Hch, ?Hn; assumption.
Qed.

(** A tracked wall loses its text. *)
Lemma walls_drop_text_consistent (s s' : Walls.Tracker) id g old :
  Walls.consistent s ->
  Walls.wallTracker s !! id = Some {| Walls.graphics := g; Walls.text := Some old |} ->
  Walls.wallTracker s'
  = <[id := {| Walls.graphics := g; Walls.text := None |}]> (Walls.wallTracker s) ->
  Walls.children s' = filter (fun c => c <> old) (Walls.children s) ->
  Walls.nextObject s' = Walls.nextObject s ->
  Walls.consistent s'.
Proof.
  intros Hc Hobj Hm Hch Hn.
  assert (Hgold : old <> g).
  { intros ->. by apply (Walls.two_objects s Hc _ _ Hobj). }
  assert (Hsub : forall id' e' o,
             Walls.wallTracker s' !! id' = Some e' -> Walls.owns e' o ->
             o <> old /\ exists e'', Walls.wallTracker s !! id' = Some e''
                                    /\ Walls.owns e'' o).
  { intros id' e' o He Hown. rewrite Hm in He.
    destruct (decide (id' = id)) as [-> | Hne].
    - rewrite lookup_insert_eq in He. simplify_eq.
      destruct Hown as [-> | Hown]; [| done]. simpl. split; [done |].
      eexists. split; [done |]. by left.
    - rewrite lookup_insert_ne in He by done. split; [| eauto].
      intros ->. apply Hne.
      apply (Walls.one_owner s Hc id' id _ _ old He Hobj Hown). by right. }
  split; rewrite ?Hch, ?Hn.
  - intros o. rewrite list_elem_of_filter, (Walls.shown_tracked s Hc). split.
    + intros (Hne & id' & e' & He & Hown).
      destruct (decide (id' = id)) as [-> | Hne'].
      * exists id. eexists. rewrite Hm, lookup_insert_eq. split; [done |].
        rewrite Hobj in He. simplify_eq.
        destruct Hown as [-> | Hown]; [by left |]. simpl in Hown. congruence.
      * exists id', e'. by rewrite Hm, lookup_insert_ne.
    + intros (id' & e' & He & Hown).
      destruct (Hsub _ _ _ He Hown) as (Hne & e'' & He'' & Hown''). eauto.
  - apply NoDup_filter, (Walls.shown_once s Hc).
  - intros id' e' o He Hown.
    destruct (Hsub _ _ _ He Hown) as (_ & e'' & He'' & Hown'').
    by apply (Walls.allocated s Hc id' e'').
  - intros id1 id2 e1 e2 o He1 He2 Ho1 Ho2.
    destruct (Hsub _ _ _ He1 Ho1) as (_ & e1' & He1' & Ho1').
    destruct (Hsub _ _ _ He2 Ho2) as (_ & e2' & He2' & Ho2').
    by apply (Walls.one_owner s Hc id1 id2 e1' e2' o).
  - intros id' e' He. rewrite Hm in He.
    destruct (decide (id' = id)) as [-> | Hne].
    + rewrite lookup_insert_eq in He. by simplify_eq.
    + rewrite lookup_insert_ne in He by done. by apply (Walls.two_objects s Hc id').
Qed.

(** A tracked wall gets a new text. *)
Lemma walls_add_text_consistent (s s' : Walls.Tracker) id g :
  Walls.consistent s ->
  Walls.wallTracker s !! id = Some {| Walls.graphics := g; Walls.text := None |} ->
  Walls.wallTracker s'
  = <[id := {| Walls.graphics := g; Walls.text := Some (Walls.nextObject s) |}]>
      (Walls.wallTracker s) ->
  Walls.children s' = Walls.children s ++ [Walls.nextObject s] ->
  Walls.nextObject s' = S (Walls.nextObject s) ->
  Walls.consistent s'.
Proof.
  intros Hc Hobj Hm Hch Hn.
  set (n := Walls.nextObject s) in *.
  assert (Hold : forall id' e' o,
             Walls.wallTracker s !! id' = Some e' -> Walls.owns e' o -> (o < n)%nat).
  { intros id' e' o. apply (Walls.allocated s Hc). }
  assert (Hg : (g < n)%nat).
  { apply (Hold _ _ _ Hobj). by left. }
  assert (Hsub : forall id' e' o,
             Walls.wallTracker s' !! id' = Some e' -> Walls.owns e' o ->
             (o = n /\ id' = id)
             \/ (o <> n /\ exists e'', Walls.wallTracker s !! id' = Some e''
                                      /\ Walls.owns e'' o)).
  { intros id' e' o He Hown. rewrite Hm in He.
    destruct (decide (id' = id)) as [-> | Hne].
    - rewrite lookup_insert_eq in He. simplify_eq.
      destruct Hown as [-> | Hown]; simpl in *.
      + right. split; [lia |]. eexists. split; [done |]. by left.
      + left. by simplify_eq.
    - rewrite lookup_insert_ne in He by done. right. split; [| eauto].
      specialize (Hold _ _ _ He Hown). lia. }
  split; rewrite ?Hch, ?Hn.
  - intros o. rewrite elem_of_app, list_elem_of_singleton, (Walls.shown_tracked s Hc).
    split.
    + intros [(id' & e' & He & Hown) | ->].
      * destruct (decide (id' = id)) as [-> | Hne'].
        -- exists id. eexists. rewrite Hm, lookup_insert_eq. split; [done |].
           rewrite Hobj in He. simplify_eq.
           destruct Hown as [-> | Hown]; [by left | done].
        -- exists id', e'. by rewrite Hm, lookup_insert_ne.
      * exists id. eexists. rewrite Hm, lookup_insert_eq. split; [done |]. by right.
    + intros (id' & e' & He & Hown).
      destruct (Hsub _ _ _ He Hown) as [[-> _] | (_ & e'' & He'' & Hown'')]; eauto.
  - apply NoDup_app. split_and!.
    + apply (Walls.shown_once s Hc).
    + intros o Ho Ho'. apply list_elem_of_singleton in Ho'. subst o.
      apply walls_children_allocated in Ho; [| done]. fold n in Ho. lia.
    + apply NoDup_singleton.
  - intros id' e' o He Hown.
    destruct (Hsub _ _ _ He Hown) as [[-> _] | (_ & e'' & He'' & Hown'')]; [lia |].
    specialize (Hold _ _ _ He'' Hown''). lia.
  - intros id1 id2 e1 e2 o He1 He2 Ho1 Ho2.
    destruct (Hsub _ _ _ He1 Ho1) as [[-> ->] | (Hn1 & e1' & He1' & Ho1')];
      destruct (Hsub _ _ _ He2 Ho2) as [[? ->] | (Hn2 & e2' & He2' & Ho2')];
      try done.
    by apply (Walls.one_owner s Hc id1 id2 e1' e2' o).
  - intros id' e' He. rewrite Hm in He.
    destruct (decide (id' = id)) as [-> | Hne].
    + rewrite lookup_insert_eq in He. simplify_eq. simpl. intros [= ?]. lia.
    + rewrite lookup_insert_ne in He by done. by apply (Walls.two_objects s Hc id').
Qed.

(** Drawing a tracked wall again keeps the tracker consistent. *)
Lemma walls_updateTracked_consistent (wall : Walls.Wall) (obj : Walls.Entry)
    (s : Walls.Tracker) :
  Walls.consistent s ->
  Walls.wallTracker s !! Walls.wall_id wall = Some obj ->
  Walls.consistent (Walls.updateTracked wall obj s).
Proof.
  intros Hc Hobj. destruct obj as [g [old |]].
  - (* the wall has a text *)
    destruct (Walls.top wall) as [tp |] eqn:Htop;
      [| destruct (Walls.bottom wall) as [bt |] eqn:Hbot ].
    1, 2: apply (walls_consistent_ext s); [| | | done];
          unfold Walls.updateTracked, Walls.drawWallSegment, Walls.drawWallRange;
          rewrite ?Htop, ?Hbot; simpl; [by apply insert_id | done | done].
    apply (walls_drop_text_consistent s _ (Walls.wall_id wall) g old); [done | done | | |];
      unfold Walls.updateTracked, Walls.drawWallSegment, Walls.drawWallRange;
      rewrite Htop, Hbot; reflexivity.
  - (* the wall has no text *)
    assert (Hf : filter (fun c => c <> Walls.nextObject s) (Walls.children s)
                 = Walls.children s).
    { apply filter_id. intros c Hin ->.
      apply walls_children_allocated in Hin; [lia | done]. }
    destruct (Walls.top wall) as [tp |] eqn:Htop;
      [| destruct (Walls.bottom wall) as [bt |] eqn:Hbot ].
    1, 2: apply (walls_add_text_consistent s _ (Walls.wall_id wall) g); [done | done | | |];
          unfold Walls.updateTracked, Walls.drawWallSegment, Walls.drawWallRange;
          rewrite ?Htop, ?Hbot; simpl; rewrite ?Hf; reflexivity.
    apply (walls_consistent_ext s); [| | | done];
      unfold Walls.updateTracked, Walls.drawWallSegment, Walls.drawWallRange;
      rewrite Htop, Hbot; simpl; [by apply insert_id | done | done].
Qed.

(** What [_removeWall] leaves of the tracker and of the container. *)
Lemma walls_removeWall_tracked (wallId : string) (obj : Walls.Entry) (s : Walls.Tracker) :
  Walls.wallTracker s !! wallId = Some obj ->
  Walls.wallTracker (Walls._removeWall wallId s) = delete wallId (Walls.wallTracker s)
  /\ (forall o, o ∈ Walls.children (Walls._removeWall wallId s)
                <-> o ∈ Walls.children s /\ ~ Walls.owns obj o)
  /\ (NoDup (Walls.children s) -> NoDup (Walls.children (Walls._removeWall wallId s)))
  /\ Walls.nextObject (Walls._removeWall wallId s) = Walls.nextObject s.
Proof.
  intros Hobj. unfold Walls._removeWall. rewrite Hobj.
  destruct obj as [g [t |]]; simpl; (split_and!; [done | | | done]).
  - intros o. rewrite !list_elem_of_filter. unfold Walls.owns. simpl.
    split; [intros (? & ? & ?) | intros (? & Hno)].
    + split; [done |]. intros [-> | [= ->]]; done.
    + split_and!; [| | done]; intros ->; apply Hno; auto.
  - intros Hnd. by do 2 apply NoDup_filter.
  - intros o. rewrite list_elem_of_filter. unfold Walls.owns. simpl.
    split; [intros (? & ?) | intros (? & Hno)].
    + split; [done |]. intros [-> | [=]]; done.
    + split; [| done]. intros ->. apply Hno. auto.
  - intros Hnd. by apply NoDup_filter.
Qed.

Lemma walls_removeWall_consistent (wallId : string) (s : Walls.Tracker) :
  Walls.consistent s -> Walls.consistent (Walls._removeWall wallId s).
Proof.
  intros Hc.
  destruct (Walls.wallTracker s !! wallId) as [obj |] eqn:Hobj;
    [| unfold Walls._removeWall; by rewrite Hobj ].
  destruct (walls_removeWall_tracked wallId obj s Hobj) as (Hm & Hch & Hnd & Hn).
  split; rewrite ?Hm, ?Hn.
  - intros o. rewrite Hch, (Walls.shown_tracked s Hc). split.
    + intros ((id & e & He & Hown) & Hno). exists id, e. split; [| done].
      rewrite lookup_delete_ne; [done |]. intros <-. apply Hno. congruence.
    + intros (id & e & He & Hown).
      apply lookup_delete_Some in He as [Hne He]. split; [eauto |].
      intros Hown'. apply Hne.
      by apply (Walls.one_owner s Hc wallId id obj e o).
  - apply Hnd, (Walls.shown_once s Hc).
  - intros id e o He. apply lookup_delete_Some in He as [_ He].
    by apply (Walls.allocated s Hc id).
  - intros id1 id2 e1 e2 o He1 He2.
    apply lookup_delete_Some in He1 as [_ He1].
    apply lookup_delete_Some in He2 as [_ He2].
    by apply (Walls.one_owner s Hc id1 id2).
  - intros id e He. apply lookup_delete_Some in He as [_ He].
    by apply (Walls.two_objects s Hc id).
Qed.

(** The tracker after [_removeWall], tracked or not. *)
Lemma walls_removeWall_tracker (wallId : string) (s : Walls.Tracker) :
  Walls.wallTracker (Walls._removeWall wallId s) = delete wallId (Walls.wallTracker s).
Proof.
  destruct (Walls.wallTracker s !! wallId) as [obj |] eqn:Hobj.
  - by apply (walls_removeWall_tracked wallId obj).
  - unfold Walls._removeWall. rewrite Hobj. symmetry. by apply delete_id.
Qed.

(** Removing a list of walls in turn. *)
Lemma walls_remove_all (ids : list string) (s : Walls.Tracker) :
  Walls.consistent s ->
  let s' := foldl (fun s wallId => Walls._removeWall wallId s) s ids in
  Walls.consistent s'
  /\ forall id, Walls.wallTracker s' !! id
                = if decide (id ∈ ids) then None else Walls.wallTracker s !! id.
Proof.
  revert s. induction ids as [| i ids IH]; intros s Hc; cbn [foldl].
  - split; [done |]. intros id. rewrite decide_False; [done |]. apply not_elem_of_nil.
  - destruct (IH _ (walls_removeWall_consistent i s Hc)) as [Hc' Hl].
    split; [done |]. intros id. rewrite Hl, walls_removeWall_tracker.
    destruct (decide (id ∈ ids)) as [Hin | Hnin].
    + rewrite decide_True; [done |]. by right.
    + destruct (decide (id = i)) as [-> | Hne].
      * rewrite decide_True by left. by rewrite lookup_delete_eq.
      * rewrite decide_False; [by rewrite lookup_delete_ne |].
        rewrite elem_of_cons. intros [? | ?]; done.
Qed.

Lemma walls_clearWallTracker_spec (s : Walls.Tracker) :
  Walls.consistent s ->
  Walls.consistent (Walls._clearWallTracker s)
  /\ Walls.wallTracker (Walls._clearWallTracker s) = ∅
  /\ Walls.children (Walls._clearWallTracker s) = [].
Proof.
  intros Hc. unfold Walls._clearWallTracker.
  destruct (walls_remove_all (map_to_list (Walls.wallTracker s)).*1 s Hc) as [Hc' Hl].
  set (s' := foldl _ _ _) in *.
  assert (Hm : Walls.wallTracker s' = ∅).
  { apply map_empty. intros id. rewrite Hl.
    destruct (decide _) as [| Hnin]; [done |].
    destruct (Walls.wallTracker s !! id) as [e |] eqn:He; [| done].
    exfalso. apply Hnin. apply list_elem_of_fmap. exists (id, e).
    split; [done |]. by apply elem_of_map_to_list. }
  split_and!; [done | done |].
  apply elem_of_nil_inv. intros o Ho.
  apply (Walls.shown_tracked s' Hc') in Ho as (id & e & He & _).
  by rewrite Hm, lookup_empty in He.
Qed.

(** Two removals can be exchanged. *)
Lemma walls_removeWall_commute (a b : string) (s : Walls.Tracker) :
  Walls._removeWall a (Walls._removeWall b s)
  = Walls._removeWall b (Walls._removeWall a s).
Proof.
  destruct (decide (a = b)) as [-> | Hne]; [done |].
  assert (Ha : Walls.wallTracker (Walls._removeWall b s) !! a = Walls.wallTracker s !! a).
  { by rewrite walls_removeWall_tracker, lookup_delete_ne. }
  assert (Hb : Walls.wallTracker (Walls._removeWall a s) !! b = Walls.wallTracker s !! b).
  { by rewrite walls_removeWall_tracker, lookup_delete_ne. }
  unfold Walls._removeWall at 1 3. rewrite Ha, Hb.
  unfold Walls._removeWall.
  destruct (Walls.wallTracker s !! a) as [[ga ta] |] eqn:Hga;
    destruct (Walls.wallTracker s !! b) as [[gb tb] |] eqn:Hgb; try done.
  destruct ta as [ta |], tb as [tb |]; simpl; f_equal;
    try apply delete_delete;
    try (rewrite !list_filter_filter; apply list_filter_iff; intros x; tauto);
    repeat (first [ done | rewrite (delete_delete _ ga) | rewrite (delete_delete _ ta)
                  | f_equal ]).
Qed.

(** The order in which walls are removed does not matter. *)
Lemma walls_removeWall_order (ids ids' : list string) :
  ids ≡ₚ ids' ->
  forall s, foldl (fun s wallId => Walls._removeWall wallId s) s ids
            = foldl (fun s wallId => Walls._removeWall wallId s) s ids'.
Proof.
  induction 1 as [| x l l' _ IH | x y l | l1 l2 l3 _ IH1 _ IH2]; intros s; cbn [foldl].
  - done.
  - apply IH.
  - by rewrite walls_removeWall_commute.
  - by rewrite IH1.
Qed.

Lemma walls_updateTracked_fixpoint (wall : Walls.Wall) (e : Walls.Entry)
    (s : Walls.Tracker) :
  Walls.drawnAs wall e s -> Walls.updateTracked wall e s = s.
Proof.
  intros (He & Hd & Ht). destruct s as [m ch dr tx n], e as [g t]. simpl in *.
  unfold Walls.bounded, Walls.rangeTextOf, Walls.drawingOf in *.
  unfold Walls.updateTracked, Walls.drawWallSegment, Walls.drawWallRange,
    Walls.set_entry.
  destruct (Walls.top wall), (Walls.bottom wall);
    try destruct Ht as (t' & -> & Ht); subst; simpl in *;
    f_equal; by apply insert_id.
Qed.

Lemma walls_addUntracked_drawn (wall : Walls.Wall) (s : Walls.Tracker) :
  exists e, Walls.drawnAs wall e (Walls.addUntracked wall s).
Proof.
  unfold Walls.drawnAs, Walls.bounded, Walls.rangeTextOf, Walls.drawingOf.
  unfold Walls.addUntracked, Walls.drawWallSegment, Walls.drawWallRange.
  destruct (Walls.top wall), (Walls.bottom wall); simpl;
    eexists; (split; [apply lookup_insert_eq |]); simpl;
    (split; [| try eexists; try split; try reflexivity ]);
    rewrite ?lookup_insert_eq; reflexivity.
Qed.

Lemma walls_updateTracked_drawn (wall : Walls.Wall) (obj : Walls.Entry)
    (s : Walls.Tracker) :
  Walls.text obj <> Some (Walls.graphics obj) ->
  exists e, Walls.drawnAs wall e (Walls.updateTracked wall obj s).
Proof.
  intros Hne.
  unfold Walls.drawnAs, Walls.bounded, Walls.rangeTextOf, Walls.drawingOf.
  unfold Walls.updateTracked, Walls.drawWallSegment, Walls.drawWallRange.
  destruct obj as [g [old |]]; simpl in *;
    destruct (Walls.top wall), (Walls.bottom wall); simpl;
    eexists; (split; [apply lookup_insert_eq |]); simpl;
    (split; [| try eexists; try split; try reflexivity ]);
    rewrite ?lookup_insert_eq; try reflexivity.
  rewrite lookup_delete_ne by congruence. apply lookup_insert_eq.
Qed.

Lemma walls_add_is_update (wall : Walls.Wall) (s : Walls.Tracker) :
  Walls._updateWall wall s = Walls._addWall wall s.
Proof.
  unfold Walls._updateWall, Walls._addWall.
  by destruct (Walls.wallTracker s !! Walls.wall_id wall).
Qed.

Lemma walls_addWall_consistent (wall : Walls.Wall) (s : Walls.Tracker) :
  Walls.consistent s -> Walls.consistent (Walls._addWall wall s).
Proof.
  intros Hc. unfold Walls._addWall.
  destruct (Walls.wallTracker s !! Walls.wall_id wall) as [obj |] eqn:Hobj.
  - by apply walls_updateTracked_consistent.
  - by apply walls_addUntracked_consistent.
Qed.

Lemma walls_addWall_drawn (wall : Walls.Wall) (s : Walls.Tracker) :
  Walls.consistent s -> exists e, Walls.drawnAs wall e (Walls._addWall wall s).
Proof.
  intros Hc. unfold Walls._addWall.
  destruct (Walls.wallTracker s !! Walls.wall_id wall) as [obj |] eqn:Hobj.
  - apply walls_updateTracked_drawn. by apply (Walls.two_objects s Hc _ _ Hobj).
  - apply walls_addUntracked_drawn.
Qed.

Lemma walls_call_consistent (s : Walls.Tracker) (c : Walls.Call) :
  Walls.consistent s -> Walls.consistent (Walls.call s c).
Proof.
  intros Hc. destruct c as [wall | wall | wallId |]; simpl.
  - by apply walls_addWall_consistent.
  - rewrite walls_add_is_update. by apply walls_addWall_consistent.
  - by apply walls_removeWall_consistent.
  - by apply walls_clearWallTracker_spec.
Qed.

(** Every state the four methods reach from a consistent one is
    consistent. *)
Lemma walls_calls_consistent (calls : list Walls.Call) (s : Walls.Tracker) :
  Walls.consistent s -> Walls.consistent (foldl Walls.call s calls).
Proof.
  revert s. induction calls as [| c calls IH]; intros s Hc; cbn [foldl]; [done |].
  by apply IH, walls_call_consistent.
Qed.

(** X24.  Whatever walls are added, updated and removed on a layer, in
    whatever order, the wall container shows the graphics and the texts of
    the tracked walls and nothing else, each of them once, and no graphics
    or text serves two walls or serves as both for one wall. *)
Theorem wall_tracker_shows_the_tracked_walls (calls : list Walls.Call) :
  Walls.consistent (foldl Walls.call Walls.empty calls).
Proof. apply walls_calls_consistent, walls_consistent_empty. Qed.

(** X25.  On a layer in any state the four methods reach, [_removeWall]
    of a tracked wall untracks it, destroys its graphics and takes its
    graphics and its text, and them only, out of the container;
    [_removeWall] of an untracked id changes nothing; and
    [_clearWallTracker] leaves no wall tracked and the container empty. *)
Theorem removeWall_and_clearWallTracker_take_the_walls_off (calls : list Walls.Call) :
  let s := foldl Walls.call Walls.empty calls in
  (forall wallId e,
      Walls.wallTracker s !! wallId = Some e ->
      let s' := Walls._removeWall wallId s in
      Walls.wallTracker s' = delete wallId (Walls.wallTracker s)
      /\ Walls.drawings s' !! Walls.graphics e = None
      /\ forall o, o ∈ Walls.children s'
                   <-> o ∈ Walls.children s /\ ~ Walls.owns e o)
  /\ (forall wallId,
        Walls.wallTracker s !! wallId = None -> Walls._removeWall wallId s = s)
  /\ Walls.wallTracker (Walls._clearWallTracker s) = ∅
  /\ Walls.children (Walls._clearWallTracker s) = [].
Proof.
  intros s.
  assert (Hc : Walls.consistent s) by apply walls_calls_consistent, walls_consistent_empty.
  split_and!.
  - intros wallId e He s'.
    destruct (walls_removeWall_tracked wallId e s He) as (Hm & Hch & _ & _).
    split_and!; [done | | done].
    subst s'. unfold Walls._removeWall. rewrite He.
    destruct e as [g [t |]]; simpl.
    + rewrite lookup_delete_ne, lookup_delete_eq; [done |].
      intros ->. by apply (Walls.two_objects s Hc _ _ He).
    + by rewrite lookup_delete_eq.
  - intros wallId He. unfold Walls._removeWall. by rewrite He.
  - by apply walls_clearWallTracker_spec.
  - by apply walls_clearWallTracker_spec.
Qed.

(** X26.  On a layer in any state the four methods reach, [_addWall] and
    [_updateWall] do the same: afterwards the wall is tracked, its graphics
    are in the container and hold the wall as it is now, and it has a text
    with its bounds, in the container, exactly when it is bounded above or
    below.  Adding or updating the same wall again changes nothing. *)
Theorem addWall_draws_the_wall_once (calls : list Walls.Call) (wall : Walls.Wall) :
  let s := foldl Walls.call Walls.empty calls in
  let s1 := Walls._addWall wall s in
  Walls._updateWall wall s = s1
  /\ (exists e,
        Walls.drawnAs wall e s1
        /\ Walls.graphics e ∈ Walls.children s1
        /\ forall t, Walls.text e = Some t -> t ∈ Walls.children s1)
  /\ Walls._addWall wall s1 = s1
  /\ Walls._updateWall wall s1 = s1.
Proof.
  intros s s1.
  assert (Hc : Walls.consistent s) by apply walls_calls_consistent, walls_consistent_empty.
  assert (Hc1 : Walls.consistent s1) by by apply walls_addWall_consistent.
  destruct (walls_addWall_drawn wall s Hc) as [e He]. fold s1 in He.
  assert (Hfix : Walls._addWall wall s1 = s1).
  { unfold Walls._addWall. rewrite (proj1 He). by apply walls_updateTracked_fixpoint. }
  split_and!; [apply walls_add_is_update | | done | by rewrite walls_add_is_update].
  exists e. split_and!; [done | |].
  - apply (Walls.shown_tracked s1 Hc1). exists (Walls.wall_id wall), e.
    split; [apply He | by left].
  - intros t Ht. apply (Walls.shown_tracked s1 Hc1). exists (Walls.wall_id wall), e.
    split; [apply He | by right].
Qed.
(* ===================================================================== *)
(** ** The stairs and the region tools on concrete inputs *)
(* ===================================================================== *)

(** X16, for stairs from 0 up to 10 and a user who confirms. *)
Lemma stairs_up_take_a_token_between_floor_and_elevation_witness :
  Stairs.onTokenMoveIn_elevation demoEnv stairsUp 0 = Some 10
  /\ Stairs.onTokenMoveIn_elevation demoEnv stairsUp 10 = Some 0
  /\ Stairs.onTokenMoveIn_elevation demoEnv stairsUp 5 = Some 10
  /\ Stairs.onTokenMoveIn_elevation demoEnv stairsUp 6 = Some 0.
Proof.
  destruct (stairs_up_take_a_token_between_floor_and_elevation demoEnv stairsUp
              eq_refl ltac:(simpl; lia) ltac:(simpl; lia) ltac:(simpl; lia)
              (or_intror (fun _ => eq_refl)))
    as (Hfloor & Helev & Hbetween).
  split_and!; [exact Hfloor | exact Helev | |].
  - exact (Hbetween 5 ltac:(simpl; lia) ltac:(simpl; lia)).
  - exact (Hbetween 6 ltac:(simpl; lia) ltac:(simpl; lia)).
Defined.

(** X17, for strict stairs from floor 10 down to 0. *)
Lemma stairs_down_leave_a_token_at_either_end_witness :
  Stairs.onTokenMoveIn_elevation demoEnv stairsDown 10 = None
  /\ Stairs.onTokenMoveIn_elevation demoEnv stairsDown 0 = None
  /\ Stairs.onTokenMoveIn_elevation demoEnv stairsDown 5 = None.
Proof.
  destruct (stairs_down_leave_a_token_at_either_end demoEnv stairsDown
              eq_refl ltac:(simpl; lia) ltac:(simpl; lia) ltac:(simpl; lia))
    as (Hfloor & Helev & Hstrict & _).
  split_and!; [exact Hfloor | exact Helev | exact (Hstrict eq_refl 5)].
Defined.

(** X18, for the one-way lift from the ground to 10. *)
Lemma one_way_stairs_lift_in_and_reset_out_witness :
  Stairs.onTokenMoveIn_elevation demoEnv oneWay 0 = Some 10
  /\ Stairs.onTokenMoveOut_elevation demoEnv oneWay 10 = Some 0
  /\ Stairs.onTokenMoveIn_elevation demoEnv oneWay 10 = None
  /\ Stairs.onTokenMoveOut_elevation demoEnv oneWay 0 = None.
Proof.
  exact (one_way_stairs_lift_in_and_reset_out demoEnv oneWay
           eq_refl eq_refl eq_refl ltac:(simpl; lia) (or_introl eq_refl)).
Defined.

(** X20, for a token dragged across the region towards (400, 0). *)
Lemma continue_after_stopping_at_the_entrance_witness :
  let st := Stairs.onTokenPreMove stairsUp false crossing
              {| Stairs.lastDestination := None;
                 Stairs.destination := Stairs.mkWaypoint 400 0 0 |} in
  Stairs.destination st = Stairs.mkWaypoint 100 0 0
  /\ Stairs.lastDestination st = Some (Stairs.mkWaypoint 400 0 0)
  /\ Stairs.continueTokenAnimationForBehavior demoEnv (Stairs.lastDestination st)
       (Some 10)
     = ([{| Stairs.update := Stairs.SetPosition 400 0; Stairs.teleport := false |};
         {| Stairs.update := Stairs.SetElevation 10; Stairs.teleport := false |}],
        None).
Proof.
  destruct (continue_after_stopping_at_the_entrance demoEnv stairsUp crossing
              _ (Stairs.mkWaypoint 400 0 0) None eq_refl eq_refl)
    as (Hdest & Hlast & _ & Helevate).
  split_and!; [exact Hdest | exact Hlast | exact (Helevate 10)].
Defined.

(** X21, for the region tools select, rectangle, polygon, hole and clear,
    on a square grid, for a GM. *)
Lemma getSceneControlButtons_places_the_tools_witness :
  Controls.getSceneControlButtons tt tt tt tt true false true
    [tokenControl;
     Controls.mkControl "regions"
       [toolNamed "select"; toolNamed "rectangle"; toolNamed "polygon";
        toolNamed "hole"; toolNamed "clear"];
     lightingControl]
  = [tokenControl;
     Controls.mkControl "regions"
       [toolNamed "select"; toolNamed "fill-by-grid"; toolNamed "rectangle";
        toolNamed "polygon"; toolNamed "fill-by-los"; toolNamed "fill-by-walls";
        toolNamed "hole"; toolNamed "terrain-book"; toolNamed "clear"];
     lightingControl].
Proof.
  refine (proj2 (getSceneControlButtons_places_the_tools tt tt tt tt false true
                   [] [toolNamed "rectangle"] [toolNamed "hole"] []
                   (toolNamed "select") (toolNamed "polygon") (toolNamed "clear")
                   [tokenControl] [lightingControl]
                   eq_refl _ eq_refl _ eq_refl _ _)).
  - intros t Ht. by apply elem_of_nil in Ht.
  - intros t Ht. simpl in Ht.
    repeat (apply elem_of_cons in Ht as [-> | Ht]; [discriminate |]).
    by apply elem_of_nil in Ht.
  - intros t Ht. simpl in Ht.
    repeat (apply elem_of_cons in Ht as [-> | Ht]; [discriminate |]).
    by apply elem_of_nil in Ht.
  - intros c Hc.
    repeat (apply elem_of_cons in Hc as [-> | Hc]; [discriminate |]).
    by apply elem_of_nil in Hc.
Defined.
